(** * ShopAI: the product retrieval, filtering, scoring and ranking pipeline

    A shallow embedding of [modules/shopping.py] (with the helpers of
    [modules/utils.py] it calls) and the properties its specification
    states about it, followed by further properties of the same functions:
    their exceptions and edge cases, what they keep, and how the stages
    compose.

    Conventions of the embedding.
    - A Python [str] is a list of code points; the development covers the
      code points below 256 (one [ascii] each), for which [str.lower],
      [str.isspace] and the regular-expression classes [\s] and [\w] are
      the finite tables written out below.
    - A Python [float] is an IEEE-754 binary64 number, a [spec_float] of
      the Standard Library at precision 53; [int] is [Z].
    - An offer is a Python [dict] from the provider's JSON: a finite map
      from field names to scalar values ([None], [bool], [int], [float],
      [str]).
    - A call that can raise returns a [res]: [Ok v] or [Raise e].
    - The network (the two providers), [urlparse] and the table
      [SITE_DOMAINS] of the absent [constants.py] are parameters of the
      pipeline. *)

From Stdlib Require Import ZArith QArith String Ascii List Bool Lia Sorted Permutation.
From Stdlib Require Import Floats.SpecFloat.
From stdpp Require Import base decidable option list strings.
Import ListNotations.

Set Default Proof Using "Type".

(* ===================================================================== *)
(** * Strings *)
(* ===================================================================== *)

Module PyStr.

Definition str := list ascii.

(** A string literal of the source. *)
Definition lit (s : string) : str := list_ascii_of_string s.
Coercion lit : string >-> str.

Definition code (c : ascii) : N := N_of_ascii c.

Definition between (lo hi n : N) : bool := ((lo <=? n) && (n <=? hi))%N.

(** [str.isspace] and the class [\s]: TAB..CR, FS..US, SPACE, NEL, NBSP. *)
Definition is_space (c : ascii) : bool :=
  let n := code c in
  between 9 13 n || between 28 32 n || (n =? 133)%N || (n =? 160)%N.

(** The ASCII white space that [float()] skips at both ends. *)
Definition is_ascii_space (c : ascii) : bool :=
  let n := code c in between 9 13 n || (n =? 32)%N.

(** Upper-case letters: A..Z and the Latin-1 capitals (not the sign at 215). *)
Definition is_upper (c : ascii) : bool :=
  let n := code c in
  between 65 90 n || (between 192 222 n && negb (n =? 215)%N).

(** [str.lower] on one code point. *)
Definition lower_char (c : ascii) : ascii :=
  if is_upper c then ascii_of_N (code c + 32) else c.

(** The class [\w] of a [str] pattern: alphanumerics and the underscore. *)
Definition is_word (c : ascii) : bool :=
  let n := code c in
  between 48 57 n || between 65 90 n || (n =? 95)%N || between 97 122 n
  || (n =? 170)%N || between 178 179 n || (n =? 181)%N || between 185 186 n
  || between 188 190 n || between 192 214 n || between 216 246 n
  || between 248 255 n.

Definition is_digit (c : ascii) : bool := between 48 57 (code c).

Definition lower (s : str) : str := map lower_char s.

(** [s.strip()] *)
Fixpoint lstrip (s : str) : str :=
  match s with
  | [] => []
  | c :: s' => if is_space c then lstrip s' else s
  end.
Definition rstrip (s : str) : str := rev (lstrip (rev s)).
Definition strip (s : str) : str := rstrip (lstrip s).

(** [re.sub(r'\s+', ' ', s)]: every maximal run of white space becomes one
    space. [in_run] tells that the run the scan is in was already replaced. *)
Fixpoint sub_ws_from (in_run : bool) (s : str) : str :=
  match s with
  | [] => []
  | c :: s' =>
      if is_space c
      then (if in_run then sub_ws_from true s' else " "%char :: sub_ws_from true s')
      else c :: sub_ws_from false s'
  end.

Definition re_sub_ws (s : str) : str := sub_ws_from false s.

(** [needle in hay] on strings. *)
Fixpoint starts_with (p s : str) : bool :=
  match p, s with
  | [], _ => true
  | a :: p', b :: s' => bool_decide (a = b) && starts_with p' s'
  | _ :: _, [] => false
  end.

Fixpoint contains (needle hay : str) : bool :=
  starts_with needle hay ||
  match hay with
  | [] => false
  | _ :: hay' => contains needle hay'
  end.

(** [s.replace(old, "")] for a one-character [old]. *)
Definition remove_char (old : ascii) (s : str) : str :=
  filter (fun c => c ≠ old) s.

(** The word boundary [\b] between two neighbouring positions; the ends of
    the string count as non-word. *)
Definition word_opt (o : option ascii) : bool :=
  match o with Some c => is_word c | None => false end.

Definition boundary (prev next : option ascii) : bool :=
  xorb (word_opt prev) (word_opt next).

(** A literal of the pattern against the text under [re.IGNORECASE]: below
    256 a letter of the pattern matches its two cases and nothing else.
    (The code points 304, 305 and 8490, which the letters [i] and [k] match
    besides, lie outside the development.) *)
Fixpoint ci_prefix (pat s : str) : bool :=
  match pat, s with
  | [], _ => true
  | p :: pat', c :: s' =>
      bool_decide (lower_char c = lower_char p) && ci_prefix pat' s'
  | _ :: _, [] => false
  end.

(** Does [\b old \b] match at the head of [s], [prev] being the character
    before it? *)
Definition match_here (old : str) (prev : option ascii) (s : str) : bool :=
  boundary prev (head s)
  && ci_prefix old s
  && boundary (last (take (length old) s)) (head (drop (length old) s)).

(** [re.sub(rf'\b{old}\b', new, s, flags=re.IGNORECASE)] for a non-empty
    literal [old]: the scan replaces the leftmost match and resumes after
    it; [skip] counts the characters of the match still to be passed. *)
Fixpoint sub_scan (old new : str) (prev : option ascii) (skip : nat) (s : str) : str :=
  match s with
  | [] => []
  | c :: s' =>
      match skip with
      | S k => sub_scan old new (Some c) k s'
      | O =>
          if match_here old prev s
          then new ++ sub_scan old new (Some c) (length old - 1) s'
          else c :: sub_scan old new (Some c) 0 s'
      end
  end.

Definition re_sub_word_ci (old new s : str) : str := sub_scan old new None 0 s.

(** [re.findall(r'\b\w+\b', s)]: the maximal runs of word characters.
    [cur] is the run being read, in reverse. *)
Fixpoint words_from (cur : str) (s : str) : list str :=
  match s with
  | [] => match cur with [] => [] | _ => [rev cur] end
  | c :: s' =>
      if is_word c then words_from (c :: cur) s'
      else match cur with
           | [] => words_from [] s'
           | _ => rev cur :: words_from [] s'
           end
  end.

Definition findall_words (s : str) : list str := words_from [] s.

End PyStr.
Export PyStr.

(* ===================================================================== *)
(** * The Query Builder *)
(* ===================================================================== *)

Definition replacements : list (str * str) :=
  [ (lit "macbook pro", lit "MacBook Pro");
    (lit "macbook air", lit "MacBook Air");
    (lit "iphone", lit "iPhone");
    (lit "ipad", lit "iPad") ].

Definition apply_replacements (reps : list (str * str)) (cleaned : str) : str :=
  fold_left (fun cleaned '(old, new) => re_sub_word_ci old new cleaned) reps cleaned.

Definition clean_search_query (query : str) : str :=
  let cleaned := re_sub_ws (strip query) in
  apply_replacements replacements cleaned.

Definition str_join_space (parts : list str) : str :=
  match parts with
  | [] => []
  | p :: ps => p ++ concat (map (fun q => " "%char :: q) ps)
  end.

Definition optimize_query_for_google_shopping (item_name site_preference : str) : str :=
  let cleaned_query := clean_search_query item_name in
  let optimized_parts := [cleaned_query] in
  let optimized_parts :=
    if negb (contains "new" (lower cleaned_query))
    then optimized_parts ++ [lit "new"] else optimized_parts in
  let optimized_parts :=
    if negb (bool_decide (lower site_preference = lit "any"))
    then optimized_parts ++ [site_preference] else optimized_parts in
  str_join_space optimized_parts.


(* ===================================================================== *)
(** * Exceptions *)
(* ===================================================================== *)

Inductive exn :=
  | AttributeError | TypeError | ValueError | OverflowError
  | ZeroDivisionError | KeyError | RequestException.

Inductive res (A : Type) : Type :=
  | Ok (a : A)
  | Raise (e : exn).
Arguments Ok {A} a.
Arguments Raise {A} e.

Global Instance res_ret : MRet res := fun A a => Ok a.
Global Instance res_bind : MBind res := fun A B f m =>
  match m with Ok a => f a | Raise e => Raise e end.
Global Instance res_fmap : FMap res := fun A B f m =>
  match m with Ok a => Ok (f a) | Raise e => Raise e end.

(** [try: m except (...): h] for a handler that catches every exception
    that [m] can raise here. *)
Definition try_except {A} (m : res A) (h : A) : A :=
  match m with Ok a => a | Raise _ => h end.

Fixpoint mapM_res {A B} (f : A -> res B) (l : list A) : res (list B) :=
  match l with
  | [] => Ok []
  | x :: l' => y ← f x; ys ← mapM_res f l'; Ok (y :: ys)
  end.

Fixpoint filterM_res {A} (f : A -> res bool) (l : list A) : res (list A) :=
  match l with
  | [] => Ok []
  | x :: l' => b ← f x; ys ← filterM_res f l'; Ok (if b : bool then x :: ys else ys)
  end.

(* ===================================================================== *)
(** * Numbers: [int] and [float] *)
(* ===================================================================== *)

Module PyNum.

Abbreviation float := spec_float.

Definition prec : Z := 53.
Definition emax : Z := 1024.

Definition fadd : float -> float -> float := SFadd prec emax.
Definition fsub : float -> float -> float := SFsub prec emax.
Definition fmul : float -> float -> float := SFmul prec emax.
Definition fdiv : float -> float -> float := SFdiv prec emax.
Definition fopp : float -> float := SFopp.

Definition inf : float := S754_infinity false.
Definition nan : float := S754_nan.

Definition is_nan (f : float) : bool :=
  match f with S754_nan => true | _ => false end.
Definition is_inf (f : float) : bool :=
  match f with S754_infinity _ => true | _ => false end.
Definition is_zero (f : float) : bool :=
  match f with S754_zero _ => true | _ => false end.

(** The quotient [n / d] of two positive integers, rounded to the nearest
    binary64 (ties to even), with the sign [neg]. *)
Definition round_ratio (neg : bool) (n d : positive) : float :=
  let '(m, e, l) := SFdiv_core_binary prec emax (Zpos n) 0 (Zpos d) 0 in
  binary_round_aux prec emax neg m e l.

(** The integer [z] rounded to the nearest binary64. *)
Definition float_of_Z (z : Z) : float := binary_normalize prec emax z 0 false.

(** [float(z)] as the arithmetic operators do it for an [int] operand. *)
Definition int_to_float (z : Z) : res float :=
  let f := float_of_Z z in
  if is_inf f then Raise OverflowError else Ok f.

(** [a / b] on two [int]s. *)
Definition int_true_div (a b : Z) : res float :=
  let neg := xorb (a <? 0)%Z (b <? 0)%Z in
  match a, b with
  | _, Z0 => Raise ZeroDivisionError
  | Z0, _ => Ok (S754_zero neg)
  | (Zpos n | Zneg n), (Zpos d | Zneg d) =>
      let f := round_ratio neg n d in
      if is_inf f then Raise OverflowError else Ok f
  end.

(** ** Exact values, for comparisons

    Python compares an [int] with a [float], and two [float]s, by their
    exact values; a NaN has none. *)
Inductive xval := XNegInf | XFin (q : Q) | XPosInf.

Definition q_of_finite (s : bool) (m : positive) (e : Z) : Q :=
  let n := if s then Zneg m else Zpos m in
  match e with
  | Z0 => n # 1
  | Zpos p => (n * Z.pow_pos 2 p)%Z # 1
  | Zneg p => n # (Pos.pow 2 p)
  end.

Definition float_val (f : float) : option xval :=
  match f with
  | S754_nan => None
  | S754_infinity s => Some (if s then XNegInf else XPosInf)
  | S754_zero _ => Some (XFin 0)
  | S754_finite s m e => Some (XFin (q_of_finite s m e))
  end.

Definition xval_compare (a b : xval) : comparison :=
  match a, b with
  | XNegInf, XNegInf => Eq
  | XNegInf, _ => Lt
  | _, XNegInf => Gt
  | XPosInf, XPosInf => Eq
  | XPosInf, _ => Gt
  | _, XPosInf => Lt
  | XFin p, XFin q => Qcompare p q
  end.

Inductive num := NInt (z : Z) | NFloat (f : float).

Definition num_val (n : num) : option xval :=
  match n with
  | NInt z => Some (XFin (inject_Z z))
  | NFloat f => float_val f
  end.

Definition num_compare (a b : num) : option comparison :=
  match num_val a, num_val b with
  | Some x, Some y => Some (xval_compare x y)
  | _, _ => None
  end.

(** [a < b], [a <= b], [a == b]: false as soon as one side is a NaN. *)
Definition num_lt (a b : num) : bool :=
  match num_compare a b with Some Lt => true | _ => false end.
Definition num_le (a b : num) : bool :=
  match num_compare a b with Some (Lt | Eq) => true | _ => false end.
Definition num_eq (a b : num) : bool :=
  match num_compare a b with Some Eq => true | _ => false end.

(** ** Arithmetic *)
Definition as_float (n : num) : res float :=
  match n with NInt z => int_to_float z | NFloat f => Ok f end.

Definition num_arith (iop : Z -> Z -> Z) (fop : float -> float -> float)
    (a b : num) : res num :=
  match a, b with
  | NInt x, NInt y => Ok (NInt (iop x y))
  | _, _ => x ← as_float a; y ← as_float b; Ok (NFloat (fop x y))
  end.

Definition num_add : num -> num -> res num := num_arith Z.add fadd.
Definition num_sub : num -> num -> res num := num_arith Z.sub fsub.
Definition num_mul : num -> num -> res num := num_arith Z.mul fmul.

Definition num_truediv (a b : num) : res num :=
  match a, b with
  | NInt x, NInt y => f ← int_true_div x y; Ok (NFloat f)
  | _, _ =>
      x ← as_float a; y ← as_float b;
      if is_zero y then Raise ZeroDivisionError else Ok (NFloat (fdiv x y))
  end.

Definition num_neg (a : num) : num :=
  match a with NInt z => NInt (- z) | NFloat f => NFloat (fopp f) end.

(** ** [float(s)] on a string *)

(** Non-ASCII white space becomes a space; no other character above 127
    can be part of a number. *)
Fixpoint float_ascii (s : str) : option str :=
  match s with
  | [] => Some []
  | c :: s' =>
      if (code c <=? 127)%N then cons c <$> float_ascii s'
      else if is_space c then cons " "%char <$> float_ascii s'
      else None
  end.

(** An underscore is allowed only between two digits. *)
Fixpoint drop_underscores (prev : option ascii) (s : str) : option str :=
  match s with
  | [] => if bool_decide (prev = Some "_"%char) then None else Some []
  | c :: s' =>
      if bool_decide (c = "_"%char)
      then (if from_option is_digit false prev then drop_underscores (Some c) s' else None)
      else if bool_decide (prev = Some "_"%char) && negb (is_digit c) then None
      else cons c <$> drop_underscores (Some c) s'
  end.

Fixpoint lstrip_ascii (s : str) : str :=
  match s with
  | [] => []
  | c :: s' => if is_ascii_space c then lstrip_ascii s' else s
  end.

Definition strip_ascii (s : str) : str := rev (lstrip_ascii (rev (lstrip_ascii s))).

Definition read_sign (s : str) : bool * str :=
  match s with
  | c :: s' =>
      if bool_decide (c = "-"%char) then (true, s')
      else if bool_decide (c = "+"%char) then (false, s')
      else (false, s)
  | [] => (false, [])
  end.

(** The leading decimal digits of [s]: their value after [acc], their
    number after [n], and the rest. *)
Fixpoint read_digits (acc : Z) (n : nat) (s : str) : Z * nat * str :=
  match s with
  | c :: s' =>
      if is_digit c
      then read_digits (10 * acc + Z.of_N (code c - 48)) (S n) s'
      else (acc, n, s)
  | [] => (acc, n, [])
  end.

(** A decimal numeral: sign, digits with an optional point, an optional
    exponent; the whole string. The result is (negative, D, E) for the
    value D * 10^E. *)
Definition read_decimal (s : str) : option (bool * Z * Z) :=
  let '(neg, s1) := read_sign s in
  let '(ip, ni, s2) := read_digits 0 0 s1 in
  let '(m, nf, s3) :=
    match s2 with
    | c :: s2' => if bool_decide (c = "."%char) then read_digits ip 0 s2' else (ip, 0%nat, s2)
    | [] => (ip, 0%nat, s2)
    end in
  if bool_decide (ni + nf = 0)%nat then None
  else
    match s3 with
    | [] => Some (neg, m, - Z.of_nat nf)%Z
    | c :: s3' =>
        if bool_decide (lower_char c = "e"%char) then
          let '(eneg, s4) := read_sign s3' in
          let '(ev, ne, s5) := read_digits 0 0 s4 in
          match ne, s5 with
          | S _, [] => Some (neg, m, (if eneg then - ev else ev) - Z.of_nat nf)%Z
          | _, _ => None
          end
        else None
    end.

(** [inf], [infinity] and [nan], in any case, with an optional sign. *)
Definition read_inf_nan (s : str) : option float :=
  let '(neg, s1) := read_sign s in
  let w := map lower_char s1 in
  if bool_decide (w = lit "inf") || bool_decide (w = lit "infinity")
  then Some (S754_infinity neg)
  else if bool_decide (w = lit "nan") then Some S754_nan
  else None.

(** D * 10^E rounded to the nearest binary64; too large a value gives an
    infinity and too small a one a zero. *)
Definition decimal_to_float (neg : bool) (D E : Z) : float :=
  match D with
  | Zpos d =>
      match E with
      | Z0 => round_ratio neg d 1
      | Zpos e => round_ratio neg (d * Pos.pow 10 e) 1
      | Zneg e => round_ratio neg d (Pos.pow 10 e)
      end
  | _ => S754_zero neg
  end.

Definition py_float_of_str (s : str) : res float :=
  match float_ascii s ≫= drop_underscores None with
  | None => Raise ValueError
  | Some s0 =>
      let s1 := strip_ascii s0 in
      match read_decimal s1 with
      | Some (neg, D, E) => Ok (decimal_to_float neg D E)
      | None =>
          match read_inf_nan s1 with
          | Some f => Ok f
          | None => Raise ValueError
          end
      end
  end.

End PyNum.
Export PyNum.

(* ===================================================================== *)
(** * Values and dictionaries *)
(* ===================================================================== *)

(** The scalar values of the provider's JSON. *)
Inductive pyval :=
  | PNone
  | PBool (b : bool)
  | PInt (z : Z)
  | PFloat (f : float)
  | PStr (s : str).

Global Instance spec_float_eq_dec : EqDecision spec_float.
Proof. solve_decision. Defined.
Global Instance pyval_eq_dec : EqDecision pyval.
Proof. solve_decision. Defined.

(** Truth value of [v] in a condition. *)
Definition truthy (v : pyval) : bool :=
  match v with
  | PNone => false
  | PBool b => b
  | PInt z => negb (z =? 0)%Z
  | PFloat f => negb (is_zero f)
  | PStr s => negb (bool_decide (s = []))
  end.

(** [a or b] *)
Definition py_or (a b : pyval) : pyval := if truthy a then a else b.

(** [bool] is a subtype of [int]. *)
Definition as_num (v : pyval) : option num :=
  match v with
  | PBool b => Some (NInt (if b then 1 else 0))
  | PInt z => Some (NInt z)
  | PFloat f => Some (NFloat f)
  | _ => None
  end.

Definition of_num (n : num) : pyval :=
  match n with NInt z => PInt z | NFloat f => PFloat f end.

(** [isinstance(v, (int, float))] and [isinstance(v, int)] *)
Definition is_int_or_float (v : pyval) : bool :=
  match v with PBool _ | PInt _ | PFloat _ => true | _ => false end.
Definition is_int (v : pyval) : bool :=
  match v with PBool _ | PInt _ => true | _ => false end.

(** [a == b] *)
Definition py_eq (a b : pyval) : bool :=
  match as_num a, as_num b with
  | Some x, Some y => num_eq x y
  | _, _ =>
      match a, b with
      | PNone, PNone => true
      | PStr s, PStr t => bool_decide (s = t)
      | _, _ => false
      end
  end.

(** Membership in a [set] tests identity before equality. Among decoded
    JSON values the only one that is not equal to itself is the NaN, of
    which the decoder has a single object. *)
Definition py_same (a b : pyval) : bool := bool_decide (a = b) || py_eq a b.

Definition set_mem (x : pyval) (s : list pyval) : bool := existsb (py_same x) s.

Fixpoint str_lt (s t : str) : bool :=
  match s, t with
  | _, [] => false
  | [], _ :: _ => true
  | a :: s', b :: t' =>
      (code a <? code b)%N || ((code a =? code b)%N && str_lt s' t')
  end.

(** [a < b] *)
Definition py_lt (a b : pyval) : res bool :=
  match as_num a, as_num b with
  | Some x, Some y => Ok (num_lt x y)
  | _, _ =>
      match a, b with
      | PStr s, PStr t => Ok (str_lt s t)
      | _, _ => Raise TypeError
      end
  end.

(** [-a] *)
Definition py_neg (a : pyval) : res pyval :=
  match as_num a with
  | Some x => Ok (of_num (num_neg x))
  | None => Raise TypeError
  end.

(** The arithmetic operators and [min], on numbers. *)
Definition py_arith (op : num -> num -> res num) (a b : pyval) : res pyval :=
  match as_num a, as_num b with
  | Some x, Some y => of_num <$> op x y
  | _, _ => Raise TypeError
  end.

Definition py_add : pyval -> pyval -> res pyval := py_arith num_add.
Definition py_sub : pyval -> pyval -> res pyval := py_arith num_sub.
Definition py_mul : pyval -> pyval -> res pyval := py_arith num_mul.
Definition py_truediv : pyval -> pyval -> res pyval := py_arith num_truediv.

(** [min(a, b)]: [a] unless [b < a]. *)
Definition py_min (a b : pyval) : res pyval :=
  lt ← py_lt b a; Ok (if lt : bool then b else a).

(** The receiver of a [str] method: anything else has no such attribute. *)
Definition as_str (v : pyval) : res str :=
  match v with PStr s => Ok s | _ => Raise AttributeError end.

(** An offer, a seller: a [dict] with string keys, kept as the list of
    its items in insertion order, each key once. *)
Record dict := Dict { dict_items : list (string * pyval) }.

Fixpoint items_lookup (k : string) (items : list (string * pyval)) : option pyval :=
  match items with
  | [] => None
  | (k', v) :: rest => if bool_decide (k = k') then Some v else items_lookup k rest
  end.

Fixpoint items_set (k : string) (v : pyval) (items : list (string * pyval))
    : list (string * pyval) :=
  match items with
  | [] => [(k, v)]
  | (k', v') :: rest =>
      if bool_decide (k = k') then (k, v) :: rest else (k', v') :: items_set k v rest
  end.

Global Instance dict_lookup : Lookup string pyval dict :=
  fun k d => items_lookup k (dict_items d).
Global Instance dict_insert : Insert string pyval dict :=
  fun k v d => Dict (items_set k v (dict_items d)).

Abbreviation offer := dict.

(** [d.get(k, dflt)], [d.get(k)], [k in d], [d[k] = v] *)
Definition dict_get (d : offer) (k : string) (dflt : pyval) : pyval :=
  default dflt (d !! k).
Definition dict_get_none (d : offer) (k : string) : pyval := dict_get d k PNone.
Definition has_key (d : offer) (k : string) : bool := bool_decide (is_Some (d !! k)).
Definition dict_set (d : offer) (k : string) (v : pyval) : offer := <[k := v]> d.

(** [dict(...)] from its items. *)
Definition mk_dict (items : list (string * pyval)) : offer :=
  fold_left (fun d '(k, v) => dict_set d k v) items (Dict []).

(* ===================================================================== *)
(** * Sorting *)
(* ===================================================================== *)

(** [sorted] is stable and compares with [<] only. It is modelled as the
    stable insertion sort, which returns what [list.sort] returns whenever
    [<] is a strict weak order on the keys at hand, and on every list of
    at most two elements. *)
Fixpoint insert_sorted {A} (lt : A -> A -> res bool) (x : A) (l : list A) : res (list A) :=
  match l with
  | [] => Ok [x]
  | y :: l' =>
      b ← lt y x;
      if b : bool then r ← insert_sorted lt x l'; Ok (y :: r)
      else Ok (x :: l)
  end.

Fixpoint sort_with {A} (lt : A -> A -> res bool) (l : list A) : res (list A) :=
  match l with
  | [] => Ok []
  | x :: l' => s ← sort_with lt l'; insert_sorted lt x s
  end.

(** [sorted(l, key=key, reverse=reverse)]: the keys are computed first;
    a reverse sort reverses the list, sorts it, and reverses the result. *)
Definition sorted {A K} (key : A -> res K) (lt : K -> K -> res bool)
    (reverse : bool) (l : list A) : res (list A) :=
  keyed ← mapM_res (fun x => k ← key x; Ok (k, x)) l;
  let lt2 := fun a b : K * A => lt (fst a) (fst b) in
  s ← (if reverse then r ← sort_with lt2 (rev keyed); Ok (rev r)
       else sort_with lt2 keyed);
  Ok (map snd s).

(** [(a1, b1) < (a2, b2)] on tuples of numbers computed for the sort. *)
Definition tuple_lt (x y : pyval * pyval) : res bool :=
  if negb (py_eq (fst x) (fst y)) then py_lt (fst x) (fst y)
  else if negb (py_eq (snd x) (snd y)) then py_lt (snd x) (snd y)
  else Ok false.

(* ===================================================================== *)
(** * The pipeline of [modules/shopping.py] *)
(* ===================================================================== *)

Section Pipeline.

(** [constants.SITE_DOMAINS]: the domains of each retailer, by lower-case
    retailer name. The table is configuration data of the deployment. *)
Variable SITE_DOMAINS : str -> option (list str).

(** [urlparse(link).netloc], which raises on a malformed link. *)
Variable urlparse_netloc : str -> res str.

(** The shopping-search provider: the [shopping_results] of the response
    to a query [q] for [num] results, [tbs] telling whether merchant
    aggregation was requested. A transport failure is a
    [RequestException]. *)
Variable serpapi_shopping : forall (q : str) (num : Z) (tbs : bool), res (list offer).

(** The product-detail provider: the [online_sellers] of a product. *)
Variable serpapi_sellers : forall (product_id : pyval), res (list offer).

(** [modules/utils.py] *)
Definition get_site_domains (site_preference : str) : list str :=
  default [] (SITE_DOMAINS (lower site_preference)).

(** ** Result Fetcher *)
Definition perform_search (search_query site_preference : str) (num_results : Z)
    : res (list offer) :=
  let optimized_query := optimize_query_for_google_shopping search_query site_preference in
  let tbs := bool_decide (lower site_preference = lit "any") in
  match serpapi_shopping optimized_query num_results tbs with
  | Ok results => Ok results
  | Raise RequestException => Ok []
  | Raise e => Raise e
  end.

(** ** Deduplicator *)
Definition offer_identifier (result : offer) : pyval :=
  py_or (py_or (dict_get_none result "product_id") (dict_get_none result "id"))
        (dict_get result "link" (PStr "")).

Definition offer_normalized_title (result : offer) : res str :=
  t ← as_str (dict_get result "title" (PStr ""));
  let title := strip (lower t) in
  Ok (strip (re_sub_ws title)).

Fixpoint remove_duplicates_loop (seen_ids : list pyval) (seen_titles : list str)
    (unique_results : list offer) (results : list offer) : res (list offer) :=
  match results with
  | [] => Ok unique_results
  | result :: rest =>
      let product_id := offer_identifier result in
      normalized_title ← offer_normalized_title result;
      if negb (set_mem product_id seen_ids)
         && negb (bool_decide (normalized_title ∈ seen_titles))
      then remove_duplicates_loop (product_id :: seen_ids)
             (normalized_title :: seen_titles) (unique_results ++ [result]) rest
      else remove_duplicates_loop seen_ids seen_titles unique_results rest
  end.

Definition remove_duplicates (results : list offer) : res (list offer) :=
  remove_duplicates_loop [] [] [] results.

(** ** Filter Chain *)
Definition accessory_keywords : list str :=
  map lit ["case"; "cover"; "skin"; "screen protector"; "charger"; "cable"; "adapter";
           "stand"; "mount"; "sleeve"; "bag"; "keyboard"; "mouse"; "dock"; "hub";
           "sticker"; "decal"; "film"; "guard"; "protector"; "holder"; "grip";
           "cleaning"; "cloth"; "kit"; "tool"; "repair"; "replacement part"].

Definition is_accessory_or_irrelevant (title item : str) : bool :=
  existsb (fun keyword => contains keyword title && negb (contains keyword (lower item)))
          accessory_keywords.

Definition used_keywords : list str :=
  map lit ["used"; "refurbished"; "renewed"; "pre-owned"; "open box"; "grade b";
           "grade c"; "scratched"].

Definition is_used_or_refurbished (product : offer) (title : str) : bool :=
  if has_key product "second_hand_condition" then true
  else existsb (fun keyword => contains keyword title) used_keywords.

Definition is_from_correct_site (product : offer) (site_pref : str) : res bool :=
  if bool_decide (lower site_pref = lit "any") then Ok true
  else
    let site_pref_cleaned := remove_char " " (lower site_pref) in
    s ← as_str (dict_get product "source" (PStr ""));
    let source := remove_char " " (lower s) in
    if contains site_pref_cleaned source then Ok true
    else
      let link := dict_get product "link" (PStr "") in
      let via_link :=
        if truthy link then
          (* try: ... except Exception: pass *)
          match link with
          | PStr l =>
              try_except
                (n ← urlparse_netloc l;
                 let domain := lower n in
                 let target_domains := get_site_domains site_pref in
                 Ok (existsb (fun target_domain => contains target_domain domain)
                             target_domains))
                false
          | _ => false
          end
        else false in
      Ok via_link.

Definition price_ranges : list (str * (Z * Z)) :=
  [ (lit "macbook", (500, 5000)%Z); (lit "iphone", (200, 2000)%Z);
    (lit "ipad", (200, 2000)%Z); (lit "laptop", (300, 5000)%Z);
    (lit "tv", (150, 5000)%Z); (lit "tablet", (100, 2000)%Z) ].

(** [lo <= price <= hi] *)
Definition in_band (lo hi : Z) (price : float) : bool :=
  num_le (NInt lo) (NFloat price) && num_le (NFloat price) (NInt hi).

Fixpoint price_ranges_loop (ranges : list (str * (Z * Z))) (price : float)
    (item_lower : str) : bool :=
  match ranges with
  | [] => in_band 1 10000 price
  | (category, (min_price, max_price)) :: rest =>
      if contains category item_lower then in_band min_price max_price price
      else price_ranges_loop rest price item_lower
  end.

Definition is_price_reasonable (price : float) (item : str) : bool :=
  let item_lower := lower item in
  price_ranges_loop price_ranges price item_lower.

Definition stop_words : list str :=
  map lit ["a"; "an"; "the"; "and"; "for"; "with"; "in"; "on"; "of"; "to"; "new"].

(** The truth value of what the source returns: [True], or the
    intersection of the core words with the title words. *)
Definition is_semantically_relevant (title item : str) : bool :=
  let item_words := findall_words (lower item) in
  let title_words := findall_words (lower title) in
  let core_item_words := filter (fun w => w ∉ stop_words) item_words in
  if bool_decide (core_item_words = []) then true
  else existsb (fun w => bool_decide (w ∈ title_words)) core_item_words.

(** [float(price_str.replace("$", "").replace(",", ""))] *)
Definition parse_price (price_str : pyval) : res float :=
  s ← as_str price_str;
  py_float_of_str (remove_char "," (remove_char "$" s)).

Definition should_include_product (product : offer) (item site_pref : str) : res bool :=
  t ← as_str (dict_get product "title" (PStr ""));
  let title := lower t in
  let price_str := dict_get product "price" (PStr "") in
  if negb (truthy (PStr title)) || negb (truthy price_str) then Ok false
  else
    (* try: ... except (ValueError, AttributeError): return False *)
    match parse_price price_str with
    | Raise _ => Ok false
    | Ok numeric_price =>
        if num_le (NFloat numeric_price) (NInt 0) then Ok false
        else if negb (is_semantically_relevant title item) then Ok false
        else if is_accessory_or_irrelevant title item then Ok false
        else if is_used_or_refurbished product title then Ok false
        else
          c ← is_from_correct_site product site_pref;
          if negb c then Ok false
          else if negb (is_price_reasonable numeric_price item) then Ok false
          else Ok true
    end.

Definition apply_comprehensive_filters (results : list offer) (item site_pref : str)
    : res (list offer) :=
  filterM_res (fun p => should_include_product p item site_pref) results.

(** ** Relevance Scorer *)

(** One turn of the loop: the score of [product]. *)
Definition relevance_score (product : offer) (item : str) : res pyval :=
  let item_lower := lower item in
  let item_words := remove_dups (findall_words item_lower) in
  t ← as_str (dict_get product "title" (PStr ""));
  let title := lower t in
  let score := PInt 0 in
  let common_words := filter (fun w => w ∈ findall_words title) item_words in
  score ← py_add score (PInt (Z.of_nat (length common_words) * 100));
  score ← (if contains item_lower title then py_add score (PInt 1000) else Ok score);
  let rating := dict_get product "rating" (PInt 0) in
  let reviews := dict_get product "reviews" (PInt 0) in
  score ←
    (if is_int_or_float rating && is_int reviews then
       bonus ← py_mul rating (PInt 20);
       score ← py_add score bonus;
       q ← py_truediv reviews (PInt 4);
       m ← py_min q (PInt 150);
       py_add score m
     else Ok score);
  if (100 <? length title)%nat then py_sub score (PInt 25) else Ok score.

Definition calculate_advanced_relevance_scores (results : list offer) (item : str)
    : res (list offer) :=
  mapM_res (fun product =>
              score ← relevance_score product item;
              Ok (dict_set product "relevance_score" score))
           results.

(** ** Sorter *)
Definition annotate_price (product : offer) : offer :=
  dict_set product "numeric_price"
    (PFloat (try_except (parse_price (dict_get product "price" (PStr "0"))) inf)).

Definition balanced_key (x : offer) : res (pyval * pyval) :=
  s ← py_neg (dict_get x "relevance_score" (PInt 0));
  Ok (s, dict_get x "numeric_price" (PFloat inf)).

Definition sort_results (filtered_results : list offer) (sort_pref item : str)
    : res (list offer) :=
  let filtered_results := map annotate_price filtered_results in
  if bool_decide (sort_pref = lit "Cheapest") then
    sorted (fun x => Ok (dict_get x "numeric_price" (PFloat inf))) py_lt false
           filtered_results
  else if bool_decide (sort_pref = lit "Highest Rated")
          && existsb (fun p => has_key p "rating") filtered_results then
    sorted (fun x => Ok (dict_get x "rating" (PInt 0))) py_lt true filtered_results
  else
    scored_results ← calculate_advanced_relevance_scores filtered_results item;
    sorted balanced_key tuple_lt false scored_results.

(** ** Pipeline Orchestrator *)
Definition get_shopping_results (item site_pref sort_pref : str)
    : res (str * list offer) :=
  raw_results ← perform_search item site_pref 50;
  if bool_decide (raw_results = []) then Ok (item, [])
  else
    unique_results ← remove_duplicates raw_results;
    filtered_results ← apply_comprehensive_filters unique_results item site_pref;
    sorted_results ← sort_results filtered_results sort_pref item;
    Ok (item, take 10 sorted_results).

(** ** Direct-Link Resolver *)

(** The loop over the sellers: [Some link] when it returns from inside. *)
Fixpoint sellers_loop (target_domains : list str) (site_pref_cleaned : str)
    (online_sellers : list offer) : res (option pyval) :=
  match online_sellers with
  | [] => Ok None
  | seller :: rest =>
      n ← as_str (dict_get seller "name" (PStr ""));
      let seller_name := lower n in
      let seller_link := dict_get seller "link" (PStr "") in
      if contains site_pref_cleaned seller_name then Ok (Some (dict_get_none seller "link"))
      else
        (* try: ... except Exception: continue; a link that is no string
           has no domain to match *)
        let hit :=
          match seller_link with
          | PStr l =>
              try_except
                (d ← urlparse_netloc l;
                 Ok (existsb (fun domain => contains domain (lower d)) target_domains))
                false
          | _ => false
          end in
        if hit then Ok (Some (dict_get_none seller "link"))
        else sellers_loop target_domains site_pref_cleaned rest
  end.

Definition get_enhanced_direct_link (product_choice : offer) (site_pref : str)
    : res pyval :=
  ok1 ← (if truthy (dict_get_none product_choice "link")
         then is_from_correct_site product_choice site_pref else Ok false);
  if ok1 : bool then Ok (dict_get_none product_choice "link")
  else
    let product_api_id :=
      py_or (dict_get_none product_choice "product_id") (dict_get_none product_choice "id") in
    if negb (truthy product_api_id) then Ok (dict_get_none product_choice "link")
    else
      (* try: ... except Exception: warn, then fall back *)
      let found : res (option pyval) :=
        online_sellers ← serpapi_sellers product_api_id;
        match online_sellers with
        | [] => Ok None
        | first :: _ =>
            r ← (if negb (bool_decide (lower site_pref = lit "any"))
                 then sellers_loop (get_site_domains site_pref)
                        (remove_char " " (lower site_pref)) online_sellers
                 else Ok None);
            match r with
            | Some link => Ok (Some link)
            | None => Ok (Some (dict_get_none first "link"))
            end
        end in
      match found with
      | Ok (Some link) => Ok link
      | _ => Ok (dict_get_none product_choice "link")
      end.

End Pipeline.

(* ===================================================================== *)
(** * Notions used by the proofs *)
(* ===================================================================== *)

(** A string that does not start with white space. *)
Definition head_ok (s : str) : Prop :=
  match s with c :: _ => is_space c = false | [] => True end.

(** A replacement seen position by position: [Some r] where a character
    is overwritten by [r], [None] where it is kept. *)
Fixpoint overlay (m : list (option ascii)) (s : str) : str :=
  match s, m with
  | c :: s', o :: m' => default c o :: overlay m' s'
  | _, _ => s
  end.

(** Two masks in a row: the later one wins. *)
Fixpoint merge_mask (m1 m2 : list (option ascii)) : list (option ascii) :=
  match m1, m2 with
  | a :: m1', b :: m2' => (match b with Some _ => b | None => a end) :: merge_mask m1' m2'
  | [], _ => m2
  | _, [] => m1
  end.

(** The positions [sub_scan] overwrites, [pend] being the rest of the
    replacement under way. *)
Fixpoint sub_mask (old new : str) (prev : option ascii) (pend : str) (s : str)
    : list (option ascii) :=
  match s with
  | [] => []
  | c :: s' =>
      match pend with
      | r :: pend' => Some r :: sub_mask old new (Some c) pend' s'
      | [] =>
          if match_here old prev s then
            match new with
            | r :: pend' => Some r :: sub_mask old new (Some c) pend' s'
            | [] => None :: sub_mask old new (Some c) [] s'
            end
          else None :: sub_mask old new (Some c) [] s'
      end
  end.

(** A replacement that changes the case of its pattern and nothing else. *)
Definition case_only (rep : str * str) : Prop :=
  lower (snd rep) = lower (fst rep) /\ fst rep <> [].

(** The title of an offer is a string, or absent. *)
Definition title_is_str (r : offer) : Prop :=
  exists s, dict_get r "title" (PStr "") = PStr s.

(** The normalized title of an offer whose title is a string. *)
Definition title_key (r : offer) : str :=
  try_except (offer_normalized_title r) [].

(** The later offer [y] repeats the identifier, or the title, of [x]. *)
Definition shares_id (y x : offer) : bool :=
  py_same (offer_identifier y) (offer_identifier x).
Definition shares_title (y x : offer) : bool :=
  bool_decide (title_key y = title_key x).
Definition shares_key (y x : offer) : bool := shares_id y x || shares_title y x.

(** An offer with none of [product_id], [id], [link]. *)
Definition lacks_identifier (r : offer) : Prop :=
  r !! "product_id" = None /\ r !! "id" = None /\ r !! "link" = None.

(** Deduplication as the rule "an offer is kept exactly when no offer
    kept before it has its identifier or its normalized title". *)
Fixpoint dedup_kept (kept : list offer) (results : list offer) : list offer :=
  match results with
  | [] => []
  | x :: rest =>
      if existsb (shares_key x) kept then dedup_kept kept rest
      else x :: dedup_kept (x :: kept) rest
  end.

(** Deduplication as the specification words it: an offer is kept only if its
    identifier and its title are previously unseen, so that the first
    occurrence of a key wins and every later offer with that key is
    dropped. [earlier] are the offers read so far. *)
Fixpoint dedup_first_occurrence (earlier : list offer) (results : list offer) : list offer :=
  match results with
  | [] => []
  | x :: rest =>
      if existsb (shares_key x) earlier then dedup_first_occurrence (x :: earlier) rest
      else x :: dedup_first_occurrence (x :: earlier) rest
  end.

(** Three offers: the second repeats the title of the first, the third the
    identifier of the second. *)
Definition offer_A : offer :=
  mk_dict [("product_id", PStr "1"); ("title", PStr "Phone X"); ("price", PStr "$300")].
Definition offer_B : offer :=
  mk_dict [("product_id", PStr "2"); ("title", PStr "phone   x"); ("price", PStr "$310")].
Definition offer_C : offer :=
  mk_dict [("product_id", PStr "2"); ("title", PStr "Phone Y"); ("price", PStr "$320")].

(** Two offers without identifier and with different titles. *)
Definition offer_D : offer := mk_dict [("title", PStr "Desk lamp"); ("price", PStr "$20")].
Definition offer_E : offer := mk_dict [("title", PStr "Floor lamp"); ("price", PStr "$45")].

(** ** Instances used in the examples *)

(** Modelled from the spec: [constants.py] and its table [SITE_DOMAINS] are
    not part of the sources; the spec speaks of "the preference's known
    domain aliases". This instance gives each retailer of the selector its
    primary domain, the one [get_primary_domain] of [modules/utils.py]
    names. *)
Definition site_domains_example (site : str) : option (list str) :=
  if bool_decide (site = lit "walmart") then Some [lit "walmart.com"]
  else if bool_decide (site = lit "amazon") then Some [lit "amazon.com"]
  else if bool_decide (site = lit "target") then Some [lit "target.com"]
  else if bool_decide (site = lit "best buy") then Some [lit "bestbuy.com"]
  else None.

(** A stand-in for [urlparse(link).netloc] on links of the shape
    [scheme://host/path]: what lies between the two slashes and the next
    [/], [?] or [#]. *)
Fixpoint after_slashes (s : str) : option str :=
  match s with
  | [] => None
  | c :: s' =>
      match s' with
      | d :: r =>
          if bool_decide (c = "/"%char) && bool_decide (d = "/"%char) then Some r
          else after_slashes s'
      | [] => None
      end
  end.

Fixpoint until_delimiter (s : str) : str :=
  match s with
  | [] => []
  | c :: s' =>
      if bool_decide (c = "/"%char) || bool_decide (c = "?"%char) || bool_decide (c = "#"%char)
      then [] else c :: until_delimiter s'
  end.

Definition netloc_example (link : str) : res str :=
  Ok (from_option until_delimiter [] (after_slashes link)).

(** A provider that answers every query with the same offers, and one
    that fails. *)
Definition shopping_example (results : list offer) (q : str) (num : Z) (tbs : bool)
    : res (list offer) := Ok results.
Definition shopping_down (q : str) (num : Z) (tbs : bool) : res (list offer) :=
  Raise RequestException.
Definition sellers_example (sellers : list offer) (product_id : pyval) : res (list offer) :=
  Ok sellers.

(** The [float] a decimal literal of the examples denotes. *)
Definition float_of_decimal (s : string) : float := try_except (py_float_of_str s) nan.

Definition offer_iphone : offer :=
  mk_dict [("title", PStr "Apple iPhone 15 128GB"); ("price", PStr "$1,299.00");
           ("source", PStr "Amazon.com"); ("link", PStr "https://www.amazon.com/dp/xyz");
           ("product_id", PStr "777"); ("rating", PFloat (float_of_decimal "4.5"));
           ("reviews", PInt 1200)].


(** An offer with a link, no product identifier, and a source that is
    [null]; and one with such a source and no link. *)
Definition offer_null_source : offer :=
  mk_dict [("title", PStr "Apple iPhone 15"); ("price", PStr "$799.00");
           ("source", PNone); ("link", PStr "https://www.amazon.com/dp/xyz")].

(** An offer with a rating and a review count that is no integer. *)
Definition offer_rated : offer :=
  mk_dict [("title", PStr "Apple iPhone 15"); ("price", PStr "$799.00");
           ("rating", PFloat (float_of_decimal "4.5")); ("reviews", PStr "1,234")].

(** Two offers with the same score, the first with the price string [nan]. *)
Definition offer_nan : offer := mk_dict [("title", PStr "pen"); ("price", PStr "nan")].
Definition offer_one : offer := mk_dict [("title", PStr "pen"); ("price", PStr "1")].

(** The value of a number that is not a NaN. *)
Definition has_value (v : pyval) : Prop :=
  exists n x, as_num v = Some n /\ num_val n = Some x.

(** The title of the offer, as the Scorer reads it. *)
Definition scorer_title (product : offer) : res str :=
  lower <$> as_str (dict_get product "title" (PStr "")).

(** The Scorer as the specification words it: each bonus depends on its
    own field only. *)
Definition relevance_score_claimed (product : offer) (item : str) : res pyval :=
  let item_lower := lower item in
  let item_words := remove_dups (findall_words item_lower) in
  title ← scorer_title product;
  let overlap := length (filter (fun w => w ∈ findall_words title) item_words) in
  score ← py_add (PInt 0) (PInt (Z.of_nat overlap * 100));
  score ← (if contains item_lower title then py_add score (PInt 1000) else Ok score);
  let rating := dict_get product "rating" (PInt 0) in
  let reviews := dict_get product "reviews" (PInt 0) in
  score ← (if is_int_or_float rating
           then bonus ← py_mul rating (PInt 20); py_add score bonus
           else Ok score);
  score ← (if is_int reviews
           then q ← py_truediv reviews (PInt 4); m ← py_min q (PInt 150); py_add score m
           else Ok score);
  if (100 <? length title)%nat then py_sub score (PInt 25) else Ok score.

(** The source of an offer is a string, or absent. *)
Definition source_is_str (r : offer) : Prop :=
  exists s, dict_get r "source" (PStr "") = PStr s.

(** The score and the numeric price of a sorted offer, as the sort key
    reads them. *)
Definition score_of (x : offer) : pyval := dict_get x "relevance_score" (PInt 0).
Definition price_of (x : offer) : pyval := dict_get x "numeric_price" (PFloat inf).

Definition num_of (v : pyval) : num := default (NInt 0) (as_num v).

(** The order the specification states for the Balanced policy, between an
    offer [x] and an offer [y] placed after it: score[x] > score[y], or
    score[x] == score[y] and price[x] <= price[y]. *)
Definition balanced_order (x y : offer) : Prop :=
  num_lt (num_of (score_of y)) (num_of (score_of x)) = true
  \/ (num_eq (num_of (score_of x)) (num_of (score_of y)) = true
      /\ num_le (num_of (price_of x)) (num_of (price_of y)) = true).

(** The exact value of a number; [0] stands in for what has none. *)
Definition xv (v : pyval) : xval := default (XFin 0) (as_num v ≫= num_val).

(** The order of the keys [(a, b)] of the Balanced sort, by values. *)
Definition key_cmp (k1 k2 : pyval * pyval) : comparison :=
  match xval_compare (xv (fst k1)) (xv (fst k2)) with
  | Eq => xval_compare (xv (snd k1)) (xv (snd k2))
  | c => c
  end.

Definition key_le (k1 k2 : pyval * pyval) : Prop := key_cmp k1 k2 <> Gt.

Definition key_valued (k : pyval * pyval) : Prop := has_value (fst k) /\ has_value (snd k).

(** The value of [-v]. *)
Definition xneg (a : xval) : xval :=
  match a with XNegInf => XPosInf | XPosInf => XNegInf | XFin q => XFin (- q) end.

(** A pair of the Balanced sort: an offer with its key, score and price
    having values. *)
Definition keyed_ok (p : (pyval * pyval) * offer) : Prop :=
  balanced_key (snd p) = Ok (fst p)
  /\ has_value (score_of (snd p)) /\ has_value (price_of (snd p)).

(** The exponent of the binary64 format at a given magnitude. *)
Definition fexp64 (x : Z) : Z := fexp prec emax x.

(** A number that, when it is an [int], is at most [B] in magnitude. *)
Definition int_bounded (B : Z) (v : pyval) : Prop :=
  match v with
  | PInt z => (Z.abs z <= B)%Z
  | PBool _ => (1 <= B)%Z
  | PFloat _ => True
  | _ => False
  end.

Definition num_bounded (B : Z) (n : num) : Prop :=
  match n with NInt z => (Z.abs z <= B)%Z | NFloat _ => True end.

(** The offers of the data model: the title and the source are strings,
    or absent; the rating is a number, or absent; an integer rating or
    review count is below 2^1000 in magnitude, far inside the range of
    [float]. *)
Definition rating_ok (r : offer) : Prop :=
  match r !! "rating" with
  | None => True
  | Some v => int_bounded (2 ^ 1000) v
  end.

Definition reviews_ok (r : offer) : Prop :=
  match r !! "reviews" with
  | Some (PInt z) => (Z.abs z <= 2 ^ 1000)%Z
  | _ => True
  end.

Definition offer_typed (r : offer) : Prop :=
  title_is_str r /\ source_is_str r /\ rating_ok r /\ reviews_ok r.


(* ===================================================================== *)
(** * The primary domain of a retailer *)
(* ===================================================================== *)

(** [modules/utils.py]: the primary domain of a retailer, the empty string when the
    retailer is not in the table. *)
Definition domain_map : list (str * str) :=
  [ (lit "walmart", lit "walmart.com");
    (lit "amazon", lit "amazon.com");
    (lit "target", lit "target.com");
    (lit "best buy", lit "bestbuy.com") ].

(** [m.get(k, dflt)] on a [dict] of strings. *)
Fixpoint str_map_get (m : list (str * str)) (k dflt : str) : str :=
  match m with
  | [] => dflt
  | (k', v) :: rest => if bool_decide (k = k') then v else str_map_get rest k dflt
  end.

Definition get_primary_domain (site_preference : str) : str :=
  str_map_get domain_map (lower site_preference) (lit "").

(* ===================================================================== *)
(** * Notions used by the further properties *)
(* ===================================================================== *)

(** White space in normal form: no white space at either end, and inside
    only single spaces. *)
Fixpoint single_spaced (s : str) : bool :=
  match s with
  | [] => true
  | c :: s' =>
      (if is_space c
       then bool_decide (c = " "%char) && negb (from_option is_space true (head s'))
       else true)
      && single_spaced s'
  end.

Definition ws_normal (s : str) : bool :=
  negb (from_option is_space false (head s)) && single_spaced s.

(** A character kept as it is, or a word character written over a word
    character. *)
Definition kept_or_word (c' c : ascii) : Prop :=
  c' = c \/ (is_word c = true /\ is_word c' = true).


(** An offer whose title is [null]. *)
Definition offer_null_title : offer :=
  mk_dict [("product_id", PStr "9"); ("title", PNone); ("price", PStr "$5")].


(** An offer whose price is a JSON number, and one with a price in words. *)
Definition offer_number_price : offer :=
  mk_dict [("title", PStr "Apple iPhone 15"); ("price", PInt 999)].
Definition offer_free : offer :=
  mk_dict [("title", PStr "Apple iPhone 15"); ("price", PStr "free")].

(** A stand-in for [urlparse] that fails on every link. *)
Definition netloc_fails (link : str) : res str := Raise ValueError.


(** The rating of an offer, as the Highest Rated sort reads it. *)
Definition rating_of (x : offer) : pyval := dict_get x "rating" (PInt 0).

(** The offer [x] is the offer [p] with, at most, the two fields the Sorter
    and the Scorer write. *)
Definition same_fields (p x : offer) : Prop :=
  forall k : string, k <> "numeric_price"%string -> k <> "relevance_score"%string ->
    x !! k = p !! k.

(** The offer [x] is [p] as the Sorter leaves it: with its numeric price,
    and nothing else changed but, at most, the score. *)
Definition annotated (p x : offer) : Prop :=
  same_fields p x /\ x !! "numeric_price" = annotate_price p !! "numeric_price".

(** The order of two numbers by their values. *)
Definition val_le (a b : pyval) : Prop := xval_compare (xv a) (xv b) <> Gt.

(** Three offers for the sorts: two at the same price, one dearer. *)
Definition offer_p1 : offer :=
  mk_dict [("product_id", PStr "p1"); ("title", PStr "Desk lamp, black"); ("price", PStr "$20");
           ("rating", PFloat (float_of_decimal "4.5"))].
Definition offer_p2 : offer :=
  mk_dict [("product_id", PStr "p2"); ("title", PStr "Desk lamp, brass"); ("price", PStr "$45")].
Definition offer_p3 : offer :=
  mk_dict [("product_id", PStr "p3"); ("title", PStr "Desk lamp, white"); ("price", PStr "20.00");
           ("rating", PInt 5)].

(** An offer with the rating, and so the score, and the price of [offer_p1]. *)
Definition offer_p4 : offer :=
  mk_dict [("product_id", PStr "p4"); ("title", PStr "Desk lamp, ivory"); ("price", PStr "$20.00");
           ("rating", PFloat (float_of_decimal "4.5"))].

(** An offer whose rating is a string. *)
Definition offer_text_rating : offer :=
  mk_dict [("title", PStr "Desk lamp, green"); ("price", PStr "$21"); ("rating", PStr "4.5")].


(** The number [a] has the value [v]. *)
Definition same_value (v : xval) (a : pyval) : bool :=
  match xval_compare (xv a) v with Eq => true | _ => false end.

(** Strings compare with strings, and numbers with numbers. *)
Definition is_text (v : pyval) : bool :=
  match v with PStr _ => true | _ => false end.

(** Two keys that some comparison of the sort has put in order. *)
Definition compared {A} (lt : A -> A -> res bool) (a b : A) : Prop :=
  (exists r, lt a b = Ok r) \/ (exists r, lt b a = Ok r).


(** Two offers that differ in identifier and in normalized title. *)
Definition unlike (x y : offer) : Prop := shares_key x y = false.


(** A [float] that is a number: a zero or a finite value. *)
Definition is_finite (f : float) : bool :=
  match f with S754_zero _ | S754_finite _ _ _ => true | _ => false end.

(** An [int], or a [float] that is finite. *)
Definition finite_num (v : pyval) : bool :=
  match v with
  | PBool _ | PInt _ => true
  | PFloat f => is_finite f
  | _ => false
  end.


(** The identifier the Resolver sends to the product-detail provider. *)
Definition product_api_id (product_choice : offer) : pyval :=
  py_or (dict_get_none product_choice "product_id") (dict_get_none product_choice "id").

(** The name of a seller is a string, or absent. *)
Definition name_is_str (seller : offer) : Prop :=
  exists s, dict_get seller "name" (PStr "") = PStr s.

(** The test of the loop over the sellers: the name of the seller contains
    the cleaned preference, or the host of its link contains one of the
    domains of the retailer. *)
Definition seller_matches (urlparse_netloc : str -> res str) (target_domains : list str)
    (site_pref_cleaned : str) (seller : offer) : bool :=
  contains site_pref_cleaned
    (lower (try_except (as_str (dict_get seller "name" (PStr ""))) []))
  || match dict_get seller "link" (PStr "") with
     | PStr l =>
         try_except
           (d ← urlparse_netloc l;
            Ok (existsb (fun domain => contains domain (lower d)) target_domains))
           false
     | _ => false
     end.

(** An offer of another retailer with a product identifier, and sellers of
    that product. *)
Definition offer_elsewhere : offer :=
  mk_dict [("title", PStr "Apple iPhone 15 128GB"); ("price", PStr "$1,299.00");
           ("source", PStr "eBay"); ("link", PStr "https://www.ebay.com/itm/1");
           ("product_id", PStr "777")].

Definition seller_walmart : offer :=
  mk_dict [("name", PStr "Walmart"); ("link", PStr "https://www.walmart.com/ip/1")].
Definition seller_shop : offer :=
  mk_dict [("name", PStr "Shop"); ("link", PStr "https://www.target.com/p/2")].
Definition seller_target : offer :=
  mk_dict [("name", PStr "Target"); ("link", PStr "https://www.target.com/p/3")].

(** A provider that fails. *)
Definition sellers_down (product_id : pyval) : res (list offer) := Raise RequestException.


(** An offer that names its retailer by its domain. *)
Definition offer_by_domain : offer :=
  mk_dict [("title", PStr "Sony headphones"); ("price", PStr "$99.00");
           ("source", PStr "BestBuy.com")].

(* ===================================================================== *)
(** * Properties *)
(* ===================================================================== *)

(** ** Dictionaries *)

Lemma dict_lookup_insert_eq (d : dict) k v : <[k := v]> d !! k = Some v.
Proof.
  destruct d as [items]. unfold lookup, insert, dict_lookup, dict_insert. simpl.
  induction items as [|[k' v'] rest IH]; simpl.
  - by rewrite bool_decide_eq_true_2.
  - destruct (decide (k = k')) as [E|E].
    + rewrite (bool_decide_eq_true_2 _ E). simpl. by rewrite bool_decide_eq_true_2.
    + rewrite (bool_decide_eq_false_2 _ E). simpl. by rewrite (bool_decide_eq_false_2 _ E).
Qed.

Lemma dict_lookup_insert_ne (d : dict) k k' v : k <> k' -> <[k := v]> d !! k' = d !! k'.
Proof.
  intros Hk. destruct d as [items]. unfold lookup, insert, dict_lookup, dict_insert. simpl.
  induction items as [|[k0 v0] rest IH]; simpl.
  - by rewrite bool_decide_eq_false_2 by congruence.
  - destruct (decide (k = k0)) as [E|E].
    + rewrite (bool_decide_eq_true_2 _ E). simpl. subst k0.
      by rewrite !bool_decide_eq_false_2 by congruence.
    + rewrite (bool_decide_eq_false_2 _ E). simpl. by rewrite IH.
Qed.

Example clean_search_query_ex1 :
  clean_search_query "  the   MACBOOK  pro 14 and IPHONE,ipads " =
  lit "the MacBook Pro 14 and iPhone,ipads".
Proof. vm_compute. reflexivity. Qed.

Example optimize_query_ex1 :
  optimize_query_for_google_shopping "ipad  mini" "Best Buy" = lit "iPad mini new Best Buy".
Proof. vm_compute. reflexivity. Qed.

Example py_float_ex :
  map py_float_of_str (map lit ["1299.00"; " 1_0.5e1 "; ".5"; "1."; "-0"; "inf"; "-Infinity"; "NaN";
                                "1e400"; "1e-400"; "0.1"; "499.99999999999999"])
  = [Ok (S754_finite false 5713062417924096 (-42)); Ok (S754_finite false 7388718138654720 (-46));
     Ok (S754_finite false 4503599627370496 (-53)); Ok (S754_finite false 4503599627370496 (-52));
     Ok (S754_zero true); Ok inf; Ok (S754_infinity true); Ok nan;
     Ok inf; Ok (S754_zero false); Ok (S754_finite false 7205759403792794 (-56));
     Ok (S754_finite false 8796093022208000 (-44))].
Proof. vm_compute. reflexivity. Qed.

Example py_float_err :
  map py_float_of_str (map lit [""; "  "; "."; "1e"; "1__0"; "_1"; "1_"; "1_.5"; "1e_5"; "0x10";
                                "1 0"; "infinit"; "+ 1"; "1.5.2"; "1,0"; "$5"])
  = repeat (Raise ValueError) 16.
Proof. vm_compute. reflexivity. Qed.
(** ** Characters *)

Ltac by_cases_on_char c :=
  destruct c as [[] [] [] [] [] [] [] []]; vm_compute; try reflexivity; try discriminate; auto.

Lemma lower_char_idem c : lower_char (lower_char c) = lower_char c.
Proof. by_cases_on_char c. Qed.

Lemma is_word_lower_char c : is_word (lower_char c) = is_word c.
Proof. by_cases_on_char c. Qed.

Lemma is_space_lower_char c : is_space (lower_char c) = is_space c.
Proof. by_cases_on_char c. Qed.

Lemma lower_char_space c : is_space c = true -> lower_char c = c.
Proof. by_cases_on_char c. Qed.

Lemma lower_char_eq_space c d :
  lower_char c = lower_char d -> is_space c = is_space d.
Proof.
  intros H. rewrite <- (is_space_lower_char c), <- (is_space_lower_char d).
  by rewrite H.
Qed.

Lemma lower_char_eq_on_space c d :
  lower_char c = lower_char d -> is_space c = true -> c = d.
Proof.
  intros H Hc. pose proof (lower_char_eq_space _ _ H) as Hd.
  rewrite <- (lower_char_space c Hc), H. apply lower_char_space. congruence.
Qed.

Lemma lower_idem s : lower (lower s) = lower s.
Proof.
  unfold lower. rewrite map_map. apply map_ext. intros; apply lower_char_idem.
Qed.

(** ** White space *)

Lemma lstrip_head_ok s : head_ok (lstrip s).
Proof.
  induction s as [|c s IH]; simpl; [done|].
  destruct (is_space c) eqn:E; [done|]. simpl. done.
Qed.

Lemma lstrip_fix s : head_ok s -> lstrip s = s.
Proof. destruct s as [|c s]; simpl; [done|]. by intros ->. Qed.

Lemma lstrip_snoc a c : is_space c = false -> lstrip (a ++ [c]) = lstrip a ++ [c].
Proof.
  intros Hc. induction a as [|x a IH]; simpl.
  - by rewrite Hc.
  - destruct (is_space x); [done|]. done.
Qed.

Lemma rstrip_cons c s : is_space c = false -> rstrip (c :: s) = c :: rstrip s.
Proof.
  intros Hc. unfold rstrip. simpl. rewrite lstrip_snoc by done.
  by rewrite rev_app_distr.
Qed.

Lemma rstrip_head_ok s : head_ok s -> head_ok (rstrip s).
Proof.
  destruct s as [|c s]; [done|]. simpl. intros Hc. rewrite rstrip_cons; done.
Qed.

Lemma rstrip_fix s : head_ok (rev s) -> rstrip s = s.
Proof. intros H. unfold rstrip. rewrite lstrip_fix by done. apply rev_involutive. Qed.

Lemma strip_head_ok s : head_ok (strip s).
Proof. apply rstrip_head_ok, lstrip_head_ok. Qed.

Lemma strip_last_ok s : head_ok (rev (strip s)).
Proof. unfold strip, rstrip. rewrite rev_involutive. apply lstrip_head_ok. Qed.

Lemma strip_fix s : head_ok s -> head_ok (rev s) -> strip s = s.
Proof. intros H1 H2. unfold strip. rewrite lstrip_fix by done. by apply rstrip_fix. Qed.

Lemma sub_ws_from_head_ok b s : head_ok s -> head_ok (sub_ws_from b s).
Proof. destruct s as [|c s]; [done|]. simpl. intros Hc. by rewrite Hc. Qed.

Lemma sub_ws_from_true_head_ok s : head_ok (sub_ws_from true s).
Proof.
  induction s as [|c s IH]; simpl; [done|].
  destruct (is_space c) eqn:E; [done|]. simpl. done.
Qed.

Lemma sub_ws_from_head b s : head_ok s -> sub_ws_from b s = sub_ws_from false s.
Proof. destruct s as [|c s]; [done|]. simpl. by intros ->. Qed.

Lemma sub_ws_from_idem b s :
  sub_ws_from false (sub_ws_from b s) = sub_ws_from b s.
Proof.
  revert b. induction s as [|c s IH]; intros b; simpl; [done|].
  destruct (is_space c) eqn:E.
  - destruct b; [apply IH|].
    simpl. change (is_space " ") with true. f_equal.
    rewrite (sub_ws_from_head true) by apply sub_ws_from_true_head_ok.
    apply IH.
  - simpl. rewrite E. f_equal. apply IH.
Qed.

(** The last character, when it is no white space, stays the last. *)
Lemma sub_ws_from_last b s c :
  last s = Some c -> is_space c = false -> last (sub_ws_from b s) = Some c.
Proof.
  revert b. induction s as [|a s IH]; intros b Hl Hc; [done|].
  destruct s as [|a' s'].
  - simpl in Hl. injection Hl as ->. simpl. by rewrite Hc.
  - rewrite last_cons_cons in Hl.
    assert (forall b', last (sub_ws_from b' (a' :: s')) = Some c) as IH' by (intros; by apply IH).
    change (sub_ws_from b (a :: a' :: s')) with
      (if is_space a
       then (if b then sub_ws_from true (a' :: s') else " "%char :: sub_ws_from true (a' :: s'))
       else a :: sub_ws_from false (a' :: s')).
    destruct (is_space a), b; rewrite ?last_cons, ?IH'; done.
Qed.

Lemma head_rev_last (s : str) : head (rev s) = last s.
Proof.
  induction s as [|a s IH]; [done|]. simpl.
  rewrite last_cons, <- IH. by destruct (rev s).
Qed.

Lemma head_ok_head s : head_ok s <-> forall c, head s = Some c -> is_space c = false.
Proof.
  destruct s as [|a s]; simpl; split; try done.
  - intros H c [= <-]. done.
  - intros H. by apply H.
Qed.

Lemma re_sub_ws_last_ok s : head_ok (rev s) -> head_ok (rev (re_sub_ws s)).
Proof.
  rewrite !head_ok_head, !head_rev_last. intros H c Hc.
  destruct (last s) as [d|] eqn:Hd.
  - specialize (H d eq_refl).
    unfold re_sub_ws in Hc. rewrite (sub_ws_from_last false s d Hd H) in Hc. congruence.
  - apply last_None in Hd. subst s. done.
Qed.

(** ** Strings that differ in case only *)

Lemma head_ok_ci s t : lower s = lower t -> head_ok s -> head_ok t.
Proof.
  destruct s as [|c s], t as [|d t]; simpl; try done.
  intros [= H _] Hc. rewrite <- (lower_char_eq_space _ _ H). done.
Qed.

Lemma lower_rev s : lower (rev s) = rev (lower s).
Proof. unfold lower. by rewrite map_rev. Qed.

Lemma sub_ws_from_length b s : length (sub_ws_from b s) <= length s.
Proof.
  revert b. induction s as [|c s IH]; intros b; simpl; [done|].
  pose proof (IH true). pose proof (IH false).
  destruct (is_space c), b; simpl; lia.
Qed.

Lemma sub_ws_from_fix_ci b s t :
  lower s = lower t -> sub_ws_from b s = s -> sub_ws_from b t = t.
Proof.
  revert b t. induction s as [|c s IH]; intros b [|d t]; simpl; try done.
  intros [= Hcd Hst].
  rewrite <- (lower_char_eq_space _ _ Hcd).
  destruct (is_space c) eqn:E.
  - destruct b.
    + intros H. pose proof (sub_ws_from_length true s) as Hlen.
      rewrite H in Hlen. simpl in Hlen. lia.
    + intros [= Hc Hs]. rewrite <- (lower_char_eq_on_space c d Hcd E), <- Hc.
      f_equal. by apply IH.
  - intros [= Hs]. f_equal. by apply IH.
Qed.

(** ** Replacements as overlays *)

Lemma overlay_nil m : overlay m [] = [].
Proof. by destruct m. Qed.

Lemma overlay_merge m1 m2 s : overlay m2 (overlay m1 s) = overlay (merge_mask m1 m2) s.
Proof.
  revert m1 m2. induction s as [|c s IH]; intros m1 m2.
  - by rewrite !overlay_nil.
  - destruct m1 as [|a m1], m2 as [|b m2]; simpl; try done.
    rewrite IH. by destruct b.
Qed.

Lemma overlay_idem m s : overlay m (overlay m s) = overlay m s.
Proof.
  revert m. induction s as [|c s IH]; intros [|o m]; simpl; try done.
  rewrite IH. by destruct o.
Qed.

Lemma ci_prefix_length old s : ci_prefix old s = true -> length old <= length s.
Proof.
  revert s. induction old as [|p old IH]; intros [|c s]; simpl; try done; try lia.
  intros [_ H]%andb_prop. apply IH in H. lia.
Qed.

Lemma ci_prefix_take old s :
  ci_prefix old s = true -> take (length old) (lower s) = lower old.
Proof.
  revert s. induction old as [|p old IH]; intros [|c s]; simpl; try done.
  intros [H1 H2]%andb_prop. apply bool_decide_eq_true in H1.
  rewrite H1. f_equal. by apply IH.
Qed.

Lemma ci_prefix_lower old s : ci_prefix old (lower s) = ci_prefix old s.
Proof.
  revert s. induction old as [|p old IH]; intros [|c s]; simpl; try done.
  by rewrite lower_char_idem, IH.
Qed.

Lemma word_opt_lower o : word_opt (lower_char <$> o) = word_opt o.
Proof. destruct o; simpl; [apply is_word_lower_char|done]. Qed.

Lemma word_opt_head_ci s t : lower s = lower t -> word_opt (head s) = word_opt (head t).
Proof.
  intros H. rewrite <- (word_opt_lower (head s)), <- (word_opt_lower (head t)).
  destruct s, t; simplify_eq/=; congruence.
Qed.

Lemma word_opt_last_ci s t : lower s = lower t -> word_opt (last s) = word_opt (last t).
Proof.
  intros H. rewrite <- (word_opt_lower (last s)), <- (word_opt_lower (last t)).
  rewrite <- !fmap_last.
  change (word_opt (last (lower s)) = word_opt (last (lower t))). by rewrite H.
Qed.

Lemma match_here_ci old prev prev' s t :
  lower s = lower t -> word_opt prev = word_opt prev' ->
  match_here old prev s = match_here old prev' t.
Proof.
  intros H Hp. unfold match_here, boundary.
  rewrite Hp, (word_opt_head_ci s t H).
  rewrite <- (ci_prefix_lower old s), <- (ci_prefix_lower old t), H.
  rewrite (word_opt_last_ci (take (length old) s) (take (length old) t)),
          (word_opt_head_ci (drop (length old) s) (drop (length old) t)); [done| |].
  - unfold lower in *. by rewrite <- !skipn_map, H.
  - unfold lower in *. by rewrite <- !firstn_map, H.
Qed.

Lemma mask_ci old new prev prev' pend s t :
  lower s = lower t -> word_opt prev = word_opt prev' ->
  sub_mask old new prev pend s = sub_mask old new prev' pend t.
Proof.
  revert prev prev' pend t.
  induction s as [|c s IH]; intros prev prev' pend [|d t] H Hp; simplify_eq/=; [done|].
  assert (word_opt (Some c) = word_opt (Some d)) as Hcd.
  { simpl. rewrite <- (is_word_lower_char c), <- (is_word_lower_char d). congruence. }
  assert (match_here old prev (c :: s) = match_here old prev' (d :: t)) as Hm.
  { apply match_here_ci; [simpl; congruence|done]. }
  destruct pend as [|r pend].
  - rewrite Hm. destruct (match_here old prev' (d :: t)); [destruct new|];
      f_equal; by apply IH.
  - f_equal. by apply IH.
Qed.

Lemma sub_scan_overlay old new prev pend s :
  length new = length old -> old <> [] -> length pend <= length s ->
  pend ++ sub_scan old new prev (length pend) s = overlay (sub_mask old new prev pend s) s.
Proof.
  intros Hlen Hne. revert prev pend.
  induction s as [|c s IH]; intros prev pend Hp.
  - destruct pend; simpl in *; [done|lia].
  - destruct pend as [|r pend].
    + simpl. destruct (match_here old prev (c :: s)) eqn:Hm.
      * destruct new as [|r pend'].
        { destruct old; simpl in *; done. }
        simpl. f_equal.
        assert (length old - 1 = length pend') as -> by (simpl in Hlen; lia).
        apply IH.
        unfold match_here in Hm. apply andb_prop in Hm as [Hm _].
        apply andb_prop in Hm as [_ Hm]. apply ci_prefix_length in Hm.
        simpl in *. lia.
      * simpl. f_equal. apply (IH (Some c) []). simpl. lia.
    + simpl. f_equal. apply IH. simpl in Hp. lia.
Qed.

Lemma re_sub_word_ci_overlay old new s :
  case_only (old, new) ->
  re_sub_word_ci old new s = overlay (sub_mask old new None [] s) s.
Proof.
  intros [Hl Hne]. simpl in *. unfold re_sub_word_ci.
  rewrite <- sub_scan_overlay; [done| |done|simpl; lia].
  apply (f_equal length) in Hl. unfold lower in Hl. by rewrite !length_map in Hl.
Qed.

Lemma overlay_mask_lower old new prev pend s :
  lower new = lower old ->
  lower pend = take (length pend) (lower s) ->
  lower (overlay (sub_mask old new prev pend s) s) = lower s.
Proof.
  intros Hl. revert prev pend.
  induction s as [|c s IH]; intros prev pend Hp; [done|].
  destruct pend as [|r pend].
  - simpl. destruct (match_here old prev (c :: s)) eqn:Hm.
    + destruct new as [|r pend'].
      * simpl. f_equal. by apply IH.
      * unfold match_here in Hm. apply andb_prop in Hm as [Hm _].
        apply andb_prop in Hm as [_ Hm]. apply ci_prefix_take in Hm.
        rewrite <- Hl in Hm.
        assert (length old = length (r :: pend')) as Hlen.
        { apply (f_equal length) in Hl. unfold lower in Hl.
          by rewrite !length_map in Hl. }
        rewrite Hlen in Hm. simpl in Hm. injection Hm as Hr Hm.
        simpl. f_equal; [done|]. apply IH. done.
    + simpl. f_equal. by apply IH.
  - simpl in Hp. injection Hp as Hr Hp. simpl. f_equal; [done|]. by apply IH.
Qed.

Lemma apply_replacements_overlay reps s :
  Forall case_only reps ->
  exists M, forall t, lower t = lower s ->
    apply_replacements reps t = overlay M t /\ lower (overlay M t) = lower s.
Proof.
  intros Hreps. revert s. induction Hreps as [|[old new] reps Hrep _ IH]; intros s.
  - exists []. intros t Ht. split; [by destruct t|by destruct t].
  - set (m := sub_mask old new None [] s).
    assert (forall t, lower t = lower s ->
              re_sub_word_ci old new t = overlay m t /\ lower (overlay m t) = lower s) as Hm.
    { intros t Ht. rewrite re_sub_word_ci_overlay by done.
      rewrite (mask_ci old new None None [] t s Ht eq_refl). fold m. split; [done|].
      unfold m. rewrite <- (mask_ci old new None None [] t s Ht eq_refl).
      rewrite overlay_mask_lower; [done|apply Hrep|done]. }
    destruct (IH (overlay m s)) as [M HM].
    exists (merge_mask m M). intros t Ht.
    destruct (Hm t Ht) as [E1 E2]. destruct (Hm s eq_refl) as [_ E3].
    unfold apply_replacements. simpl. fold (apply_replacements reps (re_sub_word_ci old new t)).
    rewrite E1. destruct (HM (overlay m t)) as [F1 F2]; [congruence|].
    rewrite F1, overlay_merge in *. split; [done|]. congruence.
Qed.

Lemma apply_replacements_lower reps s :
  Forall case_only reps -> lower (apply_replacements reps s) = lower s.
Proof.
  intros H. destruct (apply_replacements_overlay reps s H) as [M HM].
  destruct (HM s eq_refl) as [-> E]. done.
Qed.

Lemma apply_replacements_idem reps s :
  Forall case_only reps ->
  apply_replacements reps (apply_replacements reps s) = apply_replacements reps s.
Proof.
  intros H. destruct (apply_replacements_overlay reps s H) as [M HM].
  destruct (HM s eq_refl) as [E1 E2].
  destruct (HM (apply_replacements reps s)) as [F1 _].
  { by rewrite E1. }
  rewrite F1, E1. apply overlay_idem.
Qed.

Lemma replacements_case_only : Forall case_only replacements.
Proof. repeat constructor; vm_compute; done. Qed.

(** C8. The normalisation of the Query Builder is idempotent: cleaning a
    cleaned query changes nothing, for every input string. *)
Theorem clean_search_query_idempotent (q : str) :
  clean_search_query (clean_search_query q) = clean_search_query q.
Proof.
  unfold clean_search_query.
  set (s0 := re_sub_ws (strip q)).
  set (r := apply_replacements replacements s0).
  assert (lower s0 = lower r) as Hr.
  { symmetry. apply apply_replacements_lower, replacements_case_only. }
  assert (head_ok s0) as H1.
  { apply sub_ws_from_head_ok, strip_head_ok. }
  assert (head_ok (rev s0)) as H2.
  { apply re_sub_ws_last_ok, strip_last_ok. }
  assert (strip r = r) as ->.
  { apply strip_fix.
    - by apply (head_ok_ci s0).
    - apply (head_ok_ci (rev s0)); [|done]. by rewrite !lower_rev, Hr. }
  assert (re_sub_ws r = r) as ->.
  { apply (sub_ws_from_fix_ci false s0 r Hr). apply sub_ws_from_idem. }
  apply apply_replacements_idem, replacements_case_only.
Qed.

(** ** Deduplicator *)

Lemma offer_normalized_title_ok r :
  title_is_str r -> offer_normalized_title r = Ok (title_key r).
Proof.
  intros [s Hs]. unfold title_key, offer_normalized_title. rewrite Hs. done.
Qed.

Lemma set_mem_ids y kept :
  set_mem (offer_identifier y) (map offer_identifier kept) = existsb (shares_id y) kept.
Proof. unfold set_mem. induction kept as [|x kept IH]; simpl; [done|]. by rewrite IH. Qed.

Lemma mem_titles y kept :
  bool_decide (title_key y ∈ map title_key kept) = existsb (shares_title y) kept.
Proof.
  induction kept as [|x kept IH]; simpl.
  - done.
  - rewrite <- IH. unfold shares_title.
    destruct (decide (title_key y = title_key x)) as [E|E].
    + rewrite (bool_decide_eq_true_2 _ E). simpl.
      apply bool_decide_eq_true. rewrite E. apply list_elem_of_here.
    + rewrite (bool_decide_eq_false_2 _ E). simpl.
      apply bool_decide_ext. rewrite elem_of_cons. split; [by intros [?|?]|by right].
Qed.

Lemma existsb_shares_key y kept :
  existsb (shares_key y) kept = existsb (shares_id y) kept || existsb (shares_title y) kept.
Proof.
  induction kept as [|x kept IH]; simpl; [done|]. rewrite IH. unfold shares_key.
  destruct (shares_id y x), (shares_title y x), (existsb (shares_id y) kept); done.
Qed.

Lemma remove_duplicates_loop_kept results :
  forall kept unique,
    Forall title_is_str results ->
    remove_duplicates_loop (map offer_identifier kept) (map title_key kept) unique results
    = Ok (unique ++ dedup_kept kept results).
Proof.
  induction results as [|x rest IH]; intros kept unique Hwf.
  - simpl. by rewrite app_nil_r.
  - apply Forall_cons in Hwf as [Hx Hrest]. simpl.
    rewrite (offer_normalized_title_ok x Hx). simpl.
    rewrite set_mem_ids, mem_titles, existsb_shares_key.
    destruct (existsb (shares_id x) kept), (existsb (shares_title x) kept); simpl;
      try (by apply IH).
    replace (unique ++ x :: dedup_kept (x :: kept) rest)
      with ((unique ++ [x]) ++ dedup_kept (x :: kept) rest) by (by rewrite <- app_assoc).
    by apply (IH (x :: kept)).
Qed.

Lemma remove_duplicates_kept results :
  Forall title_is_str results -> remove_duplicates results = Ok (dedup_kept [] results).
Proof. intros H. apply (remove_duplicates_loop_kept results [] [] H). Qed.

Lemma dedup_kept_sublist kept results : sublist (dedup_kept kept results) results.
Proof.
  revert kept. induction results as [|x rest IH]; intros kept; simpl; [done|].
  destruct (existsb (shares_key x) kept).
  - apply sublist_cons, IH.
  - apply sublist_skip, IH.
Qed.

Lemma dedup_kept_fresh results kept y x :
  y ∈ dedup_kept kept results -> x ∈ kept -> shares_key y x = false.
Proof.
  revert kept. induction results as [|z rest IH]; intros kept Hy Hx; simpl in Hy.
  - by apply elem_of_nil in Hy.
  - destruct (existsb (shares_key z) kept) eqn:E.
    + by apply IH with kept.
    + apply elem_of_cons in Hy as [->|Hy].
      * destruct (shares_key z x) eqn:F; [|done].
        assert (existsb (shares_key z) kept = true) as G; [|congruence].
        apply existsb_exists. exists x. split; [by apply list_elem_of_In|done].
      * apply IH with (z :: kept); [done|]. by apply elem_of_cons; right.
Qed.

Lemma dedup_kept_distinct results kept i j x y :
  (i < j)%nat ->
  dedup_kept kept results !! i = Some x -> dedup_kept kept results !! j = Some y ->
  shares_key y x = false.
Proof.
  revert kept i j. induction results as [|z rest IH]; intros kept i j Hij Hi Hj; simpl in *.
  - done.
  - destruct (existsb (shares_key z) kept).
    + by apply (IH kept i j).
    + destruct i as [|i], j as [|j]; try lia; simpl in *.
      * injection Hi as ->.
        apply (dedup_kept_fresh rest (x :: kept)); [|apply list_elem_of_here].
        by apply list_elem_of_lookup_2 in Hj.
      * apply (IH (z :: kept) i j); [lia|done|done].
Qed.

Lemma shares_key_false y x :
  shares_key y x = false ->
  py_same (offer_identifier y) (offer_identifier x) = false /\ title_key y <> title_key x.
Proof.
  unfold shares_key, shares_id, shares_title. intros [H1 H2]%orb_false_elim.
  split; [done|]. by apply bool_decide_eq_false in H2.
Qed.

(** The first offer with a given identifier and a given title is kept. *)
Lemma dedup_kept_first results kept x i :
  results !! i = Some x ->
  (forall y, y ∈ kept -> shares_key x y = false) ->
  (forall j y, (j < i)%nat -> results !! j = Some y -> shares_key x y = false) ->
  x ∈ dedup_kept kept results.
Proof.
  revert kept i. induction results as [|z rest IH]; intros kept i Hi Hk Hr; [done|].
  simpl. destruct i as [|i]; simpl in Hi.
  - injection Hi as ->.
    assert (existsb (shares_key x) kept = false) as ->.
    { apply not_true_is_false. intros (y & Hy & E)%existsb_exists.
      apply list_elem_of_In in Hy. rewrite (Hk y Hy) in E. done. }
    apply list_elem_of_here.
  - assert (x ∈ dedup_kept kept rest -> x ∈ dedup_kept (z :: kept) rest ->
            x ∈ (if existsb (shares_key z) kept then dedup_kept kept rest
                 else z :: dedup_kept (z :: kept) rest)) as Hc.
    { destruct (existsb (shares_key z) kept); [done|]. intros _ ?. by apply elem_of_cons; right. }
    apply Hc.
    + apply (IH kept i Hi Hk). intros j y Hj Hy. apply (Hr (S j) y); [lia|done].
    + apply (IH (z :: kept) i Hi).
      * intros y [Hyz|Hy]%elem_of_cons; [subst y|by apply Hk].
        apply (Hr 0%nat z); [lia|done].
      * intros j y Hj Hy. apply (Hr (S j) y); [lia|done].
Qed.

(** ** Exact comparison of numbers *)

Lemma xval_compare_antisym a b : xval_compare b a = CompOpp (xval_compare a b).
Proof.
  destruct a, b; simpl; try done. symmetry. apply Qcompare_antisym.
Qed.

Lemma num_eq_sym a b : num_eq a b = num_eq b a.
Proof.
  unfold num_eq, num_compare.
  destruct (num_val a) as [x|], (num_val b) as [y|]; try done.
  rewrite (xval_compare_antisym x y). by destruct (xval_compare x y).
Qed.

Lemma py_eq_sym a b : py_eq a b = py_eq b a.
Proof.
  unfold py_eq.
  destruct a, b; simpl; try done; try apply num_eq_sym.
  apply bool_decide_ext. split; congruence.
Qed.

Lemma py_same_sym a b : py_same a b = py_same b a.
Proof.
  unfold py_same. rewrite py_eq_sym. f_equal.
  apply bool_decide_ext. split; congruence.
Qed.

Lemma shares_key_sym x y : shares_key x y = shares_key y x.
Proof.
  unfold shares_key, shares_id, shares_title. rewrite py_same_sym. f_equal.
  apply bool_decide_ext. split; congruence.
Qed.

(** The identifier of an offer is its [product_id], else its [id], else
    its [link], else the empty string. *)
Lemma offer_identifier_lacking r : lacks_identifier r -> offer_identifier r = PStr "".
Proof.
  intros (H1 & H2 & H3). unfold offer_identifier, dict_get_none, dict_get.
  by rewrite H1, H2, H3.
Qed.

Lemma remove_duplicates_distinct results out i j x y :
  Forall title_is_str results -> remove_duplicates results = Ok out ->
  i <> j -> out !! i = Some x -> out !! j = Some y -> shares_key x y = false.
Proof.
  intros Hwf Hout Hij Hi Hj. rewrite (remove_duplicates_kept results Hwf) in Hout.
  injection Hout as <-.
  destruct (Nat.lt_total i j) as [Hlt|[?|Hlt]]; [|done|].
  - rewrite shares_key_sym. by apply (dedup_kept_distinct results [] i j).
  - by apply (dedup_kept_distinct results [] j i).
Qed.

(** C2 (as amended). For every list of offers whose titles are strings the
    Deduplicator returns a list [out] such that: an offer is kept exactly
    when no offer kept before it has its identifier or its normalized
    title; [out] is a subsequence of the input, in input order; no two
    offers of [out] share an identifier or a normalized title; and an offer
    whose identifier and title occur in no earlier offer is kept. *)
Theorem remove_duplicates_sound (results : list offer) :
  Forall title_is_str results ->
  exists out,
    remove_duplicates results = Ok out
    /\ out = dedup_kept [] results
    /\ sublist out results
    /\ (forall i j x y, i <> j -> out !! i = Some x -> out !! j = Some y ->
          py_same (offer_identifier x) (offer_identifier y) = false
          /\ title_key x <> title_key y)
    /\ (forall i x, results !! i = Some x ->
          (forall j y, (j < i)%nat -> results !! j = Some y -> shares_key x y = false) ->
          x ∈ out).
Proof.
  intros Hwf. exists (dedup_kept [] results).
  pose proof (remove_duplicates_kept results Hwf) as Hout.
  split; [done|]. split; [done|]. split; [apply dedup_kept_sublist|]. split.
  - intros i j x y Hij Hi Hj. apply shares_key_false.
    by apply (remove_duplicates_distinct results (dedup_kept [] results) i j).
  - intros i x Hi Hfirst. apply (dedup_kept_first results [] x i Hi); [|done].
    intros y Hy. by apply elem_of_nil in Hy.
Qed.

Lemma three_offers_titles : Forall title_is_str [offer_A; offer_B; offer_C].
Proof. repeat constructor; eexists; vm_compute; reflexivity. Qed.

Lemma remove_duplicates_sound_witness :
  exists out,
    remove_duplicates [offer_A; offer_B; offer_C] = Ok out
    /\ out = dedup_kept [] [offer_A; offer_B; offer_C]
    /\ sublist out [offer_A; offer_B; offer_C]
    /\ (forall i j x y, i <> j -> out !! i = Some x -> out !! j = Some y ->
          py_same (offer_identifier x) (offer_identifier y) = false
          /\ title_key x <> title_key y)
    /\ (forall i x, [offer_A; offer_B; offer_C] !! i = Some x ->
          (forall j y, (j < i)%nat -> [offer_A; offer_B; offer_C] !! j = Some y ->
                       shares_key x y = false) ->
          x ∈ out).
Proof. apply (remove_duplicates_sound [offer_A; offer_B; offer_C]), three_offers_titles. Defined.

(** C2 as worded fails: the third offer repeats the identifier
    of the second one, a later duplicate, and is kept all the same, because
    the second one was dropped for its title. *)
Lemma remove_duplicates_keeps_later_duplicate :
  remove_duplicates [offer_A; offer_B; offer_C] = Ok [offer_A; offer_C]
  /\ dedup_first_occurrence [] [offer_A; offer_B; offer_C] = [offer_A]
  /\ shares_id offer_C offer_B = true
  /\ remove_duplicates [offer_A; offer_B; offer_C]
     <> Ok (dedup_first_occurrence [] [offer_A; offer_B; offer_C]).
Proof.
  assert (remove_duplicates [offer_A; offer_B; offer_C] = Ok [offer_A; offer_C]) as E1
    by (vm_compute; reflexivity).
  assert (dedup_first_occurrence [] [offer_A; offer_B; offer_C] = [offer_A]) as E2
    by (vm_compute; reflexivity).
  split; [done|]. split; [done|]. split; [vm_compute; reflexivity|].
  rewrite E1, E2. intros [=].
Qed.

(** C9. An offer with none of [product_id], [id] and [link] has the empty
    string as its identifier, and of such offers at most one survives the
    Deduplicator: two places of the output never both hold one, whatever
    their titles. *)
Theorem remove_duplicates_one_without_identifier (results out : list offer) :
  Forall title_is_str results ->
  remove_duplicates results = Ok out ->
  (forall r, lacks_identifier r -> offer_identifier r = PStr "")
  /\ (forall i j x y, out !! i = Some x -> out !! j = Some y ->
        lacks_identifier x -> lacks_identifier y -> i = j).
Proof.
  intros Hwf Hout. split; [apply offer_identifier_lacking|].
  intros i j x y Hi Hj Hx Hy.
  destruct (decide (i = j)) as [|Hij]; [done|exfalso].
  pose proof (remove_duplicates_distinct results out i j x y Hwf Hout Hij Hi Hj) as H.
  apply shares_key_false in H as [H _].
  rewrite (offer_identifier_lacking x Hx), (offer_identifier_lacking y Hy) in H.
  done.
Qed.

Lemma remove_duplicates_one_without_identifier_witness :
  remove_duplicates [offer_D; offer_A; offer_E] = Ok [offer_D; offer_A]
  /\ title_key offer_E <> title_key offer_D
  /\ (forall r, lacks_identifier r -> offer_identifier r = PStr "")
  /\ (forall i j x y, [offer_D; offer_A] !! i = Some x -> [offer_D; offer_A] !! j = Some y ->
        lacks_identifier x -> lacks_identifier y -> i = j).
Proof.
  split; [vm_compute; reflexivity|]. split; [vm_compute; discriminate|].
  apply (remove_duplicates_one_without_identifier [offer_D; offer_A; offer_E]).
  - repeat constructor; eexists; vm_compute; reflexivity.
  - vm_compute; reflexivity.
Defined.

(** ** Price bands *)

Lemma Qcompare_not_Gt p q : Qcompare p q <> Gt <-> (p <= q)%Q.
Proof. symmetry. apply Qle_alt. Qed.

Lemma in_band_spec lo hi price :
  in_band lo hi price = true <->
  exists q, float_val price = Some (XFin q) /\ (inject_Z lo <= q)%Q /\ (q <= inject_Z hi)%Q.
Proof.
  unfold in_band, num_le, num_compare. simpl.
  destruct (float_val price) as [[|q|]|]; simpl.
  - split; [done|]. intros (q & [=] & _).
  - rewrite andb_true_iff. split.
    + intros [H1 H2]. exists q. split; [done|]. rewrite <- !Qcompare_not_Gt.
      split; [by destruct (inject_Z lo ?= q)%Q|by destruct (q ?= inject_Z hi)%Q].
    + intros (q' & [= <-] & H1 & H2). apply Qcompare_not_Gt in H1, H2.
      split; [by destruct (inject_Z lo ?= q)%Q|by destruct (q ?= inject_Z hi)%Q].
  - split; [done|]. intros (q & [=] & _).
  - split; [done|]. intros (q & [=] & _).
Qed.

Lemma price_ranges_loop_first ranges price item_lower :
  price_ranges_loop ranges price item_lower =
  match list_find (fun r => contains (fst r) item_lower = true) ranges with
  | Some (_, (_, (lo, hi))) => in_band lo hi price
  | None => in_band 1 10000 price
  end.
Proof.
  induction ranges as [|[category [lo hi]] rest IH]; simpl; [done|].
  destruct (decide (contains category item_lower = true)) as [E|E].
  - by rewrite E.
  - apply not_true_is_false in E. rewrite E, IH.
    by destruct (list_find _ rest) as [[? [? [? ?]]]|].
Qed.


(** C10. The price-band filter checks the price against the band of the
    first category, in the order macbook, iphone, ipad, laptop, tv, tablet,
    whose name occurs in the lower-cased item name, and against 1..10000
    when none occurs; a price is in a band when its exact value lies
    between the two endpoints, both included. So an item naming both a
    macbook and a tablet is held to 500..5000. *)
Theorem is_price_reasonable_first_category (price : float) (item : str) :
  price_ranges =
    [ (lit "macbook", (500, 5000)%Z); (lit "iphone", (200, 2000)%Z);
      (lit "ipad", (200, 2000)%Z); (lit "laptop", (300, 5000)%Z);
      (lit "tv", (150, 5000)%Z); (lit "tablet", (100, 2000)%Z) ]
  /\ is_price_reasonable price item =
       match list_find (fun r => contains (fst r) (lower item) = true) price_ranges with
       | Some (_, (_, (lo, hi))) => in_band lo hi price
       | None => in_band 1 10000 price
       end
  /\ (forall lo hi, in_band lo hi price = true <->
        exists q, float_val price = Some (XFin q)
                  /\ (inject_Z lo <= q)%Q /\ (q <= inject_Z hi)%Q)
  /\ (contains "macbook" (lower item) = true ->
      is_price_reasonable price item = in_band 500 5000 price)
  /\ ((forall r, r ∈ price_ranges -> contains (fst r) (lower item) = false) ->
      is_price_reasonable price item = in_band 1 10000 price).
Proof.
  split; [done|]. split; [apply price_ranges_loop_first|].
  split; [intros; apply in_band_spec|]. split.
  - intros H. unfold is_price_reasonable, price_ranges. cbn [price_ranges_loop].
    by rewrite H.
  - intros H. unfold is_price_reasonable. rewrite price_ranges_loop_first.
    destruct (list_find _ price_ranges) as [[i [c [lo hi]]]|] eqn:E; [|done].
    apply list_find_Some in E as (Hi & Hc & _).
    apply list_elem_of_lookup_2 in Hi. rewrite (H _ Hi) in Hc. done.
Qed.

Example is_price_reasonable_macbook_tablet :
  let item := lit "MacBook tablet stand-in" in
  map (fun p => is_price_reasonable (float_of_Z p) item) [499; 500; 1999; 2001; 5000; 5001]%Z
  = [false; true; true; true; true; false]
  /\ map (fun p => is_price_reasonable (float_of_Z p) "pen") [0; 1; 10000; 10001]%Z
     = [false; true; true; false].
Proof. vm_compute. done. Qed.

Lemma is_price_reasonable_first_category_witness :
  contains "macbook" (lower "MacBook tablet") = true
  /\ is_price_reasonable (float_of_Z 300) "MacBook tablet" = in_band 500 5000 (float_of_Z 300)
  /\ in_band 500 5000 (float_of_Z 300) = false
  /\ in_band 100 2000 (float_of_Z 300) = true.
Proof.
  split; [vm_compute; reflexivity|]. split.
  - apply (is_price_reasonable_first_category (float_of_Z 300) "MacBook tablet").
    vm_compute; reflexivity.
  - split; vm_compute; reflexivity.
Defined.

(** ** Filter Chain *)

Lemma is_price_reasonable_value price item :
  is_price_reasonable price item = true -> exists q, float_val price = Some (XFin q).
Proof.
  unfold is_price_reasonable. rewrite price_ranges_loop_first.
  destruct (list_find _ price_ranges) as [[i [c [lo hi]]]|];
    intros (q & Hq & _)%in_band_spec; by exists q.
Qed.

Lemma not_le_zero_positive price v :
  float_val price = Some v ->
  num_le (NFloat price) (NInt 0) = false -> num_lt (NInt 0) (NFloat price) = true.
Proof.
  unfold num_le, num_lt, num_compare. cbn [num_val]. intros ->.
  rewrite (xval_compare_antisym v (XFin (inject_Z 0))).
  by destruct (xval_compare v (XFin (inject_Z 0))).
Qed.

Lemma existsb_false_forall {A} (f : A -> bool) (l : list A) x :
  existsb f l = false -> x ∈ l -> f x = false.
Proof.
  intros H Hx. apply not_true_is_false. intros Hf.
  assert (existsb f l = true) as E; [|congruence].
  apply existsb_exists. exists x. split; [by apply list_elem_of_In|done].
Qed.

Section FilterChain.

Variable SITE_DOMAINS : str -> option (list str).
Variable urlparse_netloc : str -> res str.

(** C3. Every offer that passes the Filter Chain has a non-empty string as
    title, a price string that parses, once its dollar signs and commas are
    removed, to a number strictly above 0, and no accessory keyword in its
    lower-cased title that is not in the lower-cased item name too. *)
Theorem should_include_product_sound (product : offer) (item site_pref : str) :
  should_include_product SITE_DOMAINS urlparse_netloc product item site_pref = Ok true ->
  exists title price_str numeric_price,
    dict_get product "title" (PStr "") = PStr title
    /\ title <> []
    /\ dict_get product "price" (PStr "") = PStr price_str
    /\ py_float_of_str (remove_char "," (remove_char "$" price_str)) = Ok numeric_price
    /\ num_lt (NInt 0) (NFloat numeric_price) = true
    /\ (forall keyword, keyword ∈ accessory_keywords ->
          contains keyword (lower title) = true -> contains keyword (lower item) = true).
Proof.
  unfold should_include_product. intros H.
  destruct (dict_get product "title" (PStr "")) as [| | | |t] eqn:Ht; try done.
  simpl in H.
  destruct (bool_decide (lower t = [])) eqn:Hempty; [done|].
  apply bool_decide_eq_false in Hempty. simpl in H.
  change (dict_get product "price" (PStr [])) with (dict_get product "price" (PStr "")) in H.
  destruct (truthy (dict_get product "price" (PStr ""))) eqn:Htruthy; [|done].
  simpl in H.
  change (dict_get product "price" (PStr [])) with (dict_get product "price" (PStr "")) in H.
  destruct (dict_get product "price" (PStr "")) as [| | | |price_str] eqn:Hp; try done.
  unfold parse_price in H. simpl in H.
  destruct (py_float_of_str (remove_char "," (remove_char "$" price_str)))
    as [numeric_price|] eqn:Hparse; [|done].
  simpl in H.
  destruct (num_le (NFloat numeric_price) (NInt 0)) eqn:Hpos; [done|].
  destruct (is_semantically_relevant (lower t) item); [|done]. simpl in H.
  destruct (is_accessory_or_irrelevant (lower t) item) eqn:Hacc; [done|].
  destruct (is_used_or_refurbished product (lower t)); [done|].
  destruct (is_from_correct_site SITE_DOMAINS urlparse_netloc product site_pref)
    as [[|]|]; try done.
  simpl in H.
  destruct (is_price_reasonable numeric_price item) eqn:Hband; [|done].
  exists t, price_str, numeric_price.
  split; [done|]. split; [by intros ->|]. split; [done|]. split; [done|]. split.
  - destruct (is_price_reasonable_value _ _ Hband) as [q Hq].
    by apply (not_le_zero_positive numeric_price (XFin q)).
  - intros keyword Hk Hin.
    pose proof (existsb_false_forall _ _ keyword Hacc Hk) as Hf. simpl in Hf.
    rewrite Hin in Hf. simpl in Hf. by apply negb_false_iff in Hf.
Qed.

End FilterChain.

Example should_include_product_examples :
  map (fun '(title, price, item) =>
         should_include_product site_domains_example netloc_example
           (mk_dict [("title", PStr title); ("price", PStr price)]) item "Any")
      [ (lit "Apple MacBook Pro 14-inch M3 case", lit "$1,999.00", lit "macbook pro");
        (lit "Apple MacBook Pro 14-inch M3", lit "$1,999.00", lit "macbook pro");
        (lit "Laptop Case 15 inch", lit "25", lit "laptop case");
        (lit "Apple iPhone 15", lit "$1,299.00", lit "iphone");
        (lit "Apple iPhone 15", lit "$2,299.00", lit "iphone");
        (lit "Apple iPhone 15", lit "free", lit "iphone");
        (lit "Apple iPhone 15", lit "nan", lit "iphone");
        (lit "Apple iPhone 15 (Renewed)", lit "$499", lit "iphone");
        (lit "Samsung Galaxy", lit "$499", lit "iphone") ]
  = [Ok false; Ok true; Ok false; Ok true; Ok false; Ok false; Ok false; Ok false; Ok false].
Proof. vm_compute. reflexivity. Qed.

Lemma should_include_product_sound_witness :
  exists title price_str numeric_price,
    dict_get offer_iphone "title" (PStr "") = PStr title
    /\ title <> []
    /\ dict_get offer_iphone "price" (PStr "") = PStr price_str
    /\ py_float_of_str (remove_char "," (remove_char "$" price_str)) = Ok numeric_price
    /\ num_lt (NInt 0) (NFloat numeric_price) = true
    /\ (forall keyword, keyword ∈ accessory_keywords ->
          contains keyword (lower title) = true -> contains keyword (lower "iphone") = true).
Proof.
  apply (should_include_product_sound site_domains_example netloc_example
           offer_iphone "iphone" "Amazon").
  vm_compute. reflexivity.
Defined.

(** ** Sorter: the fallback of the Highest Rated policy *)

Lemma annotate_price_rating p : has_key (annotate_price p) "rating" = has_key p "rating".
Proof.
  unfold has_key, annotate_price, dict_set. by rewrite dict_lookup_insert_ne.
Qed.

Lemma no_rating_annotated l :
  Forall (fun p : offer => p !! "rating" = None) l ->
  existsb (fun p => has_key p "rating") (map annotate_price l) = false.
Proof.
  induction 1 as [|p l Hp _ IH]; simpl; [done|].
  rewrite annotate_price_rating, IH. unfold has_key. rewrite Hp. done.
Qed.

(** C6. On a list in which no offer has a [rating] field, sorting by
    Highest Rated gives what sorting by Balanced, or by any policy name
    other than Cheapest, gives: the same list, or the same exception. *)
Theorem sort_results_highest_rated_fallback (l : list offer) (item sort_pref : str) :
  Forall (fun p : offer => p !! "rating" = None) l ->
  sort_pref <> lit "Cheapest" -> sort_pref <> lit "Highest Rated" ->
  sort_results l "Highest Rated" item = sort_results l sort_pref item
  /\ sort_results l "Highest Rated" item = sort_results l "Balanced" item.
Proof.
  intros Hl H1 H2.
  assert (forall pref, pref <> lit "Cheapest" -> pref <> lit "Highest Rated" ->
            sort_results l "Highest Rated" item = sort_results l pref item) as H.
  { intros pref P1 P2. unfold sort_results.
    rewrite (no_rating_annotated l Hl), andb_false_r.
    rewrite (bool_decide_eq_false_2 _ P1), (bool_decide_eq_false_2 _ P2). done. }
  split; [by apply H|]. apply H; vm_compute; discriminate.
Qed.

Lemma sort_results_highest_rated_fallback_witness :
  sort_results [offer_A; offer_C] "Highest Rated" "phone"
  = sort_results [offer_A; offer_C] "Default" "phone"
  /\ sort_results [offer_A; offer_C] "Highest Rated" "phone"
     = sort_results [offer_A; offer_C] "Balanced" "phone".
Proof.
  apply (sort_results_highest_rated_fallback [offer_A; offer_C] "phone" "Default").
  - repeat constructor.
  - vm_compute; discriminate.
  - vm_compute; discriminate.
Defined.

Example sort_results_fallback_returns :
  exists x y, sort_results [offer_A; offer_C] "Highest Rated" "phone y" = Ok [x; y]
              /\ x !! "title" = Some (PStr "Phone Y") /\ y !! "title" = Some (PStr "Phone X").
Proof. eexists _, _. split; [vm_compute; reflexivity|]. split; vm_compute; reflexivity. Qed.

(** ** Direct-Link Resolver *)

Section Resolver.

Variable SITE_DOMAINS : str -> option (list str).
Variable urlparse_netloc : str -> res str.
Variable serpapi_sellers : pyval -> res (list offer).

Lemma is_from_correct_site_returns product site_pref :
  source_is_str product ->
  exists b, is_from_correct_site SITE_DOMAINS urlparse_netloc product site_pref = Ok b.
Proof.
  intros [s Hs]. unfold is_from_correct_site.
  destruct (bool_decide (lower site_pref = lit "any")); [by eexists|].
  rewrite Hs. simpl.
  destruct (contains _ _); by eexists.
Qed.

Lemma is_from_correct_site_raise product site_pref :
  lower site_pref <> lit "any" -> ~ source_is_str product ->
  is_from_correct_site SITE_DOMAINS urlparse_netloc product site_pref = Raise AttributeError.
Proof.
  intros Hany Hsrc. unfold is_from_correct_site, source_is_str in *.
  rewrite (bool_decide_eq_false_2 _ Hany).
  destruct (dict_get product "source" (PStr "")) as [| | | |s]; try done.
  destruct Hsrc. by exists s.
Qed.


End Resolver.



Example get_enhanced_direct_link_sellers :
  let sellers :=
    sellers_example
      [ mk_dict [("name", PStr "Walmart"); ("link", PStr "https://www.walmart.com/ip/1")];
        mk_dict [("name", PStr "Shop"); ("link", PStr "https://www.target.com/p/2")];
        mk_dict [("name", PStr "Best Buy"); ("link", PStr "https://www.bestbuy.com/3")] ] in
  map (get_enhanced_direct_link site_domains_example netloc_example sellers offer_iphone)
      (map lit ["Amazon"; "Target"; "Best Buy"; "Costco"])
  = [ Ok (PStr "https://www.amazon.com/dp/xyz"); Ok (PStr "https://www.target.com/p/2");
      Ok (PStr "https://www.bestbuy.com/3"); Ok (PStr "https://www.walmart.com/ip/1") ]
  /\ get_enhanced_direct_link site_domains_example netloc_example
       (fun _ => Raise RequestException) offer_iphone "Target"
     = Ok (PStr "https://www.amazon.com/dp/xyz").
Proof. vm_compute. done. Qed.

(** ** Relevance Scorer *)

Lemma py_add_int a b : py_add (PInt a) (PInt b) = Ok (PInt (a + b)).
Proof. done. Qed.

Lemma py_sub_int a b : py_sub (PInt a) (PInt b) = Ok (PInt (a - b)).
Proof. done. Qed.

(** The score, with the integer part of the sum in closed form. *)
Lemma relevance_score_unfold (product : offer) (item t : str) :
  dict_get product "title" (PStr "") = PStr t ->
  let title := lower t in
  let overlap :=
    length (filter (fun w => w ∈ findall_words title)
                   (remove_dups (findall_words (lower item)))) in
  let base :=
    (Z.of_nat overlap * 100 + (if contains (lower item) title then 1000 else 0))%Z in
  let rating := dict_get product "rating" (PInt 0) in
  let reviews := dict_get product "reviews" (PInt 0) in
  relevance_score product item =
    if is_int_or_float rating && is_int reviews then
      bonus ← py_mul rating (PInt 20);
      score ← py_add (PInt base) bonus;
      q ← py_truediv reviews (PInt 4);
      m ← py_min q (PInt 150);
      score ← py_add score m;
      if (100 <? length title)%nat then py_sub score (PInt 25) else Ok score
    else Ok (PInt (base - (if (100 <? length title)%nat then 25 else 0))).
Proof.
  intros Ht title overlap base rating reviews.
  unfold relevance_score. rewrite Ht. cbn [as_str mbind res_bind].
  fold title. fold overlap. rewrite py_add_int.
  cbn [mbind res_bind].
  assert ((if contains (lower item) title
           then py_add (PInt (0 + Z.of_nat overlap * 100)) (PInt 1000)
           else Ok (PInt (0 + Z.of_nat overlap * 100))) = Ok (PInt base)) as ->.
  { unfold base. destruct (contains (lower item) title);
      [rewrite py_add_int|]; do 2 f_equal; lia. }
  cbn [mbind res_bind]. fold rating. fold reviews.
  destruct (is_int_or_float rating && is_int reviews).
  { destruct (py_mul rating (PInt 20)) as [bonus|]; [|done]. cbn [mbind res_bind].
    destruct (py_add (PInt base) bonus) as [s|]; [|done]. cbn [mbind res_bind].
    destruct (py_truediv reviews (PInt 4)) as [q|]; [|done]. cbn [mbind res_bind].
    destruct (py_min q (PInt 150)) as [m|]; [|done]. done. }
  cbn [mbind res_bind].
  destruct (100 <? length title)%nat; [rewrite py_sub_int|]; do 2 f_equal; lia.
Qed.

(** C4 (as amended). The score is 100 for every distinct word of the item
    that is a word of the title, plus 1000 when the lower-cased item is a
    substring of the lower-cased title; when the rating is a number AND the
    review count is an integer, rating * 20 and then min(reviews / 4, 150)
    are added, and neither is added otherwise; 25 is subtracted at the end
    when the title has more than 100 characters. *)
Theorem relevance_score_formula (product : offer) (item t : str) :
  dict_get product "title" (PStr "") = PStr t ->
  let title := lower t in
  let overlap :=
    length (filter (fun w => w ∈ findall_words title)
                   (remove_dups (findall_words (lower item)))) in
  let base :=
    (Z.of_nat overlap * 100 + (if contains (lower item) title then 1000 else 0))%Z in
  let rating := dict_get product "rating" (PInt 0) in
  let reviews := dict_get product "reviews" (PInt 0) in
  relevance_score product item =
    if is_int_or_float rating && is_int reviews then
      bonus ← py_mul rating (PInt 20);
      score ← py_add (PInt base) bonus;
      q ← py_truediv reviews (PInt 4);
      m ← py_min q (PInt 150);
      score ← py_add score m;
      if (100 <? length title)%nat then py_sub score (PInt 25) else Ok score
    else Ok (PInt (base - (if (100 <? length title)%nat then 25 else 0))).
Proof. apply relevance_score_unfold. Qed.

Lemma relevance_score_formula_witness :
  relevance_score offer_iphone "iphone" = Ok (PFloat (float_of_decimal "1340"))
  /\ relevance_score offer_rated "iphone" = Ok (PInt 1100).
Proof.
  split.
  - rewrite (relevance_score_formula offer_iphone "iphone" "Apple iPhone 15 128GB");
      vm_compute; reflexivity.
  - rewrite (relevance_score_formula offer_rated "iphone" "Apple iPhone 15");
      vm_compute; reflexivity.
Defined.

(** C4 as worded fails: an offer with a rating of 4.5 and a
    review count that is no integer gets no rating bonus, where the
    specification promises 4.5 * 20 = 90. *)
Lemma relevance_score_bonus_needs_both :
  is_int_or_float (dict_get offer_rated "rating" (PInt 0)) = true
  /\ is_int (dict_get offer_rated "reviews" (PInt 0)) = false
  /\ relevance_score offer_rated "iphone" = Ok (PInt 1100)
  /\ relevance_score_claimed offer_rated "iphone" = Ok (PFloat (float_of_decimal "1190"))
  /\ relevance_score offer_rated "iphone" <> relevance_score_claimed offer_rated "iphone".
Proof.
  assert (relevance_score offer_rated "iphone" = Ok (PInt 1100)) as E1
    by (vm_compute; reflexivity).
  assert (relevance_score_claimed offer_rated "iphone"
          = Ok (PFloat (float_of_decimal "1190"))) as E2 by (vm_compute; reflexivity).
  split; [vm_compute; reflexivity|]. split; [vm_compute; reflexivity|].
  split; [done|]. split; [done|]. rewrite E1, E2. discriminate.
Qed.

(** ** The order of exact values *)

Lemma xval_compare_refl a : xval_compare a a = Eq.
Proof. destruct a; simpl; try done. by apply Qeq_alt. Qed.

Lemma xval_compare_Eq_l a b c :
  xval_compare a b = Eq -> xval_compare a c = xval_compare b c.
Proof.
  destruct a as [|p|], b as [|q|], c as [|r|]; simpl; try done.
  intros H%Qeq_alt. by rewrite H.
Qed.

Lemma xval_compare_Eq_r a b c :
  xval_compare b c = Eq -> xval_compare a b = xval_compare a c.
Proof.
  destruct a as [|p|], b as [|q|], c as [|r|]; simpl; try done.
  intros H%Qeq_alt. by rewrite H.
Qed.

Lemma xval_compare_Lt_trans a b c :
  xval_compare a b = Lt -> xval_compare b c = Lt -> xval_compare a c = Lt.
Proof.
  destruct a as [|p|], b as [|q|], c as [|r|]; simpl; try done.
  rewrite <- !Qlt_alt. apply Qlt_trans.
Qed.

Lemma xval_compare_le_trans a b c :
  xval_compare a b <> Gt -> xval_compare b c <> Gt -> xval_compare a c <> Gt.
Proof.
  intros H1 H2.
  destruct (xval_compare a b) eqn:E1; [| |done].
  - by rewrite (xval_compare_Eq_l a b c E1).
  - destruct (xval_compare b c) eqn:E2; [| |done].
    + rewrite <- (xval_compare_Eq_r a b c E2), E1. done.
    + by rewrite (xval_compare_Lt_trans a b c E1 E2).
Qed.

Lemma key_cmp_antisym k1 k2 : key_cmp k2 k1 = CompOpp (key_cmp k1 k2).
Proof.
  unfold key_cmp.
  rewrite (xval_compare_antisym (xv k1.1) (xv k2.1)),
          (xval_compare_antisym (xv k1.2) (xv k2.2)).
  by destruct (xval_compare (xv k1.1) (xv k2.1)).
Qed.

Lemma key_le_trans k1 k2 k3 : key_le k1 k2 -> key_le k2 k3 -> key_le k1 k3.
Proof.
  unfold key_le, key_cmp. intros H1 H2.
  destruct (xval_compare (xv k1.1) (xv k2.1)) eqn:E1; [| |done].
  - rewrite (xval_compare_Eq_l _ _ (xv k3.1) E1).
    destruct (xval_compare (xv k2.1) (xv k3.1)) eqn:E2; [|done|done].
    by apply (xval_compare_le_trans _ (xv k2.2)).
  - destruct (xval_compare (xv k2.1) (xv k3.1)) eqn:E2; [| |done].
    + rewrite <- (xval_compare_Eq_r _ _ _ E2), E1. done.
    + by rewrite (xval_compare_Lt_trans _ _ _ E1 E2).
Qed.

(** Comparisons of numbers that have a value. *)
Lemma has_value_compare a b :
  has_value a -> has_value b ->
  exists m n, as_num a = Some m /\ as_num b = Some n
              /\ num_compare m n = Some (xval_compare (xv a) (xv b)).
Proof.
  intros (m & x & Hm & Hx) (n & y & Hn & Hy). exists m, n.
  unfold xv, num_compare. rewrite Hm, Hn. simpl. rewrite Hx, Hy. done.
Qed.

Lemma py_eq_valued a b :
  has_value a -> has_value b ->
  py_eq a b = bool_decide (xval_compare (xv a) (xv b) = Eq).
Proof.
  intros Ha Hb. destruct (has_value_compare a b Ha Hb) as (m & n & Hm & Hn & Hc).
  unfold py_eq, num_eq. rewrite Hm, Hn, Hc.
  by destruct (xval_compare (xv a) (xv b)).
Qed.

Lemma py_lt_valued a b :
  has_value a -> has_value b ->
  py_lt a b = Ok (bool_decide (xval_compare (xv a) (xv b) = Lt)).
Proof.
  intros Ha Hb. destruct (has_value_compare a b Ha Hb) as (m & n & Hm & Hn & Hc).
  unfold py_lt, num_lt. rewrite Hm, Hn, Hc.
  by destruct (xval_compare (xv a) (xv b)).
Qed.

Lemma tuple_lt_valued k1 k2 :
  key_valued k1 -> key_valued k2 ->
  tuple_lt k1 k2 = Ok (bool_decide (key_cmp k1 k2 = Lt)).
Proof.
  intros [Ha1 Hb1] [Ha2 Hb2]. unfold tuple_lt, key_cmp.
  rewrite (py_eq_valued _ _ Ha1 Ha2), (py_eq_valued _ _ Hb1 Hb2).
  rewrite (py_lt_valued _ _ Ha1 Ha2), (py_lt_valued _ _ Hb1 Hb2).
  destruct (xval_compare (xv k1.1) (xv k2.1)); simpl; try done.
  by destruct (xval_compare (xv k1.2) (xv k2.2)).
Qed.

(** ** Insertion sort *)

Section SortWith.

Context {A : Type} (lt : A -> A -> res bool) (P : A -> Prop) (le : A -> A -> Prop).

Hypothesis lt_total :
  forall a b, P a -> P b -> exists r, lt a b = Ok r /\ if r : bool then le a b else le b a.
Hypothesis le_trans : forall a b c, le a b -> le b c -> le a c.

Lemma insert_sorted_perm x l out :
  insert_sorted lt x l = Ok out -> Permutation out (x :: l).
Proof using Type.
  revert out. induction l as [|y l IH]; intros out; simpl.
  - by intros [= <-].
  - destruct (lt y x) as [[|]|]; simpl; try done.
    + destruct (insert_sorted lt x l) as [r|]; simpl; [|done].
      intros [= <-]. rewrite (IH r eq_refl). apply perm_swap.
    + by intros [= <-].
Qed.

Lemma sort_with_perm l out : sort_with lt l = Ok out -> Permutation out l.
Proof using Type.
  revert out. induction l as [|x l IH]; intros out; simpl.
  - by intros [= <-].
  - destruct (sort_with lt l) as [s|]; simpl; [|done].
    intros H%insert_sorted_perm. rewrite H. by constructor; apply IH.
Qed.

Lemma insert_sorted_sorted x l :
  P x -> Forall P l -> StronglySorted le l ->
  exists out, insert_sorted lt x l = Ok out /\ StronglySorted le out.
Proof using lt_total le_trans.
  intros Hx Hl Hs. induction l as [|y l IH]; simpl.
  - eexists. split; [done|]. repeat constructor.
  - apply Forall_cons in Hl as [Hy Hl]. apply StronglySorted_inv in Hs as [Hs Hyl].
    destruct (lt_total y x Hy Hx) as (r & -> & Hr). simpl. destruct r.
    + destruct (IH Hl Hs) as (out & Hout & Hsorted). rewrite Hout. simpl.
      eexists. split; [done|]. constructor; [done|].
      apply insert_sorted_perm in Hout. rewrite Hout. by constructor.
    + eexists. split; [done|]. constructor; [by constructor|].
      constructor; [done|].
      eapply Forall_impl; [exact Hyl|]. intros z Hz. by apply (le_trans x y z).
Qed.

Lemma sort_with_sorted l :
  Forall P l -> exists out, sort_with lt l = Ok out /\ StronglySorted le out.
Proof using lt_total le_trans.
  induction l as [|x l IH]; intros Hl; simpl.
  - eexists. split; [done|]. constructor.
  - apply Forall_cons in Hl as [Hx Hl].
    destruct (IH Hl) as (s & Hs & Hsorted). rewrite Hs. simpl.
    apply insert_sorted_sorted; [done| |done].
    apply sort_with_perm in Hs. by rewrite Hs.
Qed.

End SortWith.

Lemma StronglySorted_lookup {A} (le : A -> A -> Prop) (l : list A) i j x y :
  StronglySorted le l -> (i < j)%nat -> l !! i = Some x -> l !! j = Some y -> le x y.
Proof.
  intros Hs. revert i j. induction Hs as [|a l Hs IH Ha]; intros i j Hij Hi Hj; [done|].
  destruct i as [|i], j as [|j]; try lia; simpl in *.
  - injection Hi as <-. apply list_elem_of_lookup_2 in Hj.
    rewrite Forall_forall in Ha. by apply Ha.
  - apply (IH i j); [lia|done|done].
Qed.

Lemma mapM_res_Forall2 {A B} (f : A -> res B) (l : list A) (out : list B) :
  mapM_res f l = Ok out -> Forall2 (fun x y => f x = Ok y) l out.
Proof.
  revert out. induction l as [|x l IH]; intros out; simpl.
  - intros [= <-]. constructor.
  - destruct (f x) as [y|] eqn:E; simpl; [|done].
    destruct (mapM_res f l) as [ys|]; simpl; [|done].
    intros [= <-]. constructor; [done|]. by apply IH.
Qed.

(** ** Negation reverses the order *)

Lemma float_val_fopp f : float_val (fopp f) = xneg <$> float_val f.
Proof.
  destruct f as [s|s| |s m e]; simpl; try done.
  - by destruct s.
  - do 2 f_equal. unfold q_of_finite, Qopp. simpl.
    destruct e as [|p|p], s; simpl; try done.
    + f_equal. by rewrite <- Pos2Z.opp_pos, Z.mul_opp_l, Z.opp_involutive.
    + f_equal. by rewrite <- Pos2Z.opp_pos, Z.mul_opp_l.
Qed.

Lemma num_val_neg n : num_val (num_neg n) = xneg <$> num_val n.
Proof. destruct n as [z|f]; simpl; [done|apply float_val_fopp]. Qed.

Lemma xval_compare_xneg a b : xval_compare (xneg a) (xneg b) = xval_compare b a.
Proof.
  destruct a as [|p|], b as [|q|]; simpl; try done.
  destruct (Qcompare_spec q p) as [H|H|H].
  - apply Qeq_alt. by rewrite H.
  - apply Qlt_alt. by apply Qopp_lt_compat.
  - apply Qgt_alt. by apply Qopp_lt_compat.
Qed.

Lemma py_neg_valued v :
  has_value v -> exists w, py_neg v = Ok w /\ has_value w /\ xv w = xneg (xv v).
Proof.
  intros (n & x & Hn & Hx). unfold py_neg. rewrite Hn.
  exists (of_num (num_neg n)). split; [done|].
  assert (as_num (of_num (num_neg n)) = Some (num_neg n)) as E by (by destruct n).
  split.
  - exists (num_neg n), (xneg x). split; [done|]. by rewrite num_val_neg, Hx.
  - unfold xv. rewrite E, Hn. simpl. by rewrite num_val_neg, Hx.
Qed.

Lemma num_of_compare a b :
  has_value a -> has_value b ->
  num_compare (num_of a) (num_of b) = Some (xval_compare (xv a) (xv b)).
Proof.
  intros Ha Hb. destruct (has_value_compare a b Ha Hb) as (m & n & Hm & Hn & Hc).
  unfold num_of. by rewrite Hm, Hn.
Qed.

(** ** Sorter: the Balanced policy *)

Lemma balanced_key_order x y kx ky :
  has_value (score_of x) -> has_value (price_of x) ->
  has_value (score_of y) -> has_value (price_of y) ->
  balanced_key x = Ok kx -> balanced_key y = Ok ky ->
  key_le kx ky -> balanced_order x y.
Proof.
  intros Hsx Hpx Hsy Hpy Hkx Hky Hle. unfold balanced_key in *.
  fold (score_of x) in Hkx. fold (price_of x) in Hkx.
  fold (score_of y) in Hky. fold (price_of y) in Hky.
  destruct (py_neg_valued _ Hsx) as (nx & Ex & _ & Vx).
  destruct (py_neg_valued _ Hsy) as (ny & Ey & _ & Vy).
  rewrite Ex in Hkx. rewrite Ey in Hky. simpl in Hkx, Hky.
  injection Hkx as <-. injection Hky as <-.
  unfold key_le, key_cmp in Hle. simpl in Hle.
  rewrite Vx, Vy, xval_compare_xneg in Hle.
  unfold balanced_order, num_lt, num_eq, num_le.
  rewrite (num_of_compare _ _ Hsy Hsx), (num_of_compare _ _ Hsx Hsy),
          (num_of_compare _ _ Hpx Hpy).
  rewrite (xval_compare_antisym (xv (score_of y)) (xv (score_of x))).
  destruct (xval_compare (xv (score_of y)) (xv (score_of x))); simpl; [|by left|done].
  right. split; [done|]. by destruct (xval_compare (xv (price_of x)) (xv (price_of y))).
Qed.

Lemma balanced_key_valued x k :
  has_value (score_of x) -> has_value (price_of x) ->
  balanced_key x = Ok k -> key_valued k.
Proof.
  intros Hs Hp Hk. unfold balanced_key in Hk.
  fold (score_of x) in Hk. fold (price_of x) in Hk.
  destruct (py_neg_valued _ Hs) as (nx & Ex & Hv & _).
  rewrite Ex in Hk. simpl in Hk. injection Hk as <-. by split.
Qed.

Lemma sorted_balanced_order scored out :
  sorted balanced_key tuple_lt false scored = Ok out ->
  Forall (fun x => has_value (score_of x) /\ has_value (price_of x)) out ->
  forall i j x y, (i < j)%nat -> out !! i = Some x -> out !! j = Some y ->
    balanced_order x y.
Proof.
  unfold sorted. intros Hout Hval.
  destruct (mapM_res _ scored) as [keyed|] eqn:Hkeyed; simpl in Hout; [|done].
  destruct (sort_with _ keyed) as [s|] eqn:Hs; simpl in Hout; [|done].
  injection Hout as <-.
  pose proof (sort_with_perm _ _ _ Hs) as Hperm.
  assert (Forall (fun p => balanced_key (snd p) = Ok (fst p)) keyed) as Hk.
  { apply mapM_res_Forall2 in Hkeyed. clear -Hkeyed.
    induction Hkeyed as [|x p l l' Hx _ IH]; constructor; [|done].
    destruct (balanced_key x) as [k|] eqn:E; simpl in Hx; [|done].
    injection Hx as <-. done. }
  assert (Forall keyed_ok s) as Hok.
  { rewrite <- Hperm in Hk.
    pose proof (proj1 (Forall_forall _ _) Hk) as Hk'.
    pose proof (proj1 (Forall_forall _ _) Hval) as Hval'.
    apply Forall_forall. intros p Hp. split; [by apply Hk'|]. apply Hval'.
    apply list_elem_of_In, in_map, list_elem_of_In, Hp. }
  assert (Forall (fun p => key_valued (fst p)) keyed) as HP.
  { rewrite <- Hperm. eapply Forall_impl; [exact Hok|].
    intros p (H1 & H2 & H3). by apply (balanced_key_valued (snd p)). }
  destruct (sort_with_sorted
              (fun a b : (pyval * pyval) * offer => tuple_lt (fst a) (fst b))
              (fun p => key_valued (fst p))
              (fun p q => key_le (fst p) (fst q))) with (l := keyed)
    as (s' & Hs' & Hsorted); [| |done|].
  { intros a b Ha Hb. rewrite (tuple_lt_valued _ _ Ha Hb). eexists. split; [done|].
    unfold key_le. rewrite (key_cmp_antisym (fst a) (fst b)).
    destruct (key_cmp (fst a) (fst b)); simpl; done. }
  { intros a b c. apply key_le_trans. }
  rewrite Hs in Hs'. injection Hs' as <-.
  intros i j x y Hij Hi Hj.
  change (map snd s) with (snd <$> s) in Hi, Hj.
  apply list_lookup_fmap_Some in Hi as (p & -> & Hp).
  apply list_lookup_fmap_Some in Hj as (q & -> & Hq).
  pose proof (StronglySorted_lookup _ s i j p q Hsorted Hij Hp Hq) as Hle.
  pose proof (proj1 (Forall_forall _ _) Hok) as Hok'. clear Hok. rename Hok' into Hok.
  destruct (Hok p) as (P1 & P2 & P3); [by apply list_elem_of_lookup_2 in Hp|].
  destruct (Hok q) as (Q1 & Q2 & Q3); [by apply list_elem_of_lookup_2 in Hq|].
  by apply (balanced_key_order (snd p) (snd q) (fst p) (fst q)).
Qed.

(** C1 (as amended). Under the Balanced policy, and under every policy name
    other than Cheapest and Highest Rated, when the Sorter returns a list in
    which no score and no numeric price is a NaN, then for all positions
    i < j of that list either score[i] > score[j], or score[i] == score[j]
    and price[i] <= price[j]. *)
Theorem sort_results_balanced_order (l : list offer) (sort_pref item : str) (out : list offer) :
  sort_pref <> lit "Cheapest" -> sort_pref <> lit "Highest Rated" ->
  sort_results l sort_pref item = Ok out ->
  Forall (fun x => has_value (score_of x) /\ has_value (price_of x)) out ->
  forall i j x y, (i < j)%nat -> out !! i = Some x -> out !! j = Some y ->
    balanced_order x y.
Proof.
  intros H1 H2 Hout Hval. unfold sort_results in Hout.
  rewrite (bool_decide_eq_false_2 _ H1), (bool_decide_eq_false_2 _ H2) in Hout.
  simpl in Hout.
  destruct (calculate_advanced_relevance_scores _ item) as [scored|]; simpl in Hout; [|done].
  intros i j x y. by apply (sorted_balanced_order scored out).
Qed.

Lemma sort_results_balanced_order_witness :
  exists out,
    sort_results [offer_A; offer_iphone; offer_C] "Balanced" "phone y" = Ok out
    /\ map (fun x => dict_get_none x "title") out
       = [PStr "Phone Y"; PStr "Apple iPhone 15 128GB"; PStr "Phone X"]
    /\ forall i j x y, (i < j)%nat -> out !! i = Some x -> out !! j = Some y ->
         balanced_order x y.
Proof.
  eexists. split; [vm_compute; reflexivity|]. split; [vm_compute; reflexivity|].
  apply (sort_results_balanced_order [offer_A; offer_iphone; offer_C] "Balanced" "phone y").
  - vm_compute; discriminate.
  - vm_compute; discriminate.
  - vm_compute; reflexivity.
  - repeat constructor; eexists _, _; split; vm_compute; reflexivity.
Defined.

(** C1 as worded fails on a price string that [float] reads as
    a NaN: the two offers have the same score, the first one stays first, and
    its price is not below or equal to the price of the second. *)
Lemma sort_results_nan_price_unordered :
  exists x y,
    sort_results [offer_nan; offer_one] "Balanced" "pen" = Ok [x; y]
    /\ score_of x = PFloat (float_of_decimal "1100")
    /\ score_of y = PFloat (float_of_decimal "1100")
    /\ price_of x = PFloat nan
    /\ price_of y = PFloat (float_of_decimal "1")
    /\ ~ balanced_order x y.
Proof.
  eexists _, _. split; [vm_compute; reflexivity|].
  split; [vm_compute; reflexivity|]. split; [vm_compute; reflexivity|].
  split; [vm_compute; reflexivity|]. split; [vm_compute; reflexivity|].
  unfold balanced_order. intros [H|[_ H]]; vm_compute in H; discriminate.
Qed.


(** ** Rounding does not overflow on moderate values *)

Lemma digits2_pos_size p : digits2_pos p = Pos.size p.
Proof. induction p as [p IH|p IH|]; simpl; by rewrite ?IH. Qed.

Lemma Zdigits2_pos_log2 p : Zdigits2 (Zpos p) = (Z.log2 (Zpos p) + 1)%Z.
Proof.
  simpl. rewrite digits2_pos_size. destruct p as [p|p|]; simpl; try done;
    by rewrite Pos2Z.inj_succ.
Qed.

Lemma Zdigits2_nonneg z : (0 <= Zdigits2 z)%Z.
Proof. destruct z; simpl; lia. Qed.

Lemma Zdigits2_mono a b : (0 <= a <= b)%Z -> (Zdigits2 a <= Zdigits2 b)%Z.
Proof.
  intros [Ha Hab]. destruct a as [|p|p]; [apply Zdigits2_nonneg| |lia].
  destruct b as [|q|q]; try lia.
  rewrite !Zdigits2_pos_log2. apply Zplus_le_compat_r, Z.log2_le_mono. lia.
Qed.

Lemma Zdigits2_bound z k : (0 <= z < 2 ^ k)%Z -> (0 <= k)%Z -> (Zdigits2 z <= k)%Z.
Proof.
  intros [Hz Hk] Hk0. destruct z as [|p|p]; [done| |lia].
  rewrite Zdigits2_pos_log2. apply Z.log2_lt_pow2 in Hk; lia.
Qed.

Lemma Zdigits2_shiftl p s :
  (0 <= s)%Z -> Zdigits2 (Z.shiftl (Zpos p) s) = (Zdigits2 (Zpos p) + s)%Z.
Proof.
  intros Hs. assert (0 < Z.shiftl (Zpos p) s)%Z as Hpos.
  { rewrite Z.shiftl_mul_pow2 by done. apply Z.mul_pos_pos; [lia|].
    by apply Z.pow_pos_nonneg. }
  destruct (Z.shiftl (Zpos p) s) as [|q|q] eqn:E; try lia.
  rewrite !Zdigits2_pos_log2, <- E, Z.log2_shiftl; lia.
Qed.

Lemma Zdigits2_succ m : (0 <= m)%Z -> (Zdigits2 (m + 1) <= Zdigits2 m + 1)%Z.
Proof.
  intros Hm. destruct m as [|p|p]; [done| |lia].
  assert (Zpos p + 1 = Zpos (p + 1))%Z as -> by lia.
  rewrite !Zdigits2_pos_log2.
  assert (Z.log2 (Zpos (p + 1)) <= Z.log2 (2 * Zpos p))%Z as H
    by (apply Z.log2_le_mono; lia).
  rewrite Z.log2_double in H by lia. lia.
Qed.

Lemma shr_1_digits r :
  Zdigits2 (shr_m (shr_1 r)) = Z.max 0 (Zdigits2 (shr_m r) - 1)
  /\ ((0 <= shr_m r)%Z -> (0 <= shr_m (shr_1 r))%Z).
Proof.
  destruct r as [m rb sb]. unfold shr_1.
  destruct m as [|[p|p|]|[p|p|]]; simpl; split; try lia.
Qed.

Lemma iter_pos_shr_1_digits p r :
  Zdigits2 (shr_m (SpecFloat.iter_pos shr_1 p r)) = Z.max 0 (Zdigits2 (shr_m r) - Zpos p)
  /\ ((0 <= shr_m r)%Z -> (0 <= shr_m (SpecFloat.iter_pos shr_1 p r))%Z).
Proof.
  revert r. induction p as [p IH|p IH|]; intros r; simpl.
  - destruct (shr_1_digits r) as [D1 N1].
    destruct (IH (shr_1 r)) as [D2 N2].
    destruct (IH (SpecFloat.iter_pos shr_1 p (shr_1 r))) as [D3 N3].
    split; [|tauto]. rewrite D3, D2, D1. lia.
  - destruct (IH r) as [D2 N2].
    destruct (IH (SpecFloat.iter_pos shr_1 p r)) as [D3 N3].
    split; [|tauto]. rewrite D3, D2. lia.
  - apply shr_1_digits.
Qed.

Lemma fexp64_eq x : fexp64 x = Z.max (x - 53) (-1074).
Proof. done. Qed.

Lemma shr_fexp_spec m e l r e' :
  (0 <= m)%Z -> shr_fexp prec emax m e l = (r, e') ->
  (0 <= shr_m r)%Z
  /\ e' = Z.max e (fexp64 (Zdigits2 m + e))
  /\ (Zdigits2 (shr_m r) + e' <= Z.max (Zdigits2 m + e) e')%Z.
Proof.
  intros Hm. unfold shr_fexp, shr. fold (fexp64 (Zdigits2 m + e)).
  assert (shr_m (shr_record_of_loc m l) = m) as Em by (by destruct l as [|[]]).
  destruct (fexp64 (Zdigits2 m + e) - e)%Z as [|p|p] eqn:En; intros [= <- <-].
  - rewrite Em. repeat split; lia.
  - destruct (iter_pos_shr_1_digits p (shr_record_of_loc m l)) as [D N].
    rewrite Em in D, N. repeat split; [by apply N|lia|]. rewrite D. lia.
  - rewrite Em. repeat split; lia.
Qed.

Lemma round_nearest_even_digits m l :
  (0 <= m)%Z ->
  (0 <= round_nearest_even m l)%Z
  /\ (Zdigits2 (round_nearest_even m l) <= Zdigits2 m + 1)%Z.
Proof.
  intros Hm. pose proof (Zdigits2_succ m Hm). pose proof (Zdigits2_nonneg m).
  unfold round_nearest_even. destruct l as [|[]]; try destruct (Z.even m); split; lia.
Qed.

Lemma binary_round_aux_finite sx mx ex lx :
  (0 <= mx)%Z -> (ex <= 971)%Z -> (Zdigits2 mx + ex <= 1023)%Z ->
  is_inf (binary_round_aux prec emax sx mx ex lx) = false.
Proof.
  intros Hm He Hd. unfold binary_round_aux.
  destruct (shr_fexp prec emax mx ex lx) as [r1 e1] eqn:E1.
  destruct (shr_fexp_spec _ _ _ _ _ Hm E1) as (N1 & X1 & D1).
  destruct (round_nearest_even_digits (shr_m r1) (loc_of_shr_record r1) N1) as [N2 D2].
  destruct (shr_fexp prec emax _ e1 loc_Exact) as [r2 e2] eqn:E2.
  destruct (shr_fexp_spec _ _ _ _ _ N2 E2) as (N3 & X2 & D3).
  rewrite fexp64_eq in X1, X2.
  destruct (shr_m r2); [done| |done].
  assert (e2 <= emax - prec)%Z as H by (unfold emax, prec; lia).
  apply Z.leb_le in H. by rewrite H.
Qed.

Lemma digits2_pos_iter_xO m d :
  Zpos (digits2_pos (Pos.iter xO m d)) = (Zpos (digits2_pos m) + Zpos d)%Z.
Proof.
  induction d as [|d IH] using Pos.peano_ind.
  - simpl. lia.
  - rewrite Pos.iter_succ. simpl. lia.
Qed.

Lemma binary_round_finite sx m :
  (Zpos m < 2 ^ 1023)%Z -> is_inf (binary_round prec emax sx m 0) = false.
Proof.
  intros Hm. unfold binary_round.
  assert (Zdigits2 (Zpos m) <= 1023)%Z as Hd by (apply Zdigits2_bound; lia).
  simpl in Hd. rewrite Z.add_0_r. fold (fexp64 (Zpos (digits2_pos m))).
  pose proof (fexp64_eq (Zpos (digits2_pos m))) as Hf.
  unfold shl_align. rewrite Z.sub_0_r.
  destruct (fexp64 (Zpos (digits2_pos m))) as [|p|p] eqn:E.
  - apply binary_round_aux_finite; simpl; lia.
  - apply binary_round_aux_finite; simpl; lia.
  - apply binary_round_aux_finite; [lia|lia|].
    simpl. rewrite digits2_pos_iter_xO. lia.
Qed.

Lemma float_of_Z_finite z : (Z.abs z < 2 ^ 1023)%Z -> is_inf (float_of_Z z) = false.
Proof.
  intros Hz. unfold float_of_Z, binary_normalize.
  destruct z as [|m|m]; [done| |]; apply binary_round_finite; lia.
Qed.

Lemma int_to_float_ok z : (Z.abs z < 2 ^ 1023)%Z -> exists f, int_to_float z = Ok f.
Proof.
  intros Hz. unfold int_to_float. rewrite (float_of_Z_finite z Hz). by eexists.
Qed.

Lemma round_ratio_finite neg n d :
  (Zpos n < 2 ^ 1023)%Z -> is_inf (round_ratio neg n d) = false.
Proof.
  intros Hn. unfold round_ratio, SFdiv_core_binary. cbv zeta.
  assert (Zdigits2 (Zpos n) <= 1023)%Z as Hd by (apply Zdigits2_bound; lia).
  remember (Z.min (fexp prec emax (Zdigits2 (Zpos n) + 0 - (Zdigits2 (Zpos d) + 0)))
                  (0 - 0))%Z as e' eqn:He'.
  assert (e' <= 0)%Z as He by lia.
  remember (match (0 - 0 - e')%Z with
            | Z0 => Zpos n
            | Zpos _ => Z.shiftl (Zpos n) (0 - 0 - e')
            | Zneg _ => 0%Z
            end) as m' eqn:Hm'.
  assert ((0 <= m')%Z /\ (Zdigits2 m' + e' <= 1023)%Z) as [Hm0 Hm1].
  { subst m'. destruct (0 - 0 - e')%Z as [|p|p] eqn:E; try (cbn [Zdigits2] in *; lia).
    rewrite <- E. split; [apply Z.shiftl_nonneg; lia|].
    rewrite Zdigits2_shiftl by lia. lia. }
  clear Hm' He'.
  destruct (IntDef.Z.div_eucl m' (Zpos d)) as [q r] eqn:Hdiv.
  assert (q = m' / Zpos d)%Z as Hq by (unfold Z.div; by rewrite Hdiv).
  assert (0 <= q <= m')%Z as Hq'.
  { rewrite Hq. split; [apply Z.div_pos; lia|].
    apply Z.div_le_upper_bound; [lia|]. nia. }
  apply binary_round_aux_finite; [lia|lia|].
  pose proof (Zdigits2_mono q m' Hq'). lia.
Qed.

Lemma int_true_div_ok a b :
  (Z.abs a < 2 ^ 1023)%Z -> b <> 0%Z -> exists f, int_true_div a b = Ok f.
Proof.
  intros Ha Hb. unfold int_true_div.
  destruct a as [|n|n], b as [|d|d]; try done; try (by eexists);
    rewrite round_ratio_finite by lia; by eexists.
Qed.

(** ** The arithmetic of the Scorer does not raise on moderate numbers *)

Lemma as_num_bounded B v :
  int_bounded B v -> exists n, as_num v = Some n /\ num_bounded B n.
Proof.
  destruct v as [|b|z|f|s]; simpl; try done; intros H.
  - exists (NInt (if b then 1 else 0)). split; [done|]. simpl. destruct b; lia.
  - by exists (NInt z).
  - by exists (NFloat f).
Qed.

Lemma int_bounded_weaken B B' v : int_bounded B v -> (B <= B')%Z -> int_bounded B' v.
Proof. destruct v; simpl; try done; lia. Qed.

Lemma int_bounded_number B v : int_bounded B v -> is_int_or_float v = true.
Proof. by destruct v. Qed.

Lemma as_float_ok B n :
  num_bounded B n -> (B < 2 ^ 1023)%Z -> exists f, as_float n = Ok f.
Proof.
  destruct n as [z|f]; simpl; intros H HB; [|by eexists].
  apply int_to_float_ok. lia.
Qed.

Lemma num_arith_ok iop fop x y Bx By :
  num_bounded Bx x -> num_bounded By y -> (Bx < 2 ^ 1023)%Z -> (By < 2 ^ 1023)%Z ->
  exists r, num_arith iop fop x y = Ok r
            /\ match r with
               | NInt z => exists a b, x = NInt a /\ y = NInt b /\ z = iop a b
               | NFloat _ => True
               end.
Proof.
  intros Hx Hy HBx HBy.
  destruct (as_float_ok Bx x Hx HBx) as [fx Efx].
  destruct (as_float_ok By y Hy HBy) as [fy Efy].
  unfold num_arith. destruct x as [a|f], y as [b|g].
  - eexists. split; [done|]. by exists a, b.
  - rewrite Efx. simpl. by eexists.
  - rewrite Efy. simpl. by eexists.
  - simpl. by eexists.
Qed.

Lemma py_arith_ok iop fop a b Ba Bb B :
  int_bounded Ba a -> int_bounded Bb b -> (Ba < 2 ^ 1023)%Z -> (Bb < 2 ^ 1023)%Z ->
  (forall x y, (Z.abs x <= Ba)%Z -> (Z.abs y <= Bb)%Z -> (Z.abs (iop x y) <= B)%Z) ->
  exists v, py_arith (num_arith iop fop) a b = Ok v /\ int_bounded B v.
Proof.
  intros Ha Hb HBa HBb Hop.
  destruct (as_num_bounded _ _ Ha) as (x & Ex & Hx).
  destruct (as_num_bounded _ _ Hb) as (y & Ey & Hy).
  destruct (num_arith_ok iop fop x y Ba Bb Hx Hy HBa HBb) as (r & Er & Hr).
  unfold py_arith. rewrite Ex, Ey, Er. simpl. eexists. split; [done|].
  destruct r as [z|f]; simpl; [|done].
  destruct Hr as (p & q & -> & -> & ->). by apply Hop.
Qed.

Lemma py_add_ok a b Ba Bb :
  int_bounded Ba a -> int_bounded Bb b -> (Ba < 2 ^ 1023)%Z -> (Bb < 2 ^ 1023)%Z ->
  exists v, py_add a b = Ok v /\ int_bounded (Ba + Bb) v.
Proof. intros. eapply py_arith_ok; eauto. intros; lia. Qed.

Lemma py_sub_ok a b Ba Bb :
  int_bounded Ba a -> int_bounded Bb b -> (Ba < 2 ^ 1023)%Z -> (Bb < 2 ^ 1023)%Z ->
  exists v, py_sub a b = Ok v /\ int_bounded (Ba + Bb) v.
Proof. intros. eapply py_arith_ok; eauto. intros; lia. Qed.

Lemma py_mul_ok a b Ba Bb :
  int_bounded Ba a -> int_bounded Bb b -> (Ba < 2 ^ 1023)%Z -> (Bb < 2 ^ 1023)%Z ->
  exists v, py_mul a b = Ok v /\ int_bounded (Ba * Bb) v.
Proof.
  intros. eapply py_arith_ok; eauto. intros x y Hx Hy. rewrite Z.abs_mul.
  apply Z.mul_le_mono_nonneg; lia.
Qed.

Lemma py_truediv_int_ok a Ba :
  int_bounded Ba a -> is_int a = true -> (Ba < 2 ^ 1023)%Z ->
  exists f, py_truediv a (PInt 4) = Ok (PFloat f).
Proof.
  intros Ha Hi HB. unfold py_truediv, py_arith.
  assert (exists z, as_num a = Some (NInt z) /\ (Z.abs z <= Ba)%Z) as (z & -> & Hz).
  { destruct a as [|b|z|f|s]; simpl in *; try done.
    - exists (if b then 1 else 0)%Z. split; [done|]. destruct b; lia.
    - by exists z. }
  simpl. destruct (int_true_div_ok z 4) as [f ->]; [lia|done|]. by exists f.
Qed.

Lemma py_lt_numbers a b :
  is_int_or_float a = true -> is_int_or_float b = true -> exists r, py_lt a b = Ok r.
Proof.
  unfold py_lt. destruct a, b; simpl; try done; intros _ _; by eexists.
Qed.

Lemma py_min_ok a b Ba Bb :
  int_bounded Ba a -> int_bounded Bb b ->
  exists v, py_min a b = Ok v /\ int_bounded (Z.max Ba Bb) v.
Proof.
  intros Ha Hb. unfold py_min.
  destruct (py_lt_numbers b a) as [r ->]; [by eapply int_bounded_number..|].
  simpl. eexists. split; [done|].
  destruct r; eapply int_bounded_weaken; eauto; lia.
Qed.

(** ** Word counts *)

Lemma words_from_length cur s :
  length (words_from cur s) <= length s + (if bool_decide (cur = []) then 0 else 1).
Proof.
  revert cur. induction s as [|c s IH]; intros cur; simpl.
  - destruct cur; simpl; lia.
  - destruct (is_word c).
    + specialize (IH (c :: cur)). simpl in IH. destruct cur; simpl; lia.
    + specialize (IH []). simpl in IH. destruct cur; simpl in *; lia.
Qed.

Lemma findall_words_length s : length (findall_words s) <= length s.
Proof. pose proof (words_from_length [] s) as H. simpl in H. unfold findall_words. lia. Qed.

Lemma remove_dups_length_le (l : list str) : length (remove_dups l) <= length l.
Proof.
  induction l as [|x l IH]; simpl; [done|].
  destruct (decide_rel elem_of x l); simpl; lia.
Qed.

Lemma overlap_bound title item :
  length (filter (fun w => w ∈ findall_words title)
                 (remove_dups (findall_words (lower item)))) <= length item.
Proof.
  etrans; [apply length_filter|]. etrans; [apply remove_dups_length_le|].
  etrans; [apply findall_words_length|]. unfold lower. by rewrite length_map.
Qed.

(** The Scorer returns a number for an offer of the data model. *)
Lemma relevance_score_ok product item :
  title_is_str product -> rating_ok product -> reviews_ok product ->
  (Z.of_nat (length item) <= 2 ^ 1000)%Z ->
  exists v, relevance_score product item = Ok v /\ is_int_or_float v = true.
Proof.
  intros [t Ht] Hrating Hreviews Hitem.
  rewrite (relevance_score_unfold product item t Ht). cbv zeta.
  pose proof (overlap_bound (lower t) item) as Hov.
  set (overlap := length (filter _ _)) in *.
  set (base := (Z.of_nat overlap * 100 + _)%Z).
  assert (0 <= base <= 2 ^ 1008)%Z as Hbase.
  { unfold base. destruct (contains (lower item) (lower t)); lia. }
  set (rating := dict_get product "rating" (PInt 0)).
  set (reviews := dict_get product "reviews" (PInt 0)).
  assert (int_bounded (2 ^ 1000) rating) as Hr.
  { unfold rating, dict_get, rating_ok in *.
    destruct (product !! "rating"); simpl; [done|lia]. }
  destruct (is_int_or_float rating && is_int reviews) eqn:Hboth; [|by eexists].
  apply andb_prop in Hboth as [_ Hint].
  assert (int_bounded (2 ^ 1000) reviews) as Hv.
  { unfold reviews, dict_get, reviews_ok in *.
    destruct (product !! "reviews") as [[|b|z|f|s]|]; simpl in *; try done; lia. }
  destruct (py_mul_ok rating (PInt 20) (2 ^ 1000) 20 Hr) as (bonus & -> & Hb);
    [simpl; lia|lia|lia|]. cbn [mbind res_bind].
  destruct (py_add_ok (PInt base) bonus (2 ^ 1008) (2 ^ 1000 * 20)) as (s1 & -> & Hs1);
    [simpl; lia|done|lia|lia|]. cbn [mbind res_bind].
  destruct (py_truediv_int_ok reviews (2 ^ 1000) Hv Hint) as [q ->]; [lia|].
  cbn [mbind res_bind].
  destruct (py_min_ok (PFloat q) (PInt 150) 0 150) as (m & -> & Hm); [done|simpl; lia|].
  cbn [mbind res_bind].
  destruct (py_add_ok s1 m _ _ Hs1 Hm) as (s2 & -> & Hs2); [lia|lia|].
  cbn [mbind res_bind].
  destruct (100 <? length (lower t))%nat.
  - destruct (py_sub_ok s2 (PInt 25) _ 25 Hs2) as (s3 & -> & Hs3); [simpl; lia|lia|lia|].
    eexists. split; [done|]. by eapply int_bounded_number.
  - eexists. split; [done|]. by eapply int_bounded_number.
Qed.

(** ** Every stage returns on offers of the data model *)

Lemma mapM_res_ok {A B} (f : A -> res B) (Q : B -> Prop) (l : list A) :
  Forall (fun x => exists y, f x = Ok y /\ Q y) l ->
  exists out, mapM_res f l = Ok out /\ Forall Q out.
Proof.
  induction 1 as [|x l (y & Hy & Qy) _ (out & Hout & HQ)]; simpl.
  - by exists [].
  - rewrite Hy, Hout. simpl. exists (y :: out). split; [done|]. by constructor.
Qed.

Lemma filterM_res_ok {A} (f : A -> res bool) (l : list A) :
  Forall (fun x => exists b, f x = Ok b) l ->
  exists out, filterM_res f l = Ok out /\ sublist out l.
Proof.
  induction 1 as [|x l (b & Hb) _ (out & Hout & Hsub)]; simpl.
  - by exists [].
  - rewrite Hb, Hout. simpl. eexists. split; [done|].
    destruct b; [by apply sublist_skip|by apply sublist_cons].
Qed.

Lemma sublist_Forall {A} (P : A -> Prop) (out l : list A) :
  sublist out l -> Forall P l -> Forall P out.
Proof.
  intros Hsub Hl. apply Forall_forall. intros x Hx.
  pose proof (proj1 (Forall_forall P l) Hl) as H. apply H.
  by apply (elem_of_sublist out l).
Qed.

Lemma sort_with_ok {A} (lt : A -> A -> res bool) (P : A -> Prop) (l : list A) :
  (forall a b, P a -> P b -> exists r, lt a b = Ok r) ->
  Forall P l -> exists out, sort_with lt l = Ok out /\ Forall P out.
Proof.
  intros Hlt Hl.
  destruct (sort_with_sorted lt P (fun _ _ => True)) with (l := l) as (out & Hout & _).
  - intros a b Ha Hb. destruct (Hlt a b Ha Hb) as [r Hr]. exists r. split; [done|].
    by destruct r.
  - done.
  - done.
  - exists out. split; [done|]. apply sort_with_perm in Hout. by rewrite Hout.
Qed.

Lemma sorted_ok {A K} (key : A -> res K) (lt : K -> K -> res bool) (PK : K -> Prop)
    (reverse : bool) (l : list A) :
  Forall (fun x => exists k, key x = Ok k /\ PK k) l ->
  (forall a b, PK a -> PK b -> exists r, lt a b = Ok r) ->
  exists out, sorted key lt reverse l = Ok out.
Proof.
  intros Hkey Hlt. unfold sorted.
  destruct (mapM_res_ok (fun x => k ← key x; Ok (k, x)) (fun p => PK (fst p)) l)
    as (keyed & -> & Hkeyed).
  { eapply Forall_impl; [exact Hkey|]. intros x (k & -> & Hk). by exists (k, x). }
  simpl.
  assert (forall l', Forall (fun p : K * A => PK (fst p)) l' ->
            exists out, sort_with (fun a b => lt (fst a) (fst b)) l' = Ok out) as Hsort.
  { intros l' Hl'.
    destruct (sort_with_ok (fun a b : K * A => lt (fst a) (fst b))
                (fun p => PK (fst p)) l') as (out & Hout & _); [|done|by exists out].
    intros a b. apply Hlt. }
  destruct reverse.
  - destruct (Hsort (rev keyed)) as [out ->]; [|by eexists].
    apply Forall_forall. intros p Hp. apply list_elem_of_In, in_rev, list_elem_of_In in Hp.
    by apply (proj1 (Forall_forall _ _) Hkeyed).
  - destruct (Hsort keyed Hkeyed) as [out ->]. by eexists.
Qed.

Lemma annotate_price_get p k d :
  k <> "numeric_price"%string -> dict_get (annotate_price p) k d = dict_get p k d.
Proof.
  intros Hk. unfold dict_get, annotate_price, dict_set.
  by rewrite dict_lookup_insert_ne.
Qed.

Lemma annotate_price_typed p : offer_typed p -> offer_typed (annotate_price p).
Proof.
  intros (H1 & H2 & H3 & H4).
  unfold offer_typed, title_is_str, source_is_str, rating_ok, reviews_ok in *.
  rewrite !annotate_price_get by done.
  unfold annotate_price, dict_set. rewrite !dict_lookup_insert_ne by done. done.
Qed.

Lemma annotate_price_price p :
  exists f, dict_get (annotate_price p) "numeric_price" (PFloat inf) = PFloat f.
Proof.
  unfold dict_get, annotate_price, dict_set. rewrite dict_lookup_insert_eq. by eexists.
Qed.

Lemma rating_number p :
  rating_ok p -> is_int_or_float (dict_get p "rating" (PInt 0)) = true.
Proof.
  unfold rating_ok, dict_get. destruct (p !! "rating"); simpl; [|done].
  apply int_bounded_number.
Qed.

Lemma tuple_lt_numbers a b :
  is_int_or_float (fst a) = true /\ is_int_or_float (snd a) = true ->
  is_int_or_float (fst b) = true /\ is_int_or_float (snd b) = true ->
  exists r, tuple_lt a b = Ok r.
Proof.
  intros [A1 A2] [B1 B2]. unfold tuple_lt.
  destruct (negb (py_eq a.1 b.1)); [by apply py_lt_numbers|].
  destruct (negb (py_eq a.2 b.2)); [by apply py_lt_numbers|]. by eexists.
Qed.

Lemma py_neg_number v :
  is_int_or_float v = true -> exists w, py_neg v = Ok w /\ is_int_or_float w = true.
Proof.
  unfold py_neg. destruct v as [|b|z|f|s]; simpl; try done; intros _; by eexists.
Qed.

Lemma sort_results_ok (l : list offer) (sort_pref item : str) :
  Forall offer_typed l -> (Z.of_nat (length item) <= 2 ^ 1000)%Z ->
  exists out, sort_results l sort_pref item = Ok out.
Proof.
  intros Hl Hitem. unfold sort_results.
  assert (Forall offer_typed (map annotate_price l)) as Ha.
  { apply Forall_forall. intros x (p & <- & Hp)%list_elem_of_In%in_map_iff.
    apply annotate_price_typed. apply (proj1 (Forall_forall _ _) Hl).
    by apply list_elem_of_In. }
  assert (Forall (fun x => exists f, dict_get x "numeric_price" (PFloat inf) = PFloat f)
                 (map annotate_price l)) as Hp.
  { apply Forall_forall. intros x (p & <- & _)%list_elem_of_In%in_map_iff.
    apply annotate_price_price. }
  destruct (bool_decide (sort_pref = lit "Cheapest")).
  { apply (sorted_ok _ _ (fun k => is_int_or_float k = true)).
    - eapply Forall_impl; [exact Hp|]. intros x [f Hf]. eexists. split; [done|].
      by rewrite Hf.
    - apply py_lt_numbers. }
  destruct (bool_decide (sort_pref = lit "Highest Rated") && _).
  { apply (sorted_ok _ _ (fun k => is_int_or_float k = true)).
    - eapply Forall_impl; [exact Ha|]. intros x (_ & _ & Hr & _). eexists.
      split; [done|]. by apply rating_number.
    - apply py_lt_numbers. }
  destruct (mapM_res_ok
              (fun product => score ← relevance_score product item;
                              Ok (dict_set product "relevance_score" score))
              (fun x => is_int_or_float (dict_get x "relevance_score" (PInt 0)) = true
                        /\ is_int_or_float (dict_get x "numeric_price" (PFloat inf)) = true)
              (map annotate_price l)) as (scored & Hscored & HQ).
  { apply Forall_forall. intros x Hx.
    destruct (proj1 (Forall_forall _ _) Ha x Hx) as (T1 & _ & T3 & T4).
    destruct (proj1 (Forall_forall _ _) Hp x Hx) as [f Hf].
    destruct (relevance_score_ok x item T1 T3 T4 Hitem) as (v & -> & Hv).
    simpl. eexists. split; [done|]. unfold dict_get, dict_set in *.
    rewrite dict_lookup_insert_eq, dict_lookup_insert_ne by done. simpl. split; [done|].
    by rewrite Hf. }
  unfold calculate_advanced_relevance_scores. rewrite Hscored. simpl.
  apply (sorted_ok _ _ (fun k => is_int_or_float (fst k) = true
                                 /\ is_int_or_float (snd k) = true)).
  - eapply Forall_impl; [exact HQ|]. intros x [Q1 Q2]. unfold balanced_key.
    destruct (py_neg_number _ Q1) as (w & -> & Hw). simpl. eexists. by split.
  - apply tuple_lt_numbers.
Qed.

(** ** Pipeline Orchestrator *)

Section Orchestrator.

Variable SITE_DOMAINS : str -> option (list str).
Variable urlparse_netloc : str -> res str.
Variable serpapi_shopping : str -> Z -> bool -> res (list offer).

Lemma should_include_product_ok product item site_pref :
  title_is_str product -> source_is_str product ->
  exists b, should_include_product SITE_DOMAINS urlparse_netloc product item site_pref = Ok b.
Proof.
  intros [t Ht] Hsrc. unfold should_include_product. rewrite Ht. cbn [as_str mbind res_bind].
  destruct (negb (truthy (PStr (lower t))) || _); [by eexists|].
  destruct (parse_price _) as [numeric_price|]; [|by eexists].
  destruct (num_le _ _); [by eexists|].
  destruct (negb (is_semantically_relevant _ _)); [by eexists|].
  destruct (is_accessory_or_irrelevant _ _); [by eexists|].
  destruct (is_used_or_refurbished _ _); [by eexists|].
  destruct (is_from_correct_site_returns SITE_DOMAINS urlparse_netloc product site_pref Hsrc)
    as [c ->].
  cbn [mbind res_bind].
  destruct (negb c); [by eexists|]. destruct (negb _); by eexists.
Qed.

Lemma perform_search_down search_query site_preference num_results e :
  serpapi_shopping (optimize_query_for_google_shopping search_query site_preference)
    num_results (bool_decide (lower site_preference = lit "any")) = Raise e ->
  e = RequestException ->
  perform_search serpapi_shopping search_query site_preference num_results = Ok [].
Proof. intros H ->. unfold perform_search. by rewrite H. Qed.

(** C5. For every item, retailer preference and sort policy: what the
    Orchestrator returns is the item with at most 10 offers; when the fetch
    yields the empty list it returns the item with no offer, and does not
    raise; and it does return whenever the fetched offers are offers of the
    data model (strings for title and source, a number for the rating,
    integers below 2^1000) and the item has at most 2^1000 characters. *)
Theorem get_shopping_results_top10 (item site_pref sort_pref : str) :
  (forall r,
     get_shopping_results SITE_DOMAINS urlparse_netloc serpapi_shopping
       item site_pref sort_pref = Ok r ->
     fst r = item /\ length (snd r) <= 10)
  /\ (perform_search serpapi_shopping item site_pref 50 = Ok [] ->
      get_shopping_results SITE_DOMAINS urlparse_netloc serpapi_shopping
        item site_pref sort_pref = Ok (item, []))
  /\ (forall raw_results,
        perform_search serpapi_shopping item site_pref 50 = Ok raw_results ->
        Forall offer_typed raw_results ->
        (Z.of_nat (length item) <= 2 ^ 1000)%Z ->
        exists offers,
          get_shopping_results SITE_DOMAINS urlparse_netloc serpapi_shopping
            item site_pref sort_pref = Ok (item, offers)
          /\ length offers <= 10).
Proof.
  split; [|split].
  - intros r. unfold get_shopping_results.
    destruct (perform_search _ _ _ _) as [raw|]; [|done]. cbn [mbind res_bind].
    destruct (bool_decide (raw = [])); [intros [= <-]; simpl; split; [done|lia]|].
    destruct (remove_duplicates raw) as [unique|]; [|done]. cbn [mbind res_bind].
    destruct (apply_comprehensive_filters _ _ _ _ _) as [filtered|]; [|done].
    cbn [mbind res_bind].
    destruct (sort_results filtered sort_pref item) as [sorted_results|]; [|done].
    cbn [mbind res_bind]. intros [= <-]. simpl. split; [done|].
    rewrite length_take. lia.
  - intros H. unfold get_shopping_results. rewrite H. done.
  - intros raw Hraw Htyped Hitem. unfold get_shopping_results. rewrite Hraw.
    cbn [mbind res_bind].
    destruct (bool_decide (raw = [])); [exists []; split; [done|simpl; lia]|].
    assert (Forall title_is_str raw) as Htitles.
    { eapply Forall_impl; [exact Htyped|]. by intros x (? & _). }
    rewrite (remove_duplicates_kept raw Htitles). cbn [mbind res_bind].
    pose proof (sublist_Forall _ _ _ (dedup_kept_sublist [] raw) Htyped) as Hunique.
    destruct (filterM_res_ok
                (fun p => should_include_product SITE_DOMAINS urlparse_netloc p item site_pref)
                (dedup_kept [] raw)) as (filtered & Hf & Hsub).
    { eapply Forall_impl; [exact Hunique|]. intros x (T1 & T2 & _).
      by apply should_include_product_ok. }
    unfold apply_comprehensive_filters. rewrite Hf. cbn [mbind res_bind].
    pose proof (sublist_Forall _ _ _ Hsub Hunique) as Hfiltered.
    destruct (sort_results_ok filtered sort_pref item Hfiltered Hitem) as [sorted_results ->].
    cbn [mbind res_bind]. eexists. split; [done|]. rewrite length_take. lia.
Qed.

End Orchestrator.

Lemma example_offers_typed : Forall offer_typed [offer_A; offer_B; offer_C; offer_iphone].
Proof.
  repeat constructor; try (eexists; vm_compute; reflexivity); vm_compute; done.
Qed.

Lemma get_shopping_results_top10_witness :
  get_shopping_results site_domains_example netloc_example shopping_down
    "phone" "Any" "Balanced" = Ok (lit "phone", [])
  /\ exists offers,
       get_shopping_results site_domains_example netloc_example
         (shopping_example [offer_A; offer_B; offer_C; offer_iphone])
         "phone" "Any" "Balanced" = Ok (lit "phone", offers)
       /\ length offers <= 10.
Proof.
  split.
  - apply (proj1 (proj2 (get_shopping_results_top10 site_domains_example netloc_example
                           shopping_down "phone" "Any" "Balanced"))).
    vm_compute. reflexivity.
  - apply (proj2 (proj2 (get_shopping_results_top10 site_domains_example netloc_example
                           (shopping_example [offer_A; offer_B; offer_C; offer_iphone])
                           "phone" "Any" "Balanced"))
             [offer_A; offer_B; offer_C; offer_iphone]).
    + vm_compute. reflexivity.
    + apply example_offers_typed.
    + vm_compute. done.
Defined.

Example get_shopping_results_example :
  (fun r => (fst r, map (fun x => dict_get_none x "title") (snd r)))
    <$> get_shopping_results site_domains_example netloc_example
          (shopping_example [offer_A; offer_B; offer_C; offer_iphone])
          "phone" "Any" "Balanced"
  = Ok (lit "phone", [PStr "Phone X"; PStr "Phone Y"]).
Proof. vm_compute. reflexivity. Qed.


(* ===================================================================== *)
(** * Further properties *)
(* ===================================================================== *)

(** ** Substrings *)

Lemma starts_with_spec p s : starts_with p s = true <-> exists b, s = p ++ b.
Proof.
  revert s. induction p as [|a p IH]; intros s; simpl.
  - split; [by exists s|done].
  - destruct s as [|c s]; simpl.
    + split; [done|]. by intros [b [=]].
    + rewrite andb_true_iff, bool_decide_eq_true, IH. split.
      * intros [-> [b ->]]. by exists b.
      * intros [b [= -> ->]]. split; [done|by exists b].
Qed.

Lemma contains_spec n h : contains n h = true <-> exists a b, h = a ++ n ++ b.
Proof.
  induction h as [|c h IH]; simpl.
  - rewrite orb_false_r, starts_with_spec. split.
    + intros [b Hb]. by exists [], b.
    + intros (a & b & H). destruct a; [by exists b|done].
  - rewrite orb_true_iff, starts_with_spec, IH. split.
    + intros [[b Hb]|(a & b & ->)]; [by exists [], b|by exists (c :: a), b].
    + intros ([|a0 a] & b & H); simpl in H.
      * left. by exists b.
      * right. injection H as -> ->. by exists a, b.
Qed.

Lemma contains_app_l n a b : contains n a = true -> contains n (a ++ b) = true.
Proof.
  rewrite !contains_spec. intros (x & y & ->). exists x, (y ++ b).
  by rewrite <- !app_assoc.
Qed.

Lemma contains_app_r n a b : contains n b = true -> contains n (a ++ b) = true.
Proof.
  rewrite !contains_spec. intros (x & y & ->). exists (a ++ x), y.
  by rewrite <- !app_assoc.
Qed.

Lemma contains_trans a b c :
  contains a b = true -> contains b c = true -> contains a c = true.
Proof.
  rewrite !contains_spec. intros (x & y & ->) (u & v & ->).
  exists (u ++ x), (y ++ v). by rewrite <- !app_assoc.
Qed.

Lemma lower_app s t : lower (s ++ t) = lower s ++ lower t.
Proof. apply map_app. Qed.

Lemma lower_length s : length (lower s) = length s.
Proof. apply length_map. Qed.

(** ** The Query Builder: white space *)

Lemma lstrip_length s : length (lstrip s) <= length s.
Proof.
  induction s as [|c s IH]; simpl; [done|]. destruct (is_space c); simpl; lia.
Qed.

Lemma strip_length s : length (strip s) <= length s.
Proof.
  unfold strip, rstrip. rewrite length_rev.
  etrans; [apply lstrip_length|]. rewrite length_rev. apply lstrip_length.
Qed.

Lemma last_not_space_cons c s :
  from_option is_space false (last (c :: s)) = false ->
  s <> [] -> from_option is_space false (last s) = false.
Proof. destruct s as [|d s]; [done|]. by rewrite last_cons_cons. Qed.

Lemma sub_ws_from_nonempty b s :
  s <> [] -> from_option is_space false (last s) = false -> sub_ws_from b s <> [].
Proof.
  intros Hs Hl. destruct (last s) as [c|] eqn:E.
  - simpl in Hl. pose proof (sub_ws_from_last b s c E Hl) as H.
    intros Hn. by rewrite Hn in H.
  - by apply last_None in E.
Qed.

Lemma single_spaced_sub_ws b s :
  from_option is_space false (last s) = false -> single_spaced (sub_ws_from b s) = true.
Proof.
  revert b. induction s as [|c s IH]; intros b Hl; [done|].
  destruct (decide (s = [])) as [->|Hs].
  - simpl in *. rewrite Hl. simpl. by rewrite Hl.
  - pose proof (last_not_space_cons c s Hl Hs) as Hl'.
    simpl. destruct (is_space c) eqn:Hc.
    + destruct b; [by apply IH|].
      simpl. rewrite (IH true Hl'), andb_true_r.
      change (is_space " ") with true. simpl.
      pose proof (sub_ws_from_true_head_ok s) as Hh.
      pose proof (sub_ws_from_nonempty true s Hs Hl') as Hn.
      destruct (sub_ws_from true s) as [|d r]; [done|]. simpl in *. by rewrite Hh.
    + simpl. rewrite Hc. simpl. by apply IH.
Qed.

Lemma head_ok_not_space s : head_ok s <-> from_option is_space false (head s) = false.
Proof. by destruct s. Qed.

Lemma strip_last_not_space s : from_option is_space false (last (strip s)) = false.
Proof.
  pose proof (strip_last_ok s) as H. apply head_ok_not_space in H.
  by rewrite head_rev_last in H.
Qed.

Lemma ws_normal_sub_ws_strip q : ws_normal (re_sub_ws (strip q)) = true.
Proof.
  unfold ws_normal. apply andb_true_iff. split.
  - apply negb_true_iff, head_ok_not_space, sub_ws_from_head_ok, strip_head_ok.
  - apply single_spaced_sub_ws, strip_last_not_space.
Qed.

Lemma single_spaced_ci s t : lower s = lower t -> single_spaced s = single_spaced t.
Proof.
  revert t. induction s as [|c s IH]; intros [|d t]; simpl; try done.
  intros [= Hcd Hst]. rewrite (IH t Hst). f_equal.
  rewrite <- (lower_char_eq_space _ _ Hcd).
  destruct (is_space c) eqn:Hc; [|done].
  rewrite <- (lower_char_eq_on_space c d Hcd Hc). f_equal. f_equal.
  destruct s as [|c' s], t as [|d' t]; simpl in *; try done.
  injection Hst as H _. by apply lower_char_eq_space.
Qed.

Lemma ws_normal_ci s t : lower s = lower t -> ws_normal s = ws_normal t.
Proof.
  intros H. unfold ws_normal. rewrite (single_spaced_ci s t H). f_equal. f_equal.
  destruct s as [|c s], t as [|d t]; simpl in *; try done.
  injection H as H _. by apply lower_char_eq_space.
Qed.

Example ws_normal_examples :
  map ws_normal (map lit [""; "a"; "two words"; " a"; "a "; "a  b"; "tab	stop"])
  = [true; true; true; false; false; false; false].
Proof. vm_compute. reflexivity. Qed.

Lemma clean_search_query_lower q :
  lower (clean_search_query q) = lower (re_sub_ws (strip q)).
Proof. apply apply_replacements_lower, replacements_case_only. Qed.

(** X1. The cleaned query has its white space in normal form: none at either
    end, and between two words one space and nothing else. *)
Theorem clean_search_query_ws_normal (q : str) :
  ws_normal (clean_search_query q) = true.
Proof.
  rewrite (ws_normal_ci _ _ (clean_search_query_lower q)).
  apply ws_normal_sub_ws_strip.
Qed.

Lemma is_upper_word c : is_upper c = true -> is_word c = true.
Proof. by_cases_on_char c. Qed.

Lemma lower_char_eq_kept_or_word c' c :
  lower_char c' = lower_char c -> kept_or_word c' c.
Proof.
  intros H. unfold kept_or_word.
  destruct (is_upper c') eqn:U1.
  - right. pose proof (is_upper_word c' U1) as W. split; [|done].
    by rewrite <- (is_word_lower_char c), <- H, is_word_lower_char.
  - destruct (is_upper c) eqn:U2.
    + right. pose proof (is_upper_word c U2) as W. split; [done|].
      by rewrite <- (is_word_lower_char c'), H, is_word_lower_char.
    + left. unfold lower_char in H. by rewrite U1, U2 in H.
Qed.

Lemma lower_eq_kept_or_word s t : lower s = lower t -> Forall2 kept_or_word s t.
Proof.
  revert t. induction s as [|c s IH]; intros [|d t]; simpl; try done.
  intros [= Hcd Hst]. constructor; [by apply lower_char_eq_kept_or_word|by apply IH].
Qed.

(** X2. Cleaning keeps the layout of the query that was stripped and had its
    runs of white space collapsed: the length is the same, every character
    that is no word character (a space, a punctuation mark) stays where it
    is and as it is, and a word character is kept or gives way to a word
    character. The cleaned query is never longer than the query. *)
Theorem clean_search_query_keeps_layout (q : str) :
  Forall2 kept_or_word (clean_search_query q) (re_sub_ws (strip q))
  /\ length (clean_search_query q) = length (re_sub_ws (strip q))
  /\ length (clean_search_query q) <= length q.
Proof.
  pose proof (lower_eq_kept_or_word _ _ (clean_search_query_lower q)) as H.
  split; [exact H|].
  assert (length (clean_search_query q) = length (re_sub_ws (strip q))) as E
    by (by eapply Forall2_length).
  split; [exact E|]. rewrite E.
  etrans; [apply sub_ws_from_length|apply strip_length].
Qed.

Lemma str_join_space_2 a b : str_join_space [a; b] = a ++ " "%char :: b.
Proof. simpl. by rewrite app_nil_r. Qed.

Lemma str_join_space_3 a b c : str_join_space [a; b; c] = a ++ " "%char :: b ++ " "%char :: c.
Proof. simpl. by rewrite app_nil_r. Qed.

(** X3. The optimized query is the cleaned item name, then [new] after a
    space unless the cleaned name has [new] in it in some letter case, then
    the retailer as given after a space unless the preference is [any] in
    some letter case, which adds nothing. So it starts with the cleaned
    name and always mentions [new]. *)
Theorem optimize_query_shape (item_name site_preference : str) :
  let c := clean_search_query item_name in
  let q := optimize_query_for_google_shopping item_name site_preference in
  let base := if contains "new" (lower c) then c else c ++ lit " new" in
  starts_with c q = true
  /\ contains "new" (lower q) = true
  /\ (lower site_preference = lit "any" -> q = base)
  /\ (lower site_preference <> lit "any" -> q = base ++ " "%char :: site_preference).
Proof.
  intros c q base. subst q base. unfold optimize_query_for_google_shopping.
  fold c.
  destruct (contains "new" (lower c)) eqn:Hnew;
    destruct (decide (lower site_preference = lit "any")) as [Hany|Hany];
    rewrite ?(bool_decide_eq_true_2 _ Hany), ?(bool_decide_eq_false_2 _ Hany);
    cbn [negb app];
    rewrite ?str_join_space_2, ?str_join_space_3;
    (split; [apply starts_with_spec; eexists; try reflexivity; by rewrite ?app_nil_r|]);
    (split; [rewrite ?lower_app|]).
  - simpl. by rewrite app_nil_r.
  - split; [intros _; simpl; by rewrite app_nil_r|done].
  - by apply contains_app_l.
  - split; [done|]. by intros _.
  - apply contains_app_r. done.
  - split; [by intros _|done].
  - apply contains_app_r. change (lower (" "%char :: lit "new" ++ " "%char :: site_preference))
      with (" "%char :: lit "new" ++ lower (" "%char :: site_preference)).
    apply (contains_app_r _ [" "%char]), contains_app_l. done.
  - split; [done|]. intros _. by rewrite <- app_assoc.
Qed.

Lemma optimize_query_shape_witness :
  optimize_query_for_google_shopping "ipad  mini" "ANY" = lit "iPad mini new"
  /\ optimize_query_for_google_shopping "A new ipad" "any" = lit "A new iPad"
  /\ optimize_query_for_google_shopping "ipad  mini" "Best Buy"
     = lit "iPad mini new Best Buy".
Proof.
  split; [|split].
  - apply (proj1 (proj2 (proj2 (optimize_query_shape "ipad  mini" "ANY")))).
    vm_compute. reflexivity.
  - apply (proj1 (proj2 (proj2 (optimize_query_shape "A new ipad" "any")))).
    vm_compute. reflexivity.
  - apply (proj2 (proj2 (proj2 (optimize_query_shape "ipad  mini" "Best Buy")))).
    vm_compute. discriminate.
Defined.

(** ** Deduplicator: exceptions, fixed points *)

Lemma title_is_str_dec r : {title_is_str r} + {~ title_is_str r}.
Proof.
  unfold title_is_str.
  destruct (dict_get r "title" (PStr "")) as [| | | |s];
    try (right; intros [s' Hs]; discriminate).
  left. by exists s.
Qed.

Lemma offer_normalized_title_raise r :
  ~ title_is_str r -> offer_normalized_title r = Raise AttributeError.
Proof.
  intros H. unfold offer_normalized_title, title_is_str in *.
  destruct (dict_get r "title" (PStr "")) as [| | | |s]; try done.
  destruct H. by exists s.
Qed.

Lemma remove_duplicates_loop_raise results :
  forall seen_ids seen_titles unique,
    Exists (fun r => ~ title_is_str r) results ->
    remove_duplicates_loop seen_ids seen_titles unique results = Raise AttributeError.
Proof.
  induction results as [|x rest IH]; intros seen_ids seen_titles unique Hex.
  - by apply Exists_nil in Hex.
  - simpl. destruct (title_is_str_dec x) as [Hx|Hx].
    + apply Exists_cons in Hex as [Hex|Hex]; [done|].
      rewrite (offer_normalized_title_ok x Hx). simpl.
      destruct (negb _ && negb _); by apply IH.
    + by rewrite (offer_normalized_title_raise x Hx).
Qed.

Lemma remove_duplicates_ok_titles results out :
  remove_duplicates results = Ok out -> Forall title_is_str results.
Proof.
  intros Hout. apply Forall_forall. intros x Hx.
  destruct (title_is_str_dec x) as [|Hbad]; [done|exfalso].
  unfold remove_duplicates in Hout.
  rewrite remove_duplicates_loop_raise in Hout; [done|].
  apply Exists_exists. by exists x.
Qed.

Lemma dedup_kept_fix results : forall kept,
  (forall i j x y, (i < j)%nat -> results !! i = Some x -> results !! j = Some y ->
     shares_key y x = false) ->
  (forall y x, y ∈ results -> x ∈ kept -> shares_key y x = false) ->
  dedup_kept kept results = results.
Proof.
  induction results as [|z rest IH]; intros kept Hd Hk; [done|]. simpl.
  assert (existsb (shares_key z) kept = false) as ->.
  { apply not_true_is_false. intros (x & Hx & E)%existsb_exists.
    apply list_elem_of_In in Hx. rewrite (Hk z x) in E; [done|apply list_elem_of_here|done]. }
  f_equal. apply IH.
  - intros i j x y Hij Hi Hj. apply (Hd (S i) (S j)); [lia|done|done].
  - intros y x Hy [->|Hx]%elem_of_cons.
    + apply list_elem_of_lookup_1 in Hy as [j Hj]. apply (Hd 0%nat (S j)); [lia|done|done].
    + apply Hk; [by apply elem_of_cons; right|done].
Qed.

(** X4. The Deduplicator is idempotent: its output has no duplicate left,
    so it passes through a second run unchanged. *)
Theorem remove_duplicates_idempotent (results out : list offer) :
  remove_duplicates results = Ok out -> remove_duplicates out = Ok out.
Proof.
  intros Hout. pose proof (remove_duplicates_ok_titles results out Hout) as Hwf.
  rewrite (remove_duplicates_kept results Hwf) in Hout. injection Hout as <-.
  rewrite remove_duplicates_kept.
  - f_equal. apply dedup_kept_fix.
    + intros i j x y. apply dedup_kept_distinct.
    + intros y x _ Hx. by apply elem_of_nil in Hx.
  - by apply (sublist_Forall _ _ results); [apply dedup_kept_sublist|].
Qed.

Lemma remove_duplicates_idempotent_witness :
  remove_duplicates [offer_A; offer_B; offer_C] = Ok [offer_A; offer_C]
  /\ remove_duplicates [offer_A; offer_C] = Ok [offer_A; offer_C].
Proof.
  split; [vm_compute; reflexivity|].
  apply (remove_duplicates_idempotent [offer_A; offer_B; offer_C]).
  vm_compute. reflexivity.
Defined.

Lemma sublist_length_le {A} (out l : list A) : sublist out l -> length out <= length l.
Proof. induction 1; simpl; lia. Qed.

(** X5. The first offer of the input is always kept, so a list that is not
    empty never comes out empty; and the output is never longer than the
    input. *)
Theorem remove_duplicates_keeps_first (results out : list offer) :
  remove_duplicates results = Ok out ->
  head out = head results /\ length out <= length results.
Proof.
  intros Hout. pose proof (remove_duplicates_ok_titles results out Hout) as Hwf.
  rewrite (remove_duplicates_kept results Hwf) in Hout. injection Hout as <-.
  split; [by destruct results|].
  apply sublist_length_le, dedup_kept_sublist.
Qed.

Lemma remove_duplicates_keeps_first_witness :
  head [offer_A; offer_C] = head [offer_A; offer_B; offer_C]
  /\ length [offer_A; offer_C] <= length [offer_A; offer_B; offer_C].
Proof.
  apply (remove_duplicates_keeps_first [offer_A; offer_B; offer_C] [offer_A; offer_C]).
  vm_compute. reflexivity.
Defined.

(** X6. The Deduplicator returns exactly when every title is a string (or
    absent); one offer whose title is something else, a [null] say, makes
    it raise [AttributeError] for the whole list, wherever the offer is. *)
Theorem remove_duplicates_raises (results : list offer) :
  (Forall title_is_str results -> exists out, remove_duplicates results = Ok out)
  /\ (Exists (fun r => ~ title_is_str r) results ->
      remove_duplicates results = Raise AttributeError).
Proof.
  split.
  - intros H. exists (dedup_kept [] results). by apply remove_duplicates_kept.
  - apply remove_duplicates_loop_raise.
Qed.

Lemma remove_duplicates_raises_witness :
  (exists out, remove_duplicates [offer_A; offer_B; offer_C] = Ok out)
  /\ remove_duplicates [offer_A; offer_null_title; offer_C] = Raise AttributeError.
Proof.
  split.
  - apply (proj1 (remove_duplicates_raises [offer_A; offer_B; offer_C])).
    apply three_offers_titles.
  - apply (proj2 (remove_duplicates_raises [offer_A; offer_null_title; offer_C])).
    apply Exists_cons_tl, Exists_cons_hd. intros [s Hs]. vm_compute in Hs. discriminate.
Defined.

(** ** Deduplicator: the normalized title *)

Lemma lower_lstrip s : lower (lstrip s) = lstrip (lower s).
Proof.
  induction s as [|c s IH]; [done|]. cbn [lstrip lower map].
  rewrite is_space_lower_char. destruct (is_space c); [apply IH|done].
Qed.

Lemma lower_strip s : lower (strip s) = strip (lower s).
Proof.
  unfold strip, rstrip. by rewrite lower_rev, lower_lstrip, lower_rev, lower_lstrip.
Qed.

Lemma lower_sub_ws_from b s : lower (sub_ws_from b s) = sub_ws_from b (lower s).
Proof.
  revert b. induction s as [|c s IH]; intros b; [done|]. cbn [sub_ws_from lower map].
  rewrite is_space_lower_char. fold (lower s).
  destruct (is_space c); [destruct b|]; cbn [lower map]; fold (lower (sub_ws_from true s));
    fold (lower (sub_ws_from false s)); by rewrite IH.
Qed.

Lemma strip_re_sub_ws_strip s : strip (re_sub_ws (strip s)) = re_sub_ws (strip s).
Proof.
  apply strip_fix.
  - apply sub_ws_from_head_ok, strip_head_ok.
  - apply re_sub_ws_last_ok, strip_last_ok.
Qed.

Lemma title_key_normal_form (r : offer) (t : str) :
  dict_get r "title" (PStr "") = PStr t ->
  title_key r = lower (re_sub_ws (strip t)).
Proof.
  intros Ht. unfold title_key, offer_normalized_title. rewrite Ht.
  cbn [as_str mbind res_bind try_except].
  rewrite strip_re_sub_ws_strip. unfold re_sub_ws.
  by rewrite lower_sub_ws_from, lower_strip.
Qed.

(** X7. The normalized title by which the Deduplicator compares two offers
    is the title stripped, with every run of white space made one space,
    in lower case. So two offers whose titles differ in letter case and in
    white space only are never both kept. *)
Theorem remove_duplicates_title_normal_form (results out : list offer) :
  (forall r t, dict_get r "title" (PStr "") = PStr t ->
     title_key r = lower (re_sub_ws (strip t)))
  /\ (remove_duplicates results = Ok out ->
      forall i j x y tx ty, i <> j -> out !! i = Some x -> out !! j = Some y ->
        dict_get x "title" (PStr "") = PStr tx -> dict_get y "title" (PStr "") = PStr ty ->
        lower (re_sub_ws (strip tx)) <> lower (re_sub_ws (strip ty))).
Proof.
  split.
  - intros r t Ht. by apply title_key_normal_form.
  - intros Hout i j x y tx ty Hij Hi Hj Hx Hy.
    pose proof (remove_duplicates_ok_titles results out Hout) as Hwf.
    pose proof (remove_duplicates_distinct results out i j x y Hwf Hout Hij Hi Hj) as H.
    apply shares_key_false in H as [_ H].
    by rewrite (title_key_normal_form x tx Hx), (title_key_normal_form y ty Hy) in H.
Qed.

Lemma remove_duplicates_title_normal_form_witness :
  title_key offer_B = lit "phone x"
  /\ remove_duplicates [offer_A; offer_B; offer_C] = Ok [offer_A; offer_C]
  /\ lower (re_sub_ws (strip "Phone X")) <> lower (re_sub_ws (strip "Phone Y")).
Proof.
  split; [vm_compute; reflexivity|]. split; [vm_compute; reflexivity|].
  apply (proj2 (remove_duplicates_title_normal_form [offer_A; offer_B; offer_C]
                  [offer_A; offer_C]) eq_refl 0%nat 1%nat offer_A offer_C);
    [lia|reflexivity..].
Defined.

(** ** Price bands: the range of a reasonable price *)

Lemma in_band_weaken lo hi lo' hi' price :
  (lo' <= lo)%Z -> (hi <= hi')%Z ->
  in_band lo hi price = true -> in_band lo' hi' price = true.
Proof.
  intros Hlo Hhi. rewrite !in_band_spec. intros (q & Hq & H1 & H2).
  exists q. split; [done|]. split.
  - eapply Qle_trans; [|exact H1]. by rewrite <- Zle_Qle.
  - eapply Qle_trans; [exact H2|]. by rewrite <- Zle_Qle.
Qed.

Lemma price_ranges_loop_within ranges price item_lower :
  Forall (fun r => (1 <= fst (snd r))%Z /\ (snd (snd r) <= 10000)%Z) ranges ->
  price_ranges_loop ranges price item_lower = true -> in_band 1 10000 price = true.
Proof.
  induction 1 as [|[category [lo hi]] rest [Hlo Hhi] _ IH]; simpl; [done|].
  destruct (contains category item_lower); [|done].
  by apply in_band_weaken.
Qed.

Lemma is_price_reasonable_bounds (price : float) (item : str) :
  is_price_reasonable price item = true ->
  exists q, float_val price = Some (XFin q) /\ (1 <= q)%Q /\ (q <= 10000)%Q.
Proof.
  intros H. apply (in_band_spec 1 10000 price).
  apply (price_ranges_loop_within price_ranges price (lower item)); [|done].
  repeat constructor; simpl; lia.
Qed.

(** X8. Whatever the item, a price that is found reasonable has a finite
    value between 1 and 10000: every price below 1 or above 10000 is turned
    down for every item, and so are the NaN and the infinity that [float]
    reads from a price string. *)
Theorem is_price_reasonable_range (price : float) (item : str) :
  (is_price_reasonable price item = true ->
   exists q, float_val price = Some (XFin q) /\ (1 <= q)%Q /\ (q <= 10000)%Q)
  /\ is_price_reasonable nan item = false
  /\ is_price_reasonable inf item = false.
Proof.
  split; [apply is_price_reasonable_bounds|].
  split; apply not_true_is_false; intros H;
    apply is_price_reasonable_bounds in H as (q & Hq & _); discriminate.
Qed.

Lemma is_price_reasonable_range_witness :
  exists q, float_val (float_of_Z 1299) = Some (XFin q) /\ (1 <= q)%Q /\ (q <= 10000)%Q.
Proof.
  apply (proj1 (is_price_reasonable_range (float_of_Z 1299) "iphone 15")).
  vm_compute. reflexivity.
Defined.

(** ** Words *)

Lemma is_semantically_relevant_lower title item :
  is_semantically_relevant (lower title) item = is_semantically_relevant title item.
Proof. unfold is_semantically_relevant. by rewrite lower_idem. Qed.

(** X9. The relevance check lets every title through when the item has no
    word besides stop words, and it lets a title through that is the item
    itself, in whatever letter case. *)
Theorem is_semantically_relevant_edges (title item : str) :
  (Forall (fun w => w ∈ stop_words) (findall_words (lower item)) ->
   is_semantically_relevant title item = true)
  /\ (lower title = lower item -> is_semantically_relevant title item = true).
Proof.
  unfold is_semantically_relevant. split.
  - intros H. rewrite bool_decide_eq_true_2; [done|].
    induction H as [|w l Hw _ IH]; [done|].
    rewrite filter_cons. destruct (decide (w ∉ stop_words)); [done|apply IH].
  - intros ->. destruct (filter _ _) as [|w core] eqn:E.
    + by rewrite bool_decide_eq_true_2.
    + rewrite bool_decide_eq_false_2 by done.
      simpl. apply orb_true_iff. left. apply bool_decide_eq_true.
      assert (w ∈ filter (fun w => w ∉ stop_words) (findall_words (lower item))) as Hw.
      { rewrite E. apply list_elem_of_here. }
      by apply list_elem_of_filter in Hw as [_ Hw].
Qed.

Lemma is_semantically_relevant_edges_witness :
  is_semantically_relevant "USB-C charger" "the new one for a" = false
  /\ is_semantically_relevant "USB-C charger" "The New, for... AN" = true
  /\ is_semantically_relevant "IPHONE 15 pro" "iPhone 15 Pro" = true.
Proof.
  split; [vm_compute; reflexivity|]. split.
  - apply (proj1 (is_semantically_relevant_edges "USB-C charger" "The New, for... AN")).
    vm_compute. repeat constructor; apply bool_decide_eq_true; vm_compute; reflexivity.
  - apply (proj2 (is_semantically_relevant_edges "IPHONE 15 pro" "iPhone 15 Pro")).
    vm_compute. reflexivity.
Defined.

(** X10. The accessory check and the used-goods check can only switch on when
    a title grows: a title that contains a flagged title is flagged too. *)
Theorem title_checks_monotone (product : offer) (title title' item : str) :
  contains title title' = true ->
  (is_accessory_or_irrelevant title item = true ->
   is_accessory_or_irrelevant title' item = true)
  /\ (is_used_or_refurbished product title = true ->
      is_used_or_refurbished product title' = true).
Proof.
  intros Hsub. split.
  - unfold is_accessory_or_irrelevant. rewrite !existsb_exists.
    intros (k & Hk & [H1 H2]%andb_prop). exists k. split; [done|].
    by rewrite (contains_trans k title title' H1 Hsub), H2.
  - unfold is_used_or_refurbished. destruct (has_key product "second_hand_condition"); [done|].
    rewrite !existsb_exists. intros (k & Hk & H1). exists k. split; [done|].
    by apply (contains_trans k title title').
Qed.

Lemma title_checks_monotone_witness :
  is_accessory_or_irrelevant "apple iphone 15 with clear case" "iphone" = true
  /\ is_used_or_refurbished offer_iphone "apple iphone 15 (renewed) unlocked" = true.
Proof.
  assert (contains "clear case" "apple iphone 15 with clear case" = true) as H1
    by (vm_compute; reflexivity).
  assert (contains "(renewed)" "apple iphone 15 (renewed) unlocked" = true) as H2
    by (vm_compute; reflexivity).
  split.
  - apply (proj1 (title_checks_monotone offer_iphone "clear case"
                    "apple iphone 15 with clear case" "iphone" H1)).
    vm_compute; reflexivity.
  - apply (proj2 (title_checks_monotone offer_iphone "(renewed)"
                    "apple iphone 15 (renewed) unlocked" "iphone" H2)).
    vm_compute; reflexivity.
Defined.

Section FilterChecks.

Variable SITE_DOMAINS : str -> option (list str).
Variable urlparse_netloc : str -> res str.

Lemma contains_nil s : contains [] s = true.
Proof. by destruct s. Qed.

(** X11. The retailer check accepts everything when the preference is [any]
    in some letter case; it returns for every link, whatever [urlparse]
    does with it, when the source of the offer is a string or absent; it
    raises [AttributeError] when the preference names a retailer and the
    source is something else, a [null] say; and a preference that is
    empty once its spaces are removed matches every string source. *)
Theorem is_from_correct_site_edges (product : offer) (site_pref : str) :
  (lower site_pref = lit "any" ->
   is_from_correct_site SITE_DOMAINS urlparse_netloc product site_pref = Ok true)
  /\ (source_is_str product ->
      exists b, is_from_correct_site SITE_DOMAINS urlparse_netloc product site_pref = Ok b)
  /\ (lower site_pref <> lit "any" -> ~ source_is_str product ->
      is_from_correct_site SITE_DOMAINS urlparse_netloc product site_pref
      = Raise AttributeError)
  /\ (remove_char " " (lower site_pref) = [] -> source_is_str product ->
      is_from_correct_site SITE_DOMAINS urlparse_netloc product site_pref = Ok true).
Proof.
  split; [|split; [|split]].
  - intros H. unfold is_from_correct_site. by rewrite (bool_decide_eq_true_2 _ H).
  - apply is_from_correct_site_returns.
  - apply is_from_correct_site_raise.
  - intros Hblank [s Hs]. unfold is_from_correct_site.
    destruct (bool_decide (lower site_pref = lit "any")); [done|].
    rewrite Hs, Hblank. simpl. by rewrite contains_nil.
Qed.

(** X12. An offer whose price does not read as a number is excluded, and
    nothing is raised: a price that is absent or empty, that is no string
    (a JSON number), or that [float] rejects once the dollar signs and the
    commas are removed. *)
Theorem should_include_product_unread_price (product : offer) (item site_pref : str) :
  title_is_str product ->
  (forall f, parse_price (dict_get product "price" (PStr "")) <> Ok f) ->
  should_include_product SITE_DOMAINS urlparse_netloc product item site_pref = Ok false.
Proof.
  intros [t Ht] Hprice. unfold should_include_product. rewrite Ht.
  cbn [as_str mbind res_bind].
  destruct (negb (truthy (PStr (lower t))) || _); [done|].
  destruct (parse_price _) as [f|e]; [|done]. by destruct (Hprice f).
Qed.

Lemma should_include_product_price (product : offer) (item site_pref : str) :
  should_include_product SITE_DOMAINS urlparse_netloc product item site_pref = Ok true ->
  exists f q,
    parse_price (dict_get product "price" (PStr "")) = Ok f
    /\ float_val f = Some (XFin q) /\ (1 <= q)%Q /\ (q <= 10000)%Q.
Proof.
  unfold should_include_product. intros H.
  destruct (as_str _) as [t|]; [|done]. cbn [mbind res_bind] in H.
  destruct (negb (truthy (PStr (lower t))) || _); [done|].
  destruct (parse_price _) as [f|] eqn:Hparse; [|done].
  destruct (num_le (NFloat f) (NInt 0)); [done|].
  destruct (negb (is_semantically_relevant (lower t) item)); [done|].
  destruct (is_accessory_or_irrelevant (lower t) item); [done|].
  destruct (is_used_or_refurbished product (lower t)); [done|].
  destruct (is_from_correct_site SITE_DOMAINS urlparse_netloc product site_pref)
    as [[|]|]; try done.
  simpl in H.
  destruct (is_price_reasonable f item) eqn:Hband; [|done].
  destruct (is_price_reasonable_bounds f item Hband) as (q & Hq & H1 & H2).
  by exists f, q.
Qed.

(** X13. What else holds of an offer that passes the Filter Chain: its
    price has a finite value between 1 and 10000 and is reasonable for the
    item; its title has a word of the item that is no stop word, or the
    item has no such word; it has no [second_hand_condition] field and
    none of the used-goods keywords in its lower-cased title; and it is
    from the preferred retailer. *)
Theorem should_include_product_checks (product : offer) (item site_pref : str) :
  should_include_product SITE_DOMAINS urlparse_netloc product item site_pref = Ok true ->
  exists t f q,
    dict_get product "title" (PStr "") = PStr t
    /\ parse_price (dict_get product "price" (PStr "")) = Ok f
    /\ float_val f = Some (XFin q) /\ (1 <= q)%Q /\ (q <= 10000)%Q
    /\ is_price_reasonable f item = true
    /\ is_semantically_relevant t item = true
    /\ product !! "second_hand_condition" = None
    /\ (forall keyword, keyword ∈ used_keywords -> contains keyword (lower t) = false)
    /\ is_from_correct_site SITE_DOMAINS urlparse_netloc product site_pref = Ok true.
Proof.
  unfold should_include_product. intros H.
  destruct (dict_get product "title" (PStr "")) as [| | | |t] eqn:Ht; try done.
  cbn [as_str mbind res_bind] in H.
  destruct (negb (truthy (PStr (lower t))) || _); [done|].
  destruct (parse_price _) as [f|] eqn:Hparse; [|done].
  destruct (num_le (NFloat f) (NInt 0)); [done|].
  destruct (is_semantically_relevant (lower t) item) eqn:Hrel; [|done]. simpl in H.
  destruct (is_accessory_or_irrelevant (lower t) item); [done|].
  destruct (is_used_or_refurbished product (lower t)) eqn:Hused; [done|].
  destruct (is_from_correct_site SITE_DOMAINS urlparse_netloc product site_pref)
    as [[|]|] eqn:Hsite; try done.
  simpl in H.
  destruct (is_price_reasonable f item) eqn:Hband; [|done].
  destruct (is_price_reasonable_bounds f item Hband) as (q & Hq & H1 & H2).
  exists t, f, q. rewrite is_semantically_relevant_lower in Hrel.
  unfold is_used_or_refurbished, has_key in Hused.
  destruct (product !! "second_hand_condition") as [v|] eqn:Hkey.
  { rewrite bool_decide_eq_true_2 in Hused by (by eexists). done. }
  rewrite bool_decide_eq_false_2 in Hused by (by intros [? ?]).
  repeat (split; [done|]). split; [|done].
  intros keyword Hk. by apply (existsb_false_forall _ _ keyword Hused).
Qed.

End FilterChecks.

Lemma is_from_correct_site_edges_witness :
  is_from_correct_site site_domains_example netloc_fails offer_null_source "ANY" = Ok true
  /\ (exists b, is_from_correct_site site_domains_example netloc_fails offer_iphone "Target"
                = Ok b)
  /\ is_from_correct_site site_domains_example netloc_fails offer_null_source "Amazon"
     = Raise AttributeError
  /\ is_from_correct_site site_domains_example netloc_fails offer_iphone "  " = Ok true.
Proof.
  assert (source_is_str offer_iphone) as Hs by (eexists; vm_compute; reflexivity).
  assert (~ source_is_str offer_null_source) as Hn.
  { intros [s E]. vm_compute in E. discriminate. }
  split; [|split; [|split]].
  - apply (proj1 (is_from_correct_site_edges site_domains_example netloc_fails
                    offer_null_source "ANY")).
    vm_compute. reflexivity.
  - apply (proj1 (proj2 (is_from_correct_site_edges site_domains_example netloc_fails
                           offer_iphone "Target"))), Hs.
  - apply (proj1 (proj2 (proj2 (is_from_correct_site_edges site_domains_example netloc_fails
                                  offer_null_source "Amazon")))); [|exact Hn].
    vm_compute. discriminate.
  - apply (proj2 (proj2 (proj2 (is_from_correct_site_edges site_domains_example netloc_fails
                                  offer_iphone "  ")))); [|exact Hs].
    vm_compute. reflexivity.
Defined.

Lemma should_include_product_unread_price_witness :
  should_include_product site_domains_example netloc_example offer_number_price "iphone" "Any"
  = Ok false
  /\ should_include_product site_domains_example netloc_example offer_free "iphone" "Any"
     = Ok false.
Proof.
  split.
  - apply (should_include_product_unread_price site_domains_example netloc_example
             offer_number_price "iphone" "Any").
    + eexists. vm_compute. reflexivity.
    + intros f. vm_compute. discriminate.
  - apply (should_include_product_unread_price site_domains_example netloc_example
             offer_free "iphone" "Any").
    + eexists. vm_compute. reflexivity.
    + intros f. vm_compute. discriminate.
Defined.

Lemma should_include_product_checks_witness :
  exists t f q,
    dict_get offer_iphone "title" (PStr "") = PStr t
    /\ parse_price (dict_get offer_iphone "price" (PStr "")) = Ok f
    /\ float_val f = Some (XFin q) /\ (1 <= q)%Q /\ (q <= 10000)%Q
    /\ is_price_reasonable f "iphone" = true
    /\ is_semantically_relevant t "iphone" = true
    /\ offer_iphone !! "second_hand_condition" = None
    /\ (forall keyword, keyword ∈ used_keywords -> contains keyword (lower t) = false)
    /\ is_from_correct_site site_domains_example netloc_example offer_iphone "Amazon"
       = Ok true.
Proof.
  apply (should_include_product_checks site_domains_example netloc_example
           offer_iphone "iphone" "Amazon").
  vm_compute. reflexivity.
Defined.

(** ** Filter Chain: letter case, and the list *)

Lemma dict_get_set_eq (d : dict) k v dflt : dict_get (dict_set d k v) k dflt = v.
Proof. unfold dict_get, dict_set. by rewrite dict_lookup_insert_eq. Qed.

Lemma dict_get_set_ne (d : dict) k k' v dflt :
  k <> k' -> dict_get (dict_set d k v) k' dflt = dict_get d k' dflt.
Proof. intros H. unfold dict_get, dict_set. by rewrite dict_lookup_insert_ne. Qed.

Lemma has_key_set_ne (d : dict) k k' v : k <> k' -> has_key (dict_set d k v) k' = has_key d k'.
Proof. intros H. unfold has_key, dict_set. by rewrite dict_lookup_insert_ne. Qed.

Lemma is_semantically_relevant_item_ci title item item' :
  lower item' = lower item ->
  is_semantically_relevant title item' = is_semantically_relevant title item.
Proof. intros H. unfold is_semantically_relevant. by rewrite H. Qed.

Lemma is_accessory_item_ci title item item' :
  lower item' = lower item ->
  is_accessory_or_irrelevant title item' = is_accessory_or_irrelevant title item.
Proof. intros H. unfold is_accessory_or_irrelevant. by rewrite H. Qed.

Lemma is_price_reasonable_item_ci price item item' :
  lower item' = lower item -> is_price_reasonable price item' = is_price_reasonable price item.
Proof. intros H. unfold is_price_reasonable. by rewrite H. Qed.

Section FilterList.

Variable SITE_DOMAINS : str -> option (list str).
Variable urlparse_netloc : str -> res str.

Lemma is_from_correct_site_pref_ci product site_pref site_pref' :
  lower site_pref' = lower site_pref ->
  is_from_correct_site SITE_DOMAINS urlparse_netloc product site_pref'
  = is_from_correct_site SITE_DOMAINS urlparse_netloc product site_pref.
Proof. intros H. unfold is_from_correct_site, get_site_domains. by rewrite H. Qed.

Lemma is_from_correct_site_retitled product site_pref v :
  is_from_correct_site SITE_DOMAINS urlparse_netloc (dict_set product "title" v) site_pref
  = is_from_correct_site SITE_DOMAINS urlparse_netloc product site_pref.
Proof. unfold is_from_correct_site. by rewrite !dict_get_set_ne. Qed.

Lemma relevance_score_ci (product : offer) (t t' item item' : str) :
  dict_get product "title" (PStr "") = PStr t ->
  lower t' = lower t -> lower item' = lower item ->
  relevance_score (dict_set product "title" (PStr t')) item' = relevance_score product item.
Proof.
  intros Ht Hcase Hitem. unfold relevance_score.
  rewrite dict_get_set_eq, Ht, !dict_get_set_ne by done.
  cbn [as_str mbind res_bind]. by rewrite Hcase, Hitem.
Qed.

(** X14. The Filter Chain and the Scorer look at no letter case: an offer
    whose title is written in another case, judged for an item and a
    retailer preference written in another case, gets the same verdict, or
    the same exception, and the same score. *)
Theorem filter_and_score_ignore_case
    (product : offer) (t t' item item' site_pref site_pref' : str) :
  dict_get product "title" (PStr "") = PStr t ->
  lower t' = lower t -> lower item' = lower item -> lower site_pref' = lower site_pref ->
  should_include_product SITE_DOMAINS urlparse_netloc
    (dict_set product "title" (PStr t')) item' site_pref'
  = should_include_product SITE_DOMAINS urlparse_netloc product item site_pref
  /\ relevance_score (dict_set product "title" (PStr t')) item'
     = relevance_score product item.
Proof.
  intros Ht Hcase Hitem Hsite. split; [|by apply (relevance_score_ci product t)].
  unfold should_include_product.
  rewrite dict_get_set_eq, Ht, dict_get_set_ne by done.
  cbn [as_str mbind res_bind]. rewrite Hcase.
  rewrite (is_semantically_relevant_item_ci _ _ _ Hitem), (is_accessory_item_ci _ _ _ Hitem).
  rewrite is_from_correct_site_retitled, (is_from_correct_site_pref_ci _ _ _ Hsite).
  unfold is_used_or_refurbished. rewrite has_key_set_ne by done.
  destruct (negb _ || _); [done|].
  destruct (parse_price _) as [f|]; [|done].
  by rewrite (is_price_reasonable_item_ci f _ _ Hitem).
Qed.

Lemma filterM_res_spec {A} (f : A -> res bool) (l out : list A) :
  filterM_res f l = Ok out ->
  sublist out l
  /\ Forall (fun x => f x = Ok true) out
  /\ (forall x, x ∈ l -> f x = Ok true -> x ∈ out)
  /\ filterM_res f out = Ok out.
Proof.
  revert out. induction l as [|x l IH]; intros out; simpl.
  - intros [= <-]. split; [done|]. split; [done|]. split; [done|]. done.
  - destruct (f x) as [b|] eqn:Hb; simpl; [|done].
    destruct (filterM_res f l) as [ys|]; simpl; [|done].
    destruct (IH ys eq_refl) as (H1 & H2 & H3 & H4). intros [= <-].
    destruct b.
    + split; [by apply sublist_skip|]. split; [by constructor|]. split.
      * intros y [->|Hy]%elem_of_cons Hf; [apply list_elem_of_here|].
        apply elem_of_cons; right. by apply H3.
      * simpl. by rewrite Hb, H4.
    + split; [by apply sublist_cons|]. split; [done|]. split; [|done].
      intros y [->|Hy]%elem_of_cons Hf; [congruence|by apply H3].
Qed.

(** X15. The list filter keeps exactly the offers that pass the Filter Chain,
    in the order of the input, and filtering its output again changes
    nothing. *)
Theorem apply_comprehensive_filters_spec (results out : list offer) (item site_pref : str) :
  apply_comprehensive_filters SITE_DOMAINS urlparse_netloc results item site_pref = Ok out ->
  sublist out results
  /\ Forall (fun p => should_include_product SITE_DOMAINS urlparse_netloc p item site_pref
                      = Ok true) out
  /\ (forall p, p ∈ results ->
        should_include_product SITE_DOMAINS urlparse_netloc p item site_pref = Ok true ->
        p ∈ out)
  /\ apply_comprehensive_filters SITE_DOMAINS urlparse_netloc out item site_pref = Ok out.
Proof. apply filterM_res_spec. Qed.

End FilterList.

Lemma filter_and_score_ignore_case_witness :
  should_include_product site_domains_example netloc_example
    (dict_set offer_iphone "title" (PStr "APPLE IPHONE 15 128gb")) "IPHONE" "AMAZON"
  = should_include_product site_domains_example netloc_example offer_iphone "iPhone" "amazon"
  /\ relevance_score (dict_set offer_iphone "title" (PStr "APPLE IPHONE 15 128gb")) "IPHONE"
     = relevance_score offer_iphone "iPhone".
Proof.
  apply (filter_and_score_ignore_case site_domains_example netloc_example
           offer_iphone "Apple iPhone 15 128GB"); vm_compute; reflexivity.
Defined.

Lemma apply_comprehensive_filters_spec_witness :
  exists out,
    apply_comprehensive_filters site_domains_example netloc_example
      [offer_A; offer_free; offer_iphone; offer_number_price] "iphone" "Any" = Ok out
    /\ out = [offer_iphone]
    /\ sublist out [offer_A; offer_free; offer_iphone; offer_number_price]
    /\ apply_comprehensive_filters site_domains_example netloc_example out "iphone" "Any"
       = Ok out.
Proof.
  exists [offer_iphone].
  assert (apply_comprehensive_filters site_domains_example netloc_example
            [offer_A; offer_free; offer_iphone; offer_number_price] "iphone" "Any"
          = Ok [offer_iphone]) as H by (vm_compute; reflexivity).
  split; [exact H|]. split; [done|].
  destruct (apply_comprehensive_filters_spec site_domains_example netloc_example _ _ _ _ H)
    as (H1 & _ & _ & H4).
  by split.
Defined.

(** ** [sorted]: what every sort keeps *)

Lemma mapM_res_keyed {A K} (key : A -> res K) (l : list A) (keyed : list (K * A)) :
  mapM_res (fun x => k ← key x; Ok (k, x)) l = Ok keyed ->
  map snd keyed = l /\ Forall (fun p => key (snd p) = Ok (fst p)) keyed.
Proof.
  revert keyed. induction l as [|x l IH]; intros keyed; simpl.
  - intros [= <-]. by split.
  - destruct (key x) as [k|] eqn:Hk; simpl; [|done].
    destruct (mapM_res _ l) as [ys|]; simpl; [|done].
    destruct (IH ys eq_refl) as [H1 H2]. intros [= <-]. simpl. split; [by f_equal|].
    by constructor.
Qed.

Lemma sorted_inv {A K} (key : A -> res K) (lt : K -> K -> res bool) (reverse : bool)
    (l out : list A) :
  sorted key lt reverse l = Ok out ->
  exists keyed s,
    map snd keyed = l
    /\ Forall (fun p => key (snd p) = Ok (fst p)) keyed
    /\ sort_with (fun a b : K * A => lt (fst a) (fst b))
         (if reverse then rev keyed else keyed) = Ok s
    /\ out = map snd (if reverse then rev s else s).
Proof.
  unfold sorted. intros H.
  destruct (mapM_res _ l) as [keyed|] eqn:Hkeyed; simpl in H; [|done].
  destruct (mapM_res_keyed key l keyed Hkeyed) as [H1 H2].
  exists keyed. destruct reverse.
  - destruct (sort_with _ (rev keyed)) as [s|] eqn:Hs; simpl in H; [|done].
    injection H as <-. by exists s.
  - destruct (sort_with _ keyed) as [s|] eqn:Hs; simpl in H; [|done].
    injection H as <-. by exists s.
Qed.

Lemma sorted_perm {A K} (key : A -> res K) (lt : K -> K -> res bool) (reverse : bool)
    (l out : list A) :
  sorted key lt reverse l = Ok out -> Permutation out l.
Proof.
  intros (keyed & s & H1 & _ & Hs & ->)%sorted_inv. rewrite <- H1.
  apply sort_with_perm in Hs. apply Permutation_map.
  destruct reverse; [|done].
  by rewrite <- Permutation_rev, Hs, <- Permutation_rev.
Qed.

Lemma StronglySorted_snoc {A} (R : A -> A -> Prop) (l : list A) (a : A) :
  StronglySorted R l -> Forall (fun y => R y a) l -> StronglySorted R (l ++ [a]).
Proof.
  induction 1 as [|b l Hs IH Hb]; intros Ha; simpl.
  - repeat constructor.
  - apply Forall_cons in Ha as [Hba Ha]. constructor; [by apply IH|].
    apply Forall_app. split; [done|]. by constructor.
Qed.

Lemma StronglySorted_rev {A} (R : A -> A -> Prop) (l : list A) :
  StronglySorted R l -> StronglySorted (fun x y => R y x) (rev l).
Proof.
  induction 1 as [|a l Hs IH Ha]; simpl; [constructor|].
  apply StronglySorted_snoc; [done|].
  apply Forall_forall. intros y Hy. apply list_elem_of_In, in_rev, list_elem_of_In in Hy.
  by apply (proj1 (Forall_forall _ _) Ha).
Qed.

(** The keys of the output are in order, ascending, or descending for a
    reverse sort, when [lt] is a total order on them. *)
Lemma sorted_in_order {A K} (key : A -> res K) (lt : K -> K -> res bool)
    (P : K -> Prop) (le : K -> K -> Prop) (reverse : bool) (l out : list A) :
  (forall a b, P a -> P b -> exists r, lt a b = Ok r /\ if r : bool then le a b else le b a) ->
  (forall a b c, le a b -> le b c -> le a c) ->
  sorted key lt reverse l = Ok out ->
  Forall (fun x => exists k, key x = Ok k /\ P k) l ->
  forall i j x y, (i < j)%nat -> out !! i = Some x -> out !! j = Some y ->
    exists kx ky, key x = Ok kx /\ key y = Ok ky
                  /\ if reverse then le ky kx else le kx ky.
Proof.
  intros Htotal Htrans Hout HP.
  destruct (sorted_inv key lt reverse l out Hout) as (keyed & s & H1 & Hk & Hs & ->).
  set (lt2 := fun a b : K * A => lt (fst a) (fst b)) in *.
  assert (Forall (fun p : K * A => P (fst p)) keyed) as HPk.
  { apply Forall_forall. intros p Hp.
    pose proof (proj1 (Forall_forall _ _) Hk p Hp) as Hkp.
    destruct (proj1 (Forall_forall _ _) HP (snd p)) as (k & Hk' & Pk).
    { rewrite <- H1. by apply list_elem_of_In, in_map, list_elem_of_In. }
    congruence. }
  assert (Forall (fun p : K * A => P (fst p)) (if reverse then rev keyed else keyed)) as HPk'.
  { destruct reverse; [|done]. apply Forall_forall. intros p Hp.
    apply list_elem_of_In, in_rev, list_elem_of_In in Hp.
    by apply (proj1 (Forall_forall _ _) HPk). }
  destruct (sort_with_sorted lt2 (fun p => P (fst p)) (fun p q => le (fst p) (fst q)))
    with (l := if reverse then rev keyed else keyed) as (s' & Hs' & Hsorted);
    [intros a b; apply Htotal|intros a b c; apply Htrans|done|].
  rewrite Hs in Hs'. injection Hs' as <-.
  assert (Forall (fun p : K * A => key (snd p) = Ok (fst p)) s) as Hks.
  { apply sort_with_perm in Hs. rewrite Hs. destruct reverse; [|done].
    by rewrite <- Permutation_rev. }
  intros i j x y Hij Hi Hj.
  change (map snd ?u) with (snd <$> u) in Hi, Hj.
  apply list_lookup_fmap_Some in Hi as (p & -> & Hp).
  apply list_lookup_fmap_Some in Hj as (q & -> & Hq).
  exists (fst p), (fst q).
  assert (p ∈ s /\ q ∈ s) as [Hps Hqs].
  { destruct reverse; apply list_elem_of_lookup_2 in Hp, Hq; [|done].
    split; by apply list_elem_of_In, in_rev, list_elem_of_In. }
  split; [by apply (proj1 (Forall_forall _ _) Hks)|].
  split; [by apply (proj1 (Forall_forall _ _) Hks)|].
  destruct reverse.
  - apply StronglySorted_rev in Hsorted.
    apply (StronglySorted_lookup _ (rev s) i j p q Hsorted Hij Hp Hq).
  - apply (StronglySorted_lookup _ s i j p q Hsorted Hij Hp Hq).
Qed.

(** ** Sorter: nothing is lost *)

Lemma same_fields_annotate p : same_fields p (annotate_price p).
Proof.
  intros k H1 H2. unfold annotate_price, dict_set. by rewrite dict_lookup_insert_ne.
Qed.

Lemma same_fields_scored p x v : same_fields p x -> same_fields p (dict_set x "relevance_score" v).
Proof.
  intros H k H1 H2. unfold dict_set. rewrite dict_lookup_insert_ne by done. by apply H.
Qed.

Lemma annotate_price_numeric p :
  exists f, annotate_price p !! "numeric_price" = Some (PFloat f).
Proof. unfold annotate_price, dict_set. rewrite dict_lookup_insert_eq. by eexists. Qed.

Lemma scores_inv (l scored : list offer) (item : str) :
  calculate_advanced_relevance_scores l item = Ok scored ->
  Forall2 (fun p x => exists score, relevance_score p item = Ok score
                                    /\ x = dict_set p "relevance_score" score) l scored.
Proof.
  intros H%mapM_res_Forall2. eapply Forall2_impl; [exact H|].
  intros p x Hx. simpl in Hx.
  destruct (relevance_score p item) as [score|]; simpl in Hx; [|done].
  injection Hx as <-. by exists score.
Qed.

Lemma annotated_annotate p : annotated p (annotate_price p).
Proof. split; [apply same_fields_annotate|done]. Qed.

Lemma annotated_scored p x v : annotated p x -> annotated p (dict_set x "relevance_score" v).
Proof.
  intros [H1 H2]. split; [by apply same_fields_scored|].
  unfold dict_set. by rewrite dict_lookup_insert_ne.
Qed.

Lemma annotated_numeric p x : annotated p x -> exists f, x !! "numeric_price" = Some (PFloat f).
Proof. intros [_ ->]. apply annotate_price_numeric. Qed.

Lemma scored_annotated (l scored : list offer) (item : str) :
  calculate_advanced_relevance_scores (map annotate_price l) item = Ok scored ->
  Forall2 annotated l scored.
Proof.
  intros Hs%scores_inv. revert scored Hs.
  induction l as [|p l IH]; intros scored Hs; simpl in Hs.
  - apply Forall2_nil_inv_l in Hs as ->. constructor.
  - apply Forall2_cons_inv_l in Hs as (x & xs & (score & _ & ->) & Hxs & ->).
    constructor; [|by apply IH]. apply annotated_scored, annotated_annotate.
Qed.

(** What the Sorter sorts: the offers with their numeric price, and, under
    the Balanced policy, their score. *)
Lemma sort_results_inv (l : list offer) (sort_pref item : str) (out : list offer) :
  sort_results l sort_pref item = Ok out ->
  exists l', Permutation out l' /\ Forall2 annotated l l'.
Proof.
  unfold sort_results. intros H.
  assert (Forall2 annotated l (map annotate_price l)) as Ha.
  { clear. induction l; constructor; [apply annotated_annotate|done]. }
  destruct (bool_decide (sort_pref = lit "Cheapest")).
  { exists (map annotate_price l). split; [by apply sorted_perm in H|done]. }
  destruct (bool_decide (sort_pref = lit "Highest Rated") && _).
  { exists (map annotate_price l). split; [by apply sorted_perm in H|done]. }
  destruct (calculate_advanced_relevance_scores _ item) as [scored|] eqn:Hs;
    simpl in H; [|done].
  exists scored. split; [by apply sorted_perm in H|by apply (scored_annotated l scored item)].
Qed.

(** X16. Under every policy the Sorter returns the offers it was given, each
    of them once, with the field [numeric_price] added and, under the
    Balanced policy, [relevance_score]; no other field is touched and no
    offer is lost or repeated. *)
Theorem sort_results_permutation (l : list offer) (sort_pref item : str) (out : list offer) :
  sort_results l sort_pref item = Ok out ->
  length out = length l
  /\ exists l', Permutation out l'
       /\ Forall2 same_fields l l'
       /\ Forall (fun x => exists f, x !! "numeric_price" = Some (PFloat f)) out.
Proof.
  intros (l' & Hperm & Hsame)%sort_results_inv. split.
  - rewrite Hperm. symmetry. by apply Forall2_length in Hsame.
  - exists l'. split; [done|]. split.
    + eapply Forall2_impl; [exact Hsame|]. by intros p x [H _].
    + rewrite Hperm. clear Hperm. induction Hsame as [|p x l l' Hpx _ IH]; constructor; [|done].
      by apply (annotated_numeric p).
Qed.

Lemma sort_results_permutation_witness :
  exists out,
    sort_results [offer_p1; offer_p2; offer_p3] "Highest Rated" "desk lamp" = Ok out
    /\ map (fun x => dict_get_none x "product_id") out = [PStr "p3"; PStr "p1"; PStr "p2"]
    /\ length out = 3%nat
    /\ exists l', Permutation out l'
         /\ Forall2 same_fields [offer_p1; offer_p2; offer_p3] l'
         /\ Forall (fun x => exists f, x !! "numeric_price" = Some (PFloat f)) out.
Proof.
  eexists. split; [vm_compute; reflexivity|]. split; [vm_compute; reflexivity|].
  apply (sort_results_permutation [offer_p1; offer_p2; offer_p3] "Highest Rated" "desk lamp").
  vm_compute. reflexivity.
Defined.

(** ** Comparison by value *)

Lemma val_le_trans a b c : val_le a b -> val_le b c -> val_le a c.
Proof. apply xval_compare_le_trans. Qed.

Lemma py_lt_val_total a b :
  has_value a -> has_value b ->
  exists r, py_lt a b = Ok r /\ if r : bool then val_le a b else val_le b a.
Proof.
  intros Ha Hb. rewrite (py_lt_valued a b Ha Hb). eexists. split; [done|].
  unfold val_le. rewrite (xval_compare_antisym (xv a) (xv b)).
  destruct (xval_compare (xv a) (xv b)); simpl; done.
Qed.

Lemma val_le_num_le a b :
  has_value a -> has_value b -> val_le a b -> num_le (num_of a) (num_of b) = true.
Proof.
  intros Ha Hb H. unfold num_le, val_le in *. rewrite (num_of_compare a b Ha Hb).
  by destruct (xval_compare (xv a) (xv b)).
Qed.

Lemma same_value_not_lt v a b :
  has_value a -> has_value b -> same_value v a = true -> same_value v b = true ->
  py_lt b a = Ok false.
Proof.
  intros Ha Hb Ea Eb. rewrite (py_lt_valued b a Hb Ha). f_equal.
  apply bool_decide_eq_false. unfold same_value in *.
  destruct (xval_compare (xv a) v) eqn:E1; try done.
  destruct (xval_compare (xv b) v) eqn:E2; try done.
  rewrite (xval_compare_Eq_l _ _ (xv a) E2), (xval_compare_antisym (xv a) v), E1. done.
Qed.

(** ** [sorted] is stable *)

Lemma insert_sorted_filter {A} (lt : A -> A -> res bool) (E : A -> bool) x l out :
  insert_sorted lt x l = Ok out ->
  (E x = true -> forall y, y ∈ l -> E y = true -> lt y x = Ok false) ->
  List.filter E out = List.filter E (x :: l).
Proof.
  revert out. induction l as [|y l IH]; intros out; simpl.
  - by intros [= <-].
  - destruct (lt y x) as [[|]|] eqn:Hyx; simpl; try done.
    + destruct (insert_sorted lt x l) as [r|]; simpl; [|done].
      intros [= <-] Heq. simpl. rewrite (IH r eq_refl).
      * simpl. destruct (E x) eqn:Ex; [|done]. destruct (E y) eqn:Ey; [|done].
        rewrite (Heq eq_refl y) in Hyx; [done|apply list_elem_of_here|done].
      * intros Ex z Hz. apply Heq; [done|]. by apply elem_of_cons; right.
    + by intros [= <-].
Qed.

Lemma sort_with_filter {A} (lt : A -> A -> res bool) (P : A -> Prop) (E : A -> bool) l out :
  (forall x y, P x -> P y -> E x = true -> E y = true -> lt y x = Ok false) ->
  Forall P l -> sort_with lt l = Ok out -> List.filter E out = List.filter E l.
Proof.
  intros Heq. revert out. induction l as [|x l IH]; intros out Hl; simpl.
  - by intros [= <-].
  - apply Forall_cons in Hl as [Hx Hl].
    destruct (sort_with lt l) as [s|] eqn:Hs; simpl; [|done]. intros Hout.
    rewrite (insert_sorted_filter lt E x s out Hout).
    + simpl. by rewrite (IH s Hl eq_refl).
    + intros Ex y Hy Ey. apply Heq; [done| |done|done].
      apply sort_with_perm in Hs. rewrite Hs in Hy.
      by apply (proj1 (Forall_forall _ _) Hl).
Qed.

Lemma filter_map_snd {A K} (E : A -> bool) (s : list (K * A)) :
  List.filter E (map snd s) = map snd (List.filter (fun p => E (snd p)) s).
Proof.
  induction s as [|p s IH]; simpl; [done|]. destruct (E (snd p)); simpl; by rewrite IH.
Qed.

Lemma filter_rev {A} (E : A -> bool) (l : list A) :
  List.filter E (rev l) = rev (List.filter E l).
Proof.
  induction l as [|x l IH]; simpl; [done|].
  rewrite List.filter_app, IH. simpl. destruct (E x); simpl; [done|by rewrite app_nil_r].
Qed.

(** Offers that the sort cannot tell apart stay in the order of the input,
    also in a reverse sort. *)
Lemma sorted_stable {A K} (key : A -> res K) (lt : K -> K -> res bool)
    (Q : A -> Prop) (E : A -> bool) (reverse : bool) (l out : list A) :
  (forall x y kx ky, Q x -> Q y -> key x = Ok kx -> key y = Ok ky ->
     E x = true -> E y = true -> lt ky kx = Ok false) ->
  sorted key lt reverse l = Ok out -> Forall Q l ->
  List.filter E out = List.filter E l.
Proof.
  intros Heq Hout HQ.
  destruct (sorted_inv key lt reverse l out Hout) as (keyed & s & H1 & Hk & Hs & ->).
  assert (Forall (fun p : K * A => Q (snd p) /\ key (snd p) = Ok (fst p)) keyed) as HP.
  { apply Forall_forall. intros p Hp. split; [|by apply (proj1 (Forall_forall _ _) Hk)].
    apply (proj1 (Forall_forall _ _) HQ). rewrite <- H1.
    by apply list_elem_of_In, in_map, list_elem_of_In. }
  assert (Forall (fun p : K * A => Q (snd p) /\ key (snd p) = Ok (fst p))
                 (if reverse then rev keyed else keyed)) as HP'.
  { destruct reverse; [|done]. apply Forall_forall. intros p Hp.
    apply list_elem_of_In, in_rev, list_elem_of_In in Hp.
    by apply (proj1 (Forall_forall _ _) HP). }
  pose proof (sort_with_filter _ _ (fun p : K * A => E (snd p)) _ s
                (fun x y '(conj Qx Kx) '(conj Qy Ky) Ex Ey =>
                   Heq (snd x) (snd y) (fst x) (fst y) Qx Qy Kx Ky Ex Ey) HP' Hs) as Hf.
  rewrite <- H1, !filter_map_snd. f_equal.
  destruct reverse; [|done].
  by rewrite filter_rev, Hf, filter_rev, rev_involutive.
Qed.

(** ** Sorter: the Cheapest policy *)

Lemma price_of_annotated l :
  Forall (fun x : offer => exists f, price_of x = PFloat f) (map annotate_price l).
Proof.
  apply Forall_forall. intros x (p & <- & _)%list_elem_of_In%in_map_iff.
  apply annotate_price_price.
Qed.

Lemma sorted_cheapest_ok l :
  exists out, sorted (fun x => Ok (price_of x)) py_lt false (map annotate_price l) = Ok out.
Proof.
  apply (sorted_ok _ _ (fun k => is_int_or_float k = true)).
  - eapply Forall_impl; [apply price_of_annotated|].
    intros x [f Hf]. eexists. split; [done|]. by rewrite Hf.
  - apply py_lt_numbers.
Qed.

Lemma Forall_valued_perm {A} (f : A -> pyval) (out l : list A) :
  Permutation out l -> Forall (fun x => has_value (f x)) out ->
  Forall (fun x => exists k, (fun x => Ok (f x)) x = @Ok pyval k /\ has_value k) l.
Proof.
  intros Hperm H. rewrite <- Hperm. eapply Forall_impl; [exact H|].
  intros x Hx. by exists (f x).
Qed.

(** X17. The Cheapest sort returns for every list of offers, whatever their
    fields hold. When no numeric price is a NaN, the prices of its output
    ascend, and offers at the same price keep the order of the input. *)
Theorem sort_results_cheapest (l : list offer) (item : str) :
  exists out,
    sort_results l "Cheapest" item = Ok out
    /\ (Forall (fun x => has_value (price_of x)) out ->
        (forall i j x y, (i < j)%nat -> out !! i = Some x -> out !! j = Some y ->
           num_le (num_of (price_of x)) (num_of (price_of y)) = true)
        /\ (forall v, List.filter (fun x => same_value v (price_of x)) out
                      = List.filter (fun x => same_value v (price_of x))
                          (map annotate_price l))).
Proof.
  destruct (sorted_cheapest_ok l) as [out Hout]. exists out.
  split; [exact Hout|]. intros Hval.
  pose proof (sorted_perm _ _ _ _ _ Hout) as Hperm.
  split.
  - intros i j x y Hij Hi Hj.
    destruct (sorted_in_order (fun x => Ok (price_of x)) py_lt has_value val_le false
                (map annotate_price l) out py_lt_val_total val_le_trans Hout
                (Forall_valued_perm price_of _ _ Hperm Hval) i j x y Hij Hi Hj)
      as (kx & ky & [= <-] & [= <-] & Hle).
    apply val_le_num_le; [| |done].
    + apply (proj1 (Forall_forall _ _) Hval). by apply list_elem_of_lookup_2 in Hi.
    + apply (proj1 (Forall_forall _ _) Hval). by apply list_elem_of_lookup_2 in Hj.
  - intros v.
    apply (sorted_stable (fun x => Ok (price_of x)) py_lt (fun x => has_value (price_of x))
             (fun x => same_value v (price_of x)) false _ _); [|done|by rewrite <- Hperm].
    intros x y kx ky Qx Qy [= <-] [= <-] Ex Ey. by apply (same_value_not_lt v).
Qed.

Lemma sort_results_cheapest_witness :
  exists out,
    sort_results [offer_p2; offer_p1; offer_nan; offer_p3] "Cheapest" "desk lamp" = Ok out
    /\ exists out',
         sort_results [offer_p2; offer_p1; offer_p3] "Cheapest" "desk lamp" = Ok out'
         /\ map (fun x => dict_get_none x "product_id") out' = [PStr "p1"; PStr "p3"; PStr "p2"]
         /\ forall i j x y, (i < j)%nat -> out' !! i = Some x -> out' !! j = Some y ->
              num_le (num_of (price_of x)) (num_of (price_of y)) = true.
Proof.
  destruct (sort_results_cheapest [offer_p2; offer_p1; offer_nan; offer_p3] "desk lamp")
    as (out & Hout & _).
  exists out. split; [exact Hout|].
  destruct (sort_results_cheapest [offer_p2; offer_p1; offer_p3] "desk lamp")
    as (out' & Hout' & Hord).
  exists out'. split; [exact Hout'|].
  assert (exists o, sort_results [offer_p2; offer_p1; offer_p3] "Cheapest" "desk lamp" = Ok o
                    /\ map (fun x => dict_get_none x "product_id") o
                       = [PStr "p1"; PStr "p3"; PStr "p2"]
                    /\ Forall (fun x => has_value (price_of x)) o) as (o & Ho & Hids & Hval).
  { eexists. split; [vm_compute; reflexivity|]. split; [vm_compute; reflexivity|].
    repeat constructor; eexists _, _; split; vm_compute; reflexivity. }
  rewrite Hout' in Ho. injection Ho as <-.
  split; [exact Hids|]. exact (proj1 (Hord Hval)).
Defined.

(** ** Sorter: the Highest Rated policy *)

Lemma rating_of_annotated p : rating_of (annotate_price p) = rating_of p.
Proof. unfold rating_of. by rewrite annotate_price_get. Qed.

Lemma some_rating_annotated l :
  Exists (fun p : offer => is_Some (p !! "rating")) l ->
  existsb (fun p => has_key p "rating") (map annotate_price l) = true.
Proof.
  intros (p & Hp & Hr)%Exists_exists. apply existsb_exists. exists (annotate_price p).
  split; [by apply in_map, list_elem_of_In|].
  rewrite annotate_price_rating. unfold has_key. by apply bool_decide_eq_true.
Qed.

(** X18. When at least one offer has a rating and every rating is a number
    that is no NaN (an absent rating counts as 0), the Highest Rated sort
    returns, the ratings of its output descend, and offers with the same
    rating keep the order of the input. *)
Theorem sort_results_rating_descending (l : list offer) (item : str) :
  Exists (fun p : offer => is_Some (p !! "rating")) l ->
  Forall (fun p => has_value (rating_of p)) l ->
  exists out,
    sort_results l "Highest Rated" item = Ok out
    /\ (forall i j x y, (i < j)%nat -> out !! i = Some x -> out !! j = Some y ->
          num_le (num_of (rating_of y)) (num_of (rating_of x)) = true)
    /\ (forall v, List.filter (fun x => same_value v (rating_of x)) out
                  = List.filter (fun x => same_value v (rating_of x)) (map annotate_price l)).
Proof.
  intros Hsome Hval. unfold sort_results.
  rewrite (some_rating_annotated l Hsome).
  rewrite bool_decide_eq_false_2 by (vm_compute; discriminate).
  rewrite bool_decide_eq_true_2 by done. cbn [andb].
  assert (Forall (fun x => has_value (rating_of x)) (map annotate_price l)) as Hval'.
  { apply Forall_forall. intros x (p & <- & Hp)%list_elem_of_In%in_map_iff.
    rewrite rating_of_annotated. apply (proj1 (Forall_forall _ _) Hval).
    by apply list_elem_of_In. }
  destruct (sorted_ok (fun x => Ok (rating_of x)) py_lt has_value true (map annotate_price l))
    as [out Hout].
  { eapply Forall_impl; [exact Hval'|]. intros x Hx. by exists (rating_of x). }
  { intros a b Ha Hb. rewrite (py_lt_valued a b Ha Hb). by eexists. }
  exists out. split; [exact Hout|].
  pose proof (sorted_perm _ _ _ _ _ Hout) as Hperm.
  assert (Forall (fun x => has_value (rating_of x)) out) as Hvo by (by rewrite Hperm).
  split.
  - intros i j x y Hij Hi Hj.
    destruct (sorted_in_order (fun x => Ok (rating_of x)) py_lt has_value val_le true
                (map annotate_price l) out py_lt_val_total val_le_trans Hout
                (Forall_valued_perm rating_of _ _ Hperm Hvo) i j x y Hij Hi Hj)
      as (kx & ky & [= <-] & [= <-] & Hle).
    apply val_le_num_le; [| |done].
    + apply (proj1 (Forall_forall _ _) Hvo). by apply list_elem_of_lookup_2 in Hj.
    + apply (proj1 (Forall_forall _ _) Hvo). by apply list_elem_of_lookup_2 in Hi.
  - intros v.
    apply (sorted_stable (fun x => Ok (rating_of x)) py_lt (fun x => has_value (rating_of x))
             (fun x => same_value v (rating_of x)) true _ _); [|done|done].
    intros x y kx ky Qx Qy [= <-] [= <-] Ex Ey. by apply (same_value_not_lt v).
Qed.

Lemma sort_results_rating_descending_witness :
  exists out,
    sort_results [offer_p1; offer_p2; offer_A; offer_p3] "Highest Rated" "desk lamp" = Ok out
    /\ map (fun x => dict_get_none x "product_id") out
       = [PStr "p3"; PStr "p1"; PStr "p2"; PStr "1"]
    /\ forall i j x y, (i < j)%nat -> out !! i = Some x -> out !! j = Some y ->
         num_le (num_of (rating_of y)) (num_of (rating_of x)) = true.
Proof.
  destruct (sort_results_rating_descending [offer_p1; offer_p2; offer_A; offer_p3] "desk lamp")
    as (out & Hout & Hord & _).
  - apply Exists_cons_hd. eexists. vm_compute. reflexivity.
  - repeat constructor; eexists _, _; split; vm_compute; reflexivity.
  - exists out. split; [exact Hout|]. split; [|exact Hord].
    assert (sort_results [offer_p1; offer_p2; offer_A; offer_p3] "Highest Rated" "desk lamp"
            = Ok out -> map (fun x => dict_get_none x "product_id") out
                        = [PStr "p3"; PStr "p1"; PStr "p2"; PStr "1"]) as H.
    { vm_compute. intros [= <-]. reflexivity. }
    by apply H.
Defined.

(** ** Sorter: keys that do not compare *)

Lemma insert_sorted_head {A} (lt : A -> A -> res bool) x l out :
  insert_sorted lt x l = Ok out ->
  head out = Some x \/ exists y, head out = Some y /\ head l = Some y /\ lt y x = Ok true.
Proof.
  destruct l as [|y l]; simpl.
  - intros [= <-]. by left.
  - destruct (lt y x) as [[|]|] eqn:Hyx; simpl; try done.
    + destruct (insert_sorted lt x l) as [r|]; simpl; [|done].
      intros [= <-]. right. by exists y.
    + intros [= <-]. by left.
Qed.

Lemma insert_sorted_compared {A} (lt : A -> A -> res bool) x l out :
  Sorted (compared lt) l -> insert_sorted lt x l = Ok out -> Sorted (compared lt) out.
Proof.
  revert out. induction l as [|y l IH]; intros out Hs; simpl.
  - intros [= <-]. repeat constructor.
  - apply Sorted_inv in Hs as [Hs Hhd].
    destruct (lt y x) as [[|]|] eqn:Hyx; simpl; try done.
    + destruct (insert_sorted lt x l) as [r|] eqn:Hr; simpl; [|done].
      intros [= <-]. constructor; [by apply IH|].
      destruct (insert_sorted_head lt x l r Hr) as [Hx|(z & Hz & Hl & _)].
      * destruct r as [|a r]; [constructor|]. injection Hx as ->.
        constructor. left. by exists true.
      * destruct r as [|a r]; [constructor|]. injection Hz as ->.
        destruct l as [|b l]; [done|]. injection Hl as ->.
        constructor. by apply HdRel_inv in Hhd.
    + intros [= <-]. constructor; [by constructor|].
      constructor. right. by exists false.
Qed.

Lemma sort_with_compared {A} (lt : A -> A -> res bool) l out :
  sort_with lt l = Ok out -> Sorted (compared lt) out.
Proof.
  revert out. induction l as [|x l IH]; intros out; simpl.
  - intros [= <-]. constructor.
  - destruct (sort_with lt l) as [s|]; simpl; [|done].
    apply insert_sorted_compared. by apply IH.
Qed.

Lemma Sorted_same {A B} (R : A -> A -> Prop) (f : A -> B) (l : list A) :
  (forall a b, R a b -> f a = f b) -> Sorted R l ->
  forall x y, x ∈ l -> y ∈ l -> f x = f y.
Proof.
  intros HR Hs.
  assert (forall x, x ∈ l -> Some (f x) = f <$> head l) as H.
  { induction Hs as [|a l Hs IH Hhd]; intros x Hx; [by apply elem_of_nil in Hx|].
    apply elem_of_cons in Hx as [->|Hx]; [done|].
    destruct Hhd as [|b l Hab]; [by apply elem_of_nil in Hx|].
    rewrite (IH x Hx). simpl. f_equal. symmetry. by apply HR. }
  intros x y Hx Hy. apply H in Hx, Hy. congruence.
Qed.

Lemma insert_sorted_raise {A} (lt : A -> A -> res bool) x l e :
  (forall a b e', lt a b = Raise e' -> e' = TypeError) ->
  insert_sorted lt x l = Raise e -> e = TypeError.
Proof.
  intros Hlt. induction l as [|y l IH]; simpl; [done|].
  destruct (lt y x) as [[|]|e'] eqn:Hyx; simpl; try done.
  - destruct (insert_sorted lt x l) as [r|e'']; simpl; [done|].
    intros [= <-]. by apply IH.
  - intros [= <-]. by apply (Hlt y x).
Qed.

Lemma sort_with_raise {A} (lt : A -> A -> res bool) l e :
  (forall a b e', lt a b = Raise e' -> e' = TypeError) ->
  sort_with lt l = Raise e -> e = TypeError.
Proof.
  intros Hlt. induction l as [|x l IH]; simpl; [done|].
  destruct (sort_with lt l) as [s|e'] eqn:Hs; simpl.
  - by apply insert_sorted_raise.
  - intros [= <-]. by apply IH.
Qed.

Lemma py_lt_raise a b e : py_lt a b = Raise e -> e = TypeError.
Proof. unfold py_lt. destruct a, b; simpl; congruence. Qed.

Lemma compared_py_lt a b : compared py_lt a b -> is_text a = is_text b.
Proof. intros [[r H]|[r H]]; unfold py_lt in H; by destruct a, b. Qed.

Lemma mapM_res_keyed_total {A K} (f : A -> K) (l : list A) :
  mapM_res (fun x => k ← Ok (f x); Ok (k, x)) l = Ok (map (fun x => (f x, x)) l).
Proof. induction l as [|x l IH]; [done|]. cbn [mapM_res map]. by rewrite IH. Qed.

(** A sort on keys of which one is a string and another is not raises
    [TypeError], in whatever order the keys come. *)
Lemma sorted_mixed_keys {A} (f : A -> pyval) (reverse : bool) (l : list A) (p q : A) :
  p ∈ l -> q ∈ l -> is_text (f p) = true -> is_text (f q) = false ->
  sorted (fun x => Ok (f x)) py_lt reverse l = Raise TypeError.
Proof.
  intros Hp Hq Tp Tq. unfold sorted. rewrite mapM_res_keyed_total. cbn [mbind res_bind].
  set (keyed := map (fun x => (f x, x)) l).
  set (lt2 := fun a b : pyval * A => py_lt (fst a) (fst b)).
  assert (forall l', Permutation l' keyed -> sort_with lt2 l' = Raise TypeError) as H.
  { intros l' Hperm. destruct (sort_with lt2 l') as [s|e] eqn:Hs.
    - exfalso. pose proof (sort_with_compared lt2 l' s Hs) as Hc.
      pose proof (sort_with_perm lt2 l' s Hs) as Hps.
      assert (forall x, x ∈ l -> (f x, x) ∈ s) as Hin.
      { intros x Hx. rewrite Hps, Hperm. unfold keyed.
        apply list_elem_of_In, (in_map (fun x => (f x, x))), list_elem_of_In, Hx. }
      pose proof (Sorted_same (compared lt2) (fun a => is_text (fst a)) s
                    (fun a b Hab => compared_py_lt (fst a) (fst b) Hab) Hc
                    (f p, p) (f q, q) (Hin p Hp) (Hin q Hq)) as E.
      simpl in E. congruence.
    - f_equal. apply (sort_with_raise lt2 l' e); [|done].
      intros a b e'. apply py_lt_raise. }
  destruct reverse.
  - rewrite (H (rev keyed)); [done|]. by rewrite <- Permutation_rev.
  - by rewrite (H keyed).
Qed.

(** X19. The Highest Rated sort raises [TypeError] on a list in which the
    rating of one offer is a string and the rating of another is not (a
    number, a [null], or absent and so 0): the two do not compare. *)
Theorem sort_results_rating_type_error (l : list offer) (item : str) (p q : offer) :
  p ∈ l -> q ∈ l -> is_text (rating_of p) = true -> is_text (rating_of q) = false ->
  sort_results l "Highest Rated" item = Raise TypeError.
Proof.
  intros Hp Hq Tp Tq. unfold sort_results.
  rewrite bool_decide_eq_false_2 by (vm_compute; discriminate).
  rewrite bool_decide_eq_true_2 by done.
  rewrite some_rating_annotated.
  - cbn [andb].
    apply (sorted_mixed_keys rating_of true _ (annotate_price p) (annotate_price q)).
    + by apply list_elem_of_In, in_map, list_elem_of_In.
    + by apply list_elem_of_In, in_map, list_elem_of_In.
    + by rewrite rating_of_annotated.
    + by rewrite rating_of_annotated.
  - apply Exists_exists. exists p. split; [done|].
    unfold rating_of, dict_get in Tp. by destruct (p !! "rating").
Qed.

Lemma sort_results_rating_type_error_witness :
  sort_results [offer_p1; offer_p2; offer_text_rating; offer_p3] "Highest Rated" "desk lamp"
  = Raise TypeError.
Proof.
  apply (sort_results_rating_type_error _ _ offer_text_rating offer_p2).
  - apply elem_of_cons; right. apply elem_of_cons; right. apply list_elem_of_here.
  - apply elem_of_cons; right. apply list_elem_of_here.
  - vm_compute. reflexivity.
  - vm_compute. reflexivity.
Defined.

(** ** Sorter: ties under the Balanced policy *)

Lemma same_value_compare v a b :
  same_value v a = true -> same_value v b = true -> xval_compare (xv a) (xv b) = Eq.
Proof.
  unfold same_value. intros Ha Hb.
  destruct (xval_compare (xv a) v) eqn:E1; try done.
  destruct (xval_compare (xv b) v) eqn:E2; try done.
  by rewrite (xval_compare_Eq_r (xv a) (xv b) v E2).
Qed.

Lemma balanced_key_tie x y kx ky vs vp :
  has_value (score_of x) -> has_value (price_of x) ->
  has_value (score_of y) -> has_value (price_of y) ->
  balanced_key x = Ok kx -> balanced_key y = Ok ky ->
  same_value vs (score_of x) && same_value vp (price_of x) = true ->
  same_value vs (score_of y) && same_value vp (price_of y) = true ->
  tuple_lt ky kx = Ok false.
Proof.
  intros Hsx Hpx Hsy Hpy Hkx Hky [Sx Px]%andb_prop [Sy Py]%andb_prop.
  rewrite (tuple_lt_valued ky kx (balanced_key_valued y ky Hsy Hpy Hky)
             (balanced_key_valued x kx Hsx Hpx Hkx)).
  f_equal. apply bool_decide_eq_false.
  unfold balanced_key in Hkx, Hky.
  fold (score_of x) in Hkx. fold (price_of x) in Hkx.
  fold (score_of y) in Hky. fold (price_of y) in Hky.
  destruct (py_neg_valued _ Hsx) as (nx & Ex & _ & Vx).
  destruct (py_neg_valued _ Hsy) as (ny & Ey & _ & Vy).
  rewrite Ex in Hkx. rewrite Ey in Hky. simpl in Hkx, Hky.
  injection Hkx as <-. injection Hky as <-.
  unfold key_cmp. simpl. rewrite Vx, Vy, xval_compare_xneg.
  rewrite (same_value_compare vs _ _ Sx Sy), (same_value_compare vp _ _ Py Px). done.
Qed.

(** X20. Under the Balanced policy, and when no score and no numeric price
    is a NaN, offers with the same score and the same price keep the order
    in which they were given. *)
Theorem sort_results_balanced_stable (l : list offer) (sort_pref item : str) (out : list offer) :
  sort_pref <> lit "Cheapest" -> sort_pref <> lit "Highest Rated" ->
  sort_results l sort_pref item = Ok out ->
  Forall (fun x => has_value (score_of x) /\ has_value (price_of x)) out ->
  exists scored,
    Forall2 same_fields l scored
    /\ Permutation out scored
    /\ forall vs vp,
         List.filter (fun x => same_value vs (score_of x) && same_value vp (price_of x)) out
         = List.filter (fun x => same_value vs (score_of x) && same_value vp (price_of x))
             scored.
Proof.
  intros H1 H2 Hout Hval. unfold sort_results in Hout.
  rewrite (bool_decide_eq_false_2 _ H1), (bool_decide_eq_false_2 _ H2) in Hout.
  simpl in Hout.
  destruct (calculate_advanced_relevance_scores _ item) as [scored|] eqn:Hs;
    simpl in Hout; [|done].
  exists scored. pose proof (sorted_perm _ _ _ _ _ Hout) as Hperm.
  split; [|split; [done|]].
  - eapply Forall2_impl; [exact (scored_annotated l scored item Hs)|]. by intros p x [H _].
  - intros vs vp.
    apply (sorted_stable balanced_key tuple_lt
             (fun x => has_value (score_of x) /\ has_value (price_of x))
             _ false scored out); [|done|by rewrite <- Hperm].
    intros x y kx ky [Qx1 Qx2] [Qy1 Qy2] Kx Ky Ex Ey.
    by apply (balanced_key_tie x y kx ky vs vp).
Qed.

Lemma sort_results_balanced_stable_witness :
  exists out,
    sort_results [offer_p4; offer_p2; offer_p1] "Balanced" "desk lamp" = Ok out
    /\ map (fun x => dict_get_none x "product_id") out = [PStr "p4"; PStr "p1"; PStr "p2"]
    /\ exists scored,
         Forall2 same_fields [offer_p4; offer_p2; offer_p1] scored
         /\ Permutation out scored
         /\ forall vs vp,
              List.filter (fun x => same_value vs (score_of x) && same_value vp (price_of x)) out
              = List.filter (fun x => same_value vs (score_of x) && same_value vp (price_of x))
                  scored.
Proof.
  eexists. split; [vm_compute; reflexivity|]. split; [vm_compute; reflexivity|].
  apply (sort_results_balanced_stable [offer_p4; offer_p2; offer_p1] "Balanced" "desk lamp").
  - vm_compute; discriminate.
  - vm_compute; discriminate.
  - vm_compute; reflexivity.
  - repeat constructor; eexists _, _; split; vm_compute; reflexivity.
Defined.

(** ** Offers that differ pairwise *)

Lemma unlike_sym x y : unlike x y -> unlike y x.
Proof. unfold unlike. by rewrite shares_key_sym. Qed.

Lemma StronglySorted_sublist {A} (R : A -> A -> Prop) (out l : list A) :
  sublist out l -> StronglySorted R l -> StronglySorted R out.
Proof.
  induction 1 as [|x out l Hsub IH|x out l Hsub IH]; intros Hs; [done| |].
  - apply StronglySorted_inv in Hs as [Hs Hx]. constructor; [by apply IH|].
    by apply (sublist_Forall _ out l).
  - apply StronglySorted_inv in Hs as [Hs _]. by apply IH.
Qed.

Lemma StronglySorted_perm {A} (R : A -> A -> Prop) (l l' : list A) :
  (forall x y, R x y -> R y x) ->
  Permutation l l' -> StronglySorted R l -> StronglySorted R l'.
Proof.
  intros Hsym. induction 1 as [|x l l' Hp IH|x y l|l l' l'' _ IH1 _ IH2]; intros Hs.
  - done.
  - apply StronglySorted_inv in Hs as [Hs Hx].
    constructor; [by apply IH|]. by rewrite <- Hp.
  - apply StronglySorted_inv in Hs as [Hs Hy].
    apply StronglySorted_inv in Hs as [Hs Hx].
    apply Forall_cons in Hy as [Hyx Hy].
    constructor; [by constructor|]. constructor; [by apply Hsym|done].
  - by apply IH2, IH1.
Qed.

Lemma StronglySorted_Forall2 {A} (R : A -> A -> Prop) (S : A -> A -> Prop) (l l' : list A) :
  (forall x x' y y', S x x' -> S y y' -> R x y -> R x' y') ->
  Forall2 S l l' -> StronglySorted R l -> StronglySorted R l'.
Proof.
  intros HS. induction 1 as [|x x' l l' Hx Hl IH]; intros Hs; [constructor|].
  apply StronglySorted_inv in Hs as [Hs Hall]. constructor; [by apply IH|].
  clear IH Hs. induction Hl as [|y y' l l' Hy Hl IH]; [constructor|].
  apply Forall_cons in Hall as [Hxy Hall]. constructor; [by apply (HS x x' y y')|by apply IH].
Qed.

Lemma StronglySorted_distinct {A} (R : A -> A -> Prop) (l : list A) i j x y :
  (forall x y, R x y -> R y x) -> StronglySorted R l ->
  i <> j -> l !! i = Some x -> l !! j = Some y -> R x y.
Proof.
  intros Hsym Hs Hij Hi Hj. destruct (Nat.lt_total i j) as [Hlt|[?|Hlt]]; [|done|].
  - by apply (StronglySorted_lookup R l i j).
  - apply Hsym. by apply (StronglySorted_lookup R l j i).
Qed.

Lemma dedup_kept_unlike results : forall kept, StronglySorted unlike (dedup_kept kept results).
Proof.
  induction results as [|z rest IH]; intros kept; simpl; [constructor|].
  destruct (existsb (shares_key z) kept); [apply IH|].
  constructor; [apply IH|]. apply Forall_forall. intros y Hy. apply unlike_sym.
  apply (dedup_kept_fresh rest (z :: kept)); [done|apply list_elem_of_here].
Qed.

(** ** The fields the Sorter does not touch *)

Lemma same_fields_get p x k d :
  same_fields p x -> k <> "numeric_price"%string -> k <> "relevance_score"%string ->
  dict_get x k d = dict_get p k d.
Proof. intros H H1 H2. unfold dict_get. by rewrite (H k H1 H2). Qed.

Lemma same_fields_identifier p x : same_fields p x -> offer_identifier x = offer_identifier p.
Proof.
  intros H. unfold offer_identifier, dict_get_none. by rewrite !(same_fields_get p x) by done.
Qed.

Lemma same_fields_title_key p x : same_fields p x -> title_key x = title_key p.
Proof.
  intros H. unfold title_key, offer_normalized_title. by rewrite (same_fields_get p x) by done.
Qed.

Lemma same_fields_unlike x x' y y' :
  same_fields x x' -> same_fields y y' -> unlike x y -> unlike x' y'.
Proof.
  intros Hx Hy. unfold unlike, shares_key, shares_id, shares_title.
  by rewrite (same_fields_identifier _ _ Hx), (same_fields_identifier _ _ Hy),
             (same_fields_title_key _ _ Hx), (same_fields_title_key _ _ Hy).
Qed.

Lemma Forall2_same_fields_elem (l l' : list offer) x :
  Forall2 same_fields l l' -> x ∈ l' -> exists p, p ∈ l /\ same_fields p x.
Proof.
  induction 1 as [|p y l l' Hpy _ IH]; intros Hx; [by apply elem_of_nil in Hx|].
  apply elem_of_cons in Hx as [->|Hx].
  - exists p. split; [apply list_elem_of_here|done].
  - destruct (IH Hx) as (q & Hq & Hs). exists q. split; [by apply elem_of_cons; right|done].
Qed.

Section OrchestratorMore.

Variable SITE_DOMAINS : str -> option (list str).
Variable urlparse_netloc : str -> res str.
Variable serpapi_shopping : str -> Z -> bool -> res (list offer).

Lemma same_fields_should_include p x item site_pref :
  same_fields p x ->
  should_include_product SITE_DOMAINS urlparse_netloc x item site_pref
  = should_include_product SITE_DOMAINS urlparse_netloc p item site_pref.
Proof.
  intros H. unfold should_include_product, is_used_or_refurbished, has_key,
    is_from_correct_site.
  rewrite !(same_fields_get p x) by done. by rewrite (H "second_hand_condition") by done.
Qed.

(** The stages of a run that returns offers. *)
Lemma get_shopping_results_inv item site_pref sort_pref r :
  get_shopping_results SITE_DOMAINS urlparse_netloc serpapi_shopping
    item site_pref sort_pref = Ok r ->
  exists raw filtered sorted_results,
    perform_search serpapi_shopping item site_pref 50 = Ok raw
    /\ sublist filtered (dedup_kept [] raw)
    /\ Forall (fun p => should_include_product SITE_DOMAINS urlparse_netloc p item site_pref
                        = Ok true) filtered
    /\ (raw = [] /\ sorted_results = []
        \/ sort_results filtered sort_pref item = Ok sorted_results)
    /\ r = (item, take 10 sorted_results).
Proof.
  unfold get_shopping_results. intros H.
  destruct (perform_search _ _ _ _) as [raw|] eqn:Hraw; [|done]. cbn [mbind res_bind] in H.
  destruct (bool_decide (raw = [])) eqn:Hempty.
  { apply bool_decide_eq_true in Hempty. injection H as <-.
    exists raw, [], []. split; [done|]. split; [apply sublist_nil_l|].
    split; [done|]. split; [by left|done]. }
  destruct (remove_duplicates raw) as [unique|] eqn:Hu; [|done]. cbn [mbind res_bind] in H.
  pose proof (remove_duplicates_ok_titles raw unique Hu) as Hwf.
  rewrite (remove_duplicates_kept raw Hwf) in Hu. injection Hu as <-.
  destruct (apply_comprehensive_filters _ _ _ _ _) as [filtered|] eqn:Hf; [|done].
  cbn [mbind res_bind] in H.
  destruct (sort_results filtered sort_pref item) as [sorted_results|] eqn:Hs; [|done].
  cbn [mbind res_bind] in H. injection H as <-.
  apply filterM_res_spec in Hf as (H1 & H2 & _).
  exists raw, filtered, sorted_results. split; [done|]. split; [done|].
  split; [done|]. split; [by right|done].
Qed.

Lemma get_shopping_results_offers item site_pref sort_pref r :
  get_shopping_results SITE_DOMAINS urlparse_netloc serpapi_shopping
    item site_pref sort_pref = Ok r ->
  exists raw,
    perform_search serpapi_shopping item site_pref 50 = Ok raw
    /\ Forall (fun x => exists p,
                 p ∈ raw /\ same_fields p x
                 /\ should_include_product SITE_DOMAINS urlparse_netloc p item site_pref
                    = Ok true) (snd r)
    /\ StronglySorted unlike (snd r).
Proof.
  intros (raw & filtered & sorted_results & Hraw & Hsub & Hpass & Hsort & ->)
    %get_shopping_results_inv.
  exists raw. split; [done|]. simpl.
  destruct Hsort as [[_ ->]|Hsort]; [by split; [|constructor]|].
  apply sort_results_inv in Hsort as (l' & Hperm & Hann).
  assert (Forall2 same_fields filtered l') as Hsame.
  { eapply Forall2_impl; [exact Hann|]. by intros p x [H _]. }
  assert (sublist (take 10 sorted_results) sorted_results) as Htake.
  { rewrite <- (take_drop 10 sorted_results) at 2. apply sublist_inserts_r. done. }
  split.
  - apply (sublist_Forall _ _ _ Htake). apply Forall_forall. intros x Hx.
    rewrite Hperm in Hx.
    destruct (Forall2_same_fields_elem filtered l' x Hsame Hx) as (p & Hp & Hpx).
    exists p. split; [|split; [done|]].
    + eapply elem_of_sublist; [|apply (dedup_kept_sublist [] raw)].
      eapply elem_of_sublist; [exact Hp|exact Hsub].
    + by apply (proj1 (Forall_forall _ _) Hpass).
  - apply (StronglySorted_sublist _ _ _ Htake).
    apply (StronglySorted_perm unlike l' sorted_results unlike_sym); [done|].
    apply (StronglySorted_Forall2 unlike same_fields filtered l' same_fields_unlike Hsame).
    apply (StronglySorted_sublist _ _ _ Hsub), dedup_kept_unlike.
Qed.

(** X21. Whatever the provider answers and whatever the policy, every offer
    the Orchestrator returns is an offer the provider gave, with at most
    the fields [numeric_price] and [relevance_score] added; it passes the
    Filter Chain; and no two returned offers share a product identifier or
    a normalized title. *)
Theorem get_shopping_results_sound (item site_pref sort_pref : str) (r : str * list offer) :
  get_shopping_results SITE_DOMAINS urlparse_netloc serpapi_shopping
    item site_pref sort_pref = Ok r ->
  (exists raw,
     perform_search serpapi_shopping item site_pref 50 = Ok raw
     /\ Forall (fun x => exists p, p ∈ raw /\ same_fields p x) (snd r))
  /\ Forall (fun x => should_include_product SITE_DOMAINS urlparse_netloc x item site_pref
                      = Ok true) (snd r)
  /\ (forall i j x y, i <> j -> snd r !! i = Some x -> snd r !! j = Some y ->
        py_same (offer_identifier x) (offer_identifier y) = false
        /\ title_key x <> title_key y).
Proof.
  intros (raw & Hraw & Hall & Hunlike)%get_shopping_results_offers.
  split; [|split].
  - exists raw. split; [done|]. eapply Forall_impl; [exact Hall|].
    intros x (p & Hp & Hs & _). by exists p.
  - eapply Forall_impl; [exact Hall|]. intros x (p & _ & Hs & Hpass).
    by rewrite (same_fields_should_include p x).
  - intros i j x y Hij Hi Hj. apply shares_key_false.
    apply (StronglySorted_distinct unlike (snd r) i j x y unlike_sym); done.
Qed.

(** X22. How the Orchestrator fails. When the provider fails with a
    [RequestException] it returns the item with no offer; any other
    exception of the provider comes out as it is; and when the provider
    answers with offers of which one has a title that is no string, a
    [null] say, it raises [AttributeError], whatever the other offers are.
    The provider is asked for 50 results for the optimized query, with
    merchant aggregation exactly when the preference is [any]. *)
Theorem get_shopping_results_failures (item site_pref sort_pref : str) :
  let answer :=
    serpapi_shopping (optimize_query_for_google_shopping item site_pref) 50
      (bool_decide (lower site_pref = lit "any")) in
  (forall e, answer = Raise e ->
     get_shopping_results SITE_DOMAINS urlparse_netloc serpapi_shopping
       item site_pref sort_pref
     = match e with RequestException => Ok (item, []) | _ => Raise e end)
  /\ (forall raw, answer = Ok raw -> Exists (fun r => ~ title_is_str r) raw ->
        get_shopping_results SITE_DOMAINS urlparse_netloc serpapi_shopping
          item site_pref sort_pref = Raise AttributeError).
Proof.
  intros answer. subst answer. split.
  - intros e H. unfold get_shopping_results, perform_search. rewrite H. by destruct e.
  - intros raw H Hbad. unfold get_shopping_results, perform_search. rewrite H.
    cbn [mbind res_bind].
    rewrite bool_decide_eq_false_2 by (intros ->; by apply Exists_nil in Hbad).
    unfold remove_duplicates. by rewrite remove_duplicates_loop_raise.
Qed.

End OrchestratorMore.

Lemma get_shopping_results_sound_witness :
  exists offers,
    get_shopping_results site_domains_example netloc_example
      (shopping_example [offer_A; offer_B; offer_C; offer_iphone])
      "phone" "Any" "Balanced" = Ok (lit "phone", offers)
    /\ map (fun x => dict_get_none x "title") offers = [PStr "Phone X"; PStr "Phone Y"]
    /\ Forall (fun x => should_include_product site_domains_example netloc_example
                          x "phone" "Any" = Ok true) offers
    /\ (forall i j x y, i <> j -> offers !! i = Some x -> offers !! j = Some y ->
          py_same (offer_identifier x) (offer_identifier y) = false
          /\ title_key x <> title_key y).
Proof.
  eexists. split; [vm_compute; reflexivity|]. split; [vm_compute; reflexivity|].
  refine (proj2 (get_shopping_results_sound site_domains_example netloc_example
                   (shopping_example [offer_A; offer_B; offer_C; offer_iphone])
                   "phone" "Any" "Balanced" (_, _) _)).
  vm_compute. reflexivity.
Defined.

Lemma get_shopping_results_failures_witness :
  get_shopping_results site_domains_example netloc_example shopping_down
    "phone" "Target" "Cheapest" = Ok (lit "phone", [])
  /\ get_shopping_results site_domains_example netloc_example
       (fun _ _ _ => Raise KeyError) "phone" "Target" "Cheapest" = Raise KeyError
  /\ get_shopping_results site_domains_example netloc_example
       (shopping_example [offer_A; offer_null_title; offer_C]) "phone" "Target" "Cheapest"
     = Raise AttributeError.
Proof.
  split; [|split].
  - apply (proj1 (get_shopping_results_failures site_domains_example netloc_example
                    shopping_down "phone" "Target" "Cheapest") RequestException).
    reflexivity.
  - apply (proj1 (get_shopping_results_failures site_domains_example netloc_example
                    (fun _ _ _ => Raise KeyError) "phone" "Target" "Cheapest") KeyError).
    reflexivity.
  - apply (proj2 (get_shopping_results_failures site_domains_example netloc_example
                    (shopping_example [offer_A; offer_null_title; offer_C])
                    "phone" "Target" "Cheapest") [offer_A; offer_null_title; offer_C]).
    + reflexivity.
    + apply Exists_cons_tl, Exists_cons_hd. intros [s Hs]. vm_compute in Hs. discriminate.
Defined.

(** ** Arithmetic makes no NaN out of numbers *)

Lemma binary_round_aux_not_nan sx mx ex lx :
  (0 <= mx)%Z -> is_nan (binary_round_aux prec emax sx mx ex lx) = false.
Proof.
  intros Hm. unfold binary_round_aux.
  destruct (shr_fexp prec emax mx ex lx) as [r1 e1] eqn:E1.
  destruct (shr_fexp_spec _ _ _ _ _ Hm E1) as (N1 & _ & _).
  destruct (round_nearest_even_digits (shr_m r1) (loc_of_shr_record r1) N1) as [N2 _].
  destruct (shr_fexp prec emax _ e1 loc_Exact) as [r2 e2] eqn:E2.
  destruct (shr_fexp_spec _ _ _ _ _ N2 E2) as (N3 & _ & _).
  destruct (shr_m r2); [done| |lia]. by destruct (_ <=? _)%Z.
Qed.

Lemma binary_round_not_nan sx m e : is_nan (binary_round prec emax sx m e) = false.
Proof.
  unfold binary_round. destruct (shl_align m e _) as [mz ez].
  by apply binary_round_aux_not_nan.
Qed.

Lemma binary_normalize_not_nan m e s : is_nan (binary_normalize prec emax m e s) = false.
Proof. destruct m; simpl; [done|apply binary_round_not_nan..]. Qed.

Lemma fadd_not_nan x y :
  is_nan x = false -> is_finite y = true -> is_nan (fadd x y) = false.
Proof.
  destruct x as [sx|sx| |sx mx ex], y as [sy|sy| |sy my ey]; try done; intros _ _.
  - unfold fadd. simpl. by destruct sx, sy.
  - apply binary_normalize_not_nan.
Qed.

Lemma fadd_not_nan_l x y :
  is_finite x = true -> is_nan y = false -> is_nan (fadd x y) = false.
Proof.
  destruct x as [sx|sx| |sx mx ex], y as [sy|sy| |sy my ey]; try done; intros _ _.
  - unfold fadd. simpl. by destruct sx, sy.
  - apply binary_normalize_not_nan.
Qed.

Lemma fsub_not_nan x y :
  is_nan x = false -> is_finite y = true -> is_nan (fsub x y) = false.
Proof.
  destruct x as [sx|sx| |sx mx ex], y as [sy|sy| |sy my ey]; try done; intros _ _.
  - unfold fsub. simpl. by destruct sx, sy.
  - apply binary_normalize_not_nan.
Qed.

Lemma fsub_not_nan_l x y :
  is_finite x = true -> is_nan y = false -> is_nan (fsub x y) = false.
Proof.
  destruct x as [sx|sx| |sx mx ex], y as [sy|sy| |sy my ey]; try done; intros _ _.
  - unfold fsub. simpl. by destruct sx, sy.
  - apply binary_normalize_not_nan.
Qed.

Lemma fmul_not_nan x sy my ey :
  is_nan x = false -> is_nan (fmul x (S754_finite sy my ey)) = false.
Proof.
  destruct x as [sx|sx| |sx mx ex]; try done; intros _.
  unfold fmul. simpl. by apply binary_round_aux_not_nan.
Qed.

Lemma fmul_not_nan_l sx mx ex y :
  is_nan y = false -> is_nan (fmul (S754_finite sx mx ex) y) = false.
Proof.
  destruct y as [sy|sy| |sy my ey]; try done; intros _.
  unfold fmul. simpl. by apply binary_round_aux_not_nan.
Qed.

Lemma is_finite_spec f : is_finite f = true <-> is_nan f = false /\ is_inf f = false.
Proof. destruct f; simpl; split; try done; by intros []. Qed.

Lemma int_to_float_finite z f : int_to_float z = Ok f -> is_finite f = true.
Proof.
  unfold int_to_float. destruct (is_inf (float_of_Z z)) eqn:E; [done|].
  intros [= <-]. apply is_finite_spec. split; [|done]. apply binary_normalize_not_nan.
Qed.

Lemma round_ratio_not_nan neg n d : is_nan (round_ratio neg n d) = false.
Proof.
  unfold round_ratio, SFdiv_core_binary. cbv zeta.
  remember (Z.min (fexp prec emax (Zdigits2 (Zpos n) + 0 - (Zdigits2 (Zpos d) + 0)))
                  (0 - 0))%Z as e' eqn:He'.
  remember (match (0 - 0 - e')%Z with
            | Z0 => Zpos n
            | Zpos _ => Z.shiftl (Zpos n) (0 - 0 - e')
            | Zneg _ => 0%Z
            end) as m' eqn:Hm'.
  assert (0 <= m')%Z as Hm0.
  { subst m'. destruct (0 - 0 - e')%Z as [|p|p] eqn:E; try lia.
    rewrite <- E. apply Z.shiftl_nonneg; lia. }
  clear Hm' He'.
  destruct (IntDef.Z.div_eucl m' (Zpos d)) as [q r] eqn:Hdiv.
  assert (q = m' / Zpos d)%Z as Hq by (unfold Z.div; by rewrite Hdiv).
  apply binary_round_aux_not_nan. rewrite Hq. apply Z.div_pos; lia.
Qed.

Lemma int_true_div_finite a b f : int_true_div a b = Ok f -> is_finite f = true.
Proof.
  unfold int_true_div.
  destruct a as [|n|n], b as [|d|d]; try done; try (by intros [= <-]);
    destruct (is_inf (round_ratio _ n d)) eqn:E; try done;
    intros [= <-]; apply is_finite_spec; (split; [apply round_ratio_not_nan|done]).
Qed.

Lemma has_value_float f : has_value (PFloat f) <-> is_nan f = false.
Proof.
  unfold has_value. split.
  - intros (n & x & [= <-] & Hx). by destruct f.
  - intros H. exists (NFloat f). destruct f; try done; by eexists.
Qed.

Lemma has_value_int z : has_value (PInt z).
Proof. by exists (NInt z), (XFin (inject_Z z)). Qed.

Lemma finite_num_valued v : finite_num v = true -> has_value v.
Proof.
  destruct v as [|b|z|f|s]; try done; intros H.
  - by exists (NInt (if b then 1 else 0)), (XFin (inject_Z (if b then 1 else 0))).
  - apply has_value_int.
  - apply has_value_float. by apply is_finite_spec in H as [H _].
Qed.

Lemma has_value_num v : has_value v -> exists n, as_num v = Some n.
Proof. intros (n & x & H & _). by exists n. Qed.

Lemma as_float_valued n f :
  as_float n = Ok f -> (exists x, num_val n = Some x) -> is_nan f = false.
Proof.
  destruct n as [z|g]; simpl.
  - intros H%int_to_float_finite _. by apply is_finite_spec in H as [H _].
  - intros [= <-] [x Hx]. by destruct g.
Qed.

Lemma as_float_finite n f :
  as_float n = Ok f -> finite_num (of_num n) = true -> is_finite f = true.
Proof.
  destruct n as [z|g]; simpl.
  - by intros H%int_to_float_finite _.
  - by intros [= <-].
Qed.

(** The sum, the difference and the product of a number that is no NaN
    and a finite number is no NaN. *)
Lemma num_arith_valued iop fop x y r :
  (forall f g, is_nan f = false -> is_finite g = true -> is_nan (fop f g) = false) ->
  num_arith iop fop x y = Ok r ->
  (exists v, num_val x = Some v) -> finite_num (of_num y) = true ->
  exists v, num_val r = Some v.
Proof.
  intros Hop H Hx Hy. unfold num_arith in H.
  assert (forall f g, as_float x = Ok f -> as_float y = Ok g ->
            exists v, num_val (NFloat (fop f g)) = Some v) as Hf.
  { intros f g Ef Eg. pose proof (as_float_valued x f Ef Hx) as Nf.
    pose proof (as_float_finite y g Eg Hy) as Fg.
    pose proof (Hop f g Nf Fg) as Hn. simpl. destruct (fop f g); try done; by eexists. }
  destruct x as [a|f], y as [b|g].
  - injection H as <-. by eexists.
  - destruct (as_float (NInt a)) as [fa|] eqn:Ea; simpl in H; [|done].
    injection H as <-. by apply (Hf fa g).
  - simpl in H. destruct (int_to_float b) as [fb|] eqn:Eb; simpl in H; [|done].
    injection H as <-. by apply (Hf f fb).
  - simpl in H. injection H as <-. by apply (Hf f g).
Qed.

Lemma num_arith_valued_l iop fop x y r :
  (forall f g, is_finite f = true -> is_nan g = false -> is_nan (fop f g) = false) ->
  num_arith iop fop x y = Ok r ->
  finite_num (of_num x) = true -> (exists v, num_val y = Some v) ->
  exists v, num_val r = Some v.
Proof.
  intros Hop H Hx Hy. unfold num_arith in H.
  assert (forall f g, as_float x = Ok f -> as_float y = Ok g ->
            exists v, num_val (NFloat (fop f g)) = Some v) as Hf.
  { intros f g Ef Eg. pose proof (as_float_finite x f Ef Hx) as Ff.
    pose proof (as_float_valued y g Eg Hy) as Ng.
    pose proof (Hop f g Ff Ng) as Hn. simpl. destruct (fop f g); try done; by eexists. }
  destruct x as [a|f], y as [b|g].
  - injection H as <-. by eexists.
  - destruct (as_float (NInt a)) as [fa|] eqn:Ea; simpl in H; [|done].
    injection H as <-. by apply (Hf fa g).
  - simpl in H. destruct (int_to_float b) as [fb|] eqn:Eb; simpl in H; [|done].
    injection H as <-. by apply (Hf f fb).
  - simpl in H. injection H as <-. by apply (Hf f g).
Qed.

Lemma of_num_as_num v n : as_num v = Some n -> finite_num v = finite_num (of_num n).
Proof. destruct v as [|[]| | |]; simpl; intros [= <-]; done. Qed.

Lemma as_num_of_num n : as_num (of_num n) = Some n.
Proof. by destruct n. Qed.

Lemma py_arith_valued iop fop a b v :
  (forall f g, is_nan f = false -> is_finite g = true -> is_nan (fop f g) = false) ->
  py_arith (num_arith iop fop) a b = Ok v ->
  has_value a -> finite_num b = true -> has_value v.
Proof.
  intros Hop H (x & vx & Ex & Vx) Hb. unfold py_arith in H. rewrite Ex in H.
  destruct (as_num b) as [y|] eqn:Ey; [|done].
  destruct (num_arith iop fop x y) as [r|] eqn:Er; simpl in H; [|done].
  injection H as <-.
  destruct (num_arith_valued iop fop x y r Hop Er) as [vr Hr]; [by eexists| |].
  - by rewrite <- (of_num_as_num b y Ey).
  - exists r, vr. split; [apply as_num_of_num|done].
Qed.

Lemma py_arith_valued_l iop fop a b v :
  (forall f g, is_finite f = true -> is_nan g = false -> is_nan (fop f g) = false) ->
  py_arith (num_arith iop fop) a b = Ok v ->
  finite_num a = true -> has_value b -> has_value v.
Proof.
  intros Hop H Ha (y & vy & Ey & Vy). unfold py_arith in H.
  destruct (as_num a) as [x|] eqn:Ex; [|done]. rewrite Ey in H.
  destruct (num_arith iop fop x y) as [r|] eqn:Er; simpl in H; [|done].
  injection H as <-.
  destruct (num_arith_valued_l iop fop x y r Hop Er) as [vr Hr]; [|by eexists|].
  - by rewrite <- (of_num_as_num a x Ex).
  - exists r, vr. split; [apply as_num_of_num|done].
Qed.

Lemma py_mul_20_valued a v : py_mul a (PInt 20) = Ok v -> has_value a -> has_value v.
Proof.
  intros H (x & vx & Ex & Vx). unfold py_mul, py_arith in H. rewrite Ex in H.
  simpl in H. destruct (num_mul x (NInt 20)) as [r|] eqn:Er; simpl in H; [|done].
  injection H as <-. exists r. rewrite as_num_of_num.
  unfold num_mul, num_arith in Er. destruct x as [z|f].
  - injection Er as <-. by eexists.
  - assert (exists s m e, int_to_float 20 = Ok (S754_finite s m e)) as (s & m & e & Eg)
      by (vm_compute; by eexists _, _, _).
    cbn [as_float mbind res_bind] in Er. rewrite Eg in Er.
    cbn [mbind res_bind] in Er. injection Er as <-.
    assert (is_nan f = false) as Nf by (by destruct f).
    pose proof (fmul_not_nan f s m e Nf) as Hn. simpl.
    destruct (fmul f _); try done; by eexists.
Qed.

Lemma py_truediv_4_finite a v :
  is_int a = true -> py_truediv a (PInt 4) = Ok v -> finite_num v = true.
Proof.
  intros Ha. unfold py_truediv, py_arith.
  assert (exists z, as_num a = Some (NInt z)) as [z ->].
  { destruct a as [|b|z|f|s]; try done; by eexists. }
  simpl. destruct (int_true_div z 4) as [f|] eqn:E; simpl; [|done].
  intros [= <-]. simpl. by apply (int_true_div_finite z 4).
Qed.

Lemma py_min_finite a b v :
  py_min a b = Ok v -> finite_num a = true -> finite_num b = true -> finite_num v = true.
Proof.
  unfold py_min. destruct (py_lt b a) as [[|]|]; simpl; try done; by intros [= <-].
Qed.

(** The score of an offer whose rating is no NaN is no NaN either. *)
Lemma relevance_score_valued (product : offer) (item : str) (v : pyval) :
  relevance_score product item = Ok v ->
  rating_of product <> PFloat nan -> has_value v.
Proof.
  intros H Hrating.
  destruct (dict_get product "title" (PStr "")) as [| | | |t] eqn:Ht;
    try (unfold relevance_score in H; rewrite Ht in H; done).
  rewrite (relevance_score_unfold product item t Ht) in H. cbv zeta in H.
  set (base := (_ * 100 + _)%Z) in H.
  fold (rating_of product) in H.
  destruct (is_int_or_float (rating_of product) && is_int _) eqn:Hguard.
  - apply andb_prop in Hguard as [Hr Hv].
    assert (has_value (rating_of product)) as Hrv.
    { destruct (rating_of product) as [|b|z|f|s]; try done.
      - apply finite_num_valued. done.
      - apply has_value_int.
      - apply has_value_float. destruct f; try done. }
    destruct (py_mul _ (PInt 20)) as [bonus|] eqn:E1; [|done]. cbn [mbind res_bind] in H.
    pose proof (py_mul_20_valued _ _ E1 Hrv) as V1.
    destruct (py_add (PInt base) bonus) as [s1|] eqn:E2; [|done]. cbn [mbind res_bind] in H.
    pose proof (py_arith_valued_l _ _ _ _ _ fadd_not_nan_l E2 eq_refl V1) as V2.
    destruct (py_truediv _ (PInt 4)) as [q|] eqn:E3; [|done]. cbn [mbind res_bind] in H.
    pose proof (py_truediv_4_finite _ _ Hv E3) as F3.
    destruct (py_min q (PInt 150)) as [m|] eqn:E4; [|done]. cbn [mbind res_bind] in H.
    pose proof (py_min_finite _ _ _ E4 F3 eq_refl) as F4.
    destruct (py_add s1 m) as [s2|] eqn:E5; [|done]. cbn [mbind res_bind] in H.
    pose proof (py_arith_valued _ _ _ _ _ fadd_not_nan E5 V2 F4) as V5.
    destruct (100 <? _)%nat.
    + by apply (py_arith_valued _ _ _ _ _ fsub_not_nan H V5).
    + by injection H as <-.
  - injection H as <-. apply has_value_int.
Qed.

(** ** Pipeline Orchestrator: prices and order of the returned offers *)

Lemma parse_price_present (p : offer) (f : float) :
  parse_price (dict_get p "price" (PStr "")) = Ok f ->
  dict_get p "price" (PStr "0") = dict_get p "price" (PStr "").
Proof.
  unfold dict_get. destruct (p !! "price"); [done|]. simpl. vm_compute. discriminate.
Qed.

Lemma annotate_price_parsed (p : offer) (f : float) :
  parse_price (dict_get p "price" (PStr "")) = Ok f ->
  annotate_price p !! "numeric_price" = Some (PFloat f).
Proof.
  intros H. unfold annotate_price, dict_set. rewrite dict_lookup_insert_eq.
  by rewrite (parse_price_present p f H), H.
Qed.

Lemma lookup_take_inv {A} (n : nat) (l : list A) i x :
  take n l !! i = Some x -> l !! i = Some x.
Proof.
  revert n i. induction l as [|a l IH]; intros [|n] [|i]; simpl; try done. apply IH.
Qed.

Lemma take_sublist {A} (n : nat) (l : list A) : sublist (take n l) l.
Proof. rewrite <- (take_drop n l) at 2. by apply sublist_inserts_r. Qed.

Section OrchestratorOrder.

Variable SITE_DOMAINS : str -> option (list str).
Variable urlparse_netloc : str -> res str.
Variable serpapi_shopping : str -> Z -> bool -> res (list offer).

Lemma passed_price p item site_pref :
  should_include_product SITE_DOMAINS urlparse_netloc p item site_pref = Ok true ->
  exists f q,
    parse_price (dict_get p "price" (PStr "")) = Ok f
    /\ float_val f = Some (XFin q) /\ (1 <= q)%Q /\ (q <= 10000)%Q
    /\ annotate_price p !! "numeric_price" = Some (PFloat f).
Proof.
  intros (f & q & Hparse & Hq & H1 & H2)%should_include_product_price.
  exists f, q. repeat (split; [done|]). by apply annotate_price_parsed.
Qed.

Lemma passed_price_valued p x item site_pref :
  should_include_product SITE_DOMAINS urlparse_netloc p item site_pref = Ok true ->
  annotated p x -> has_value (price_of x).
Proof.
  intros (f & q & _ & Hq & _ & _ & Hn)%passed_price [_ Hx].
  unfold price_of, dict_get. rewrite Hx, Hn. simpl.
  apply has_value_float. by destruct f.
Qed.

(** X23. Under every policy, each offer the Orchestrator returns carries in
    [numeric_price] the number its price string reads as, and that number
    is finite and between 1 and 10000. Under the Cheapest policy the
    offers come in ascending order of that number; no assumption on the
    offers of the provider is needed. *)
Theorem get_shopping_results_prices (item site_pref sort_pref : str) (r : str * list offer) :
  get_shopping_results SITE_DOMAINS urlparse_netloc serpapi_shopping
    item site_pref sort_pref = Ok r ->
  Forall (fun x => exists f q,
            x !! "numeric_price" = Some (PFloat f)
            /\ parse_price (dict_get x "price" (PStr "")) = Ok f
            /\ float_val f = Some (XFin q) /\ (1 <= q)%Q /\ (q <= 10000)%Q) (snd r)
  /\ (sort_pref = lit "Cheapest" ->
      forall i j x y, (i < j)%nat -> snd r !! i = Some x -> snd r !! j = Some y ->
        num_le (num_of (price_of x)) (num_of (price_of y)) = true).
Proof.
  intros (raw & filtered & sorted_results & Hraw & Hsub & Hpass & Hsort & ->)
    %get_shopping_results_inv.
  simpl. destruct Hsort as [[_ ->]|Hsort]; [by split|].
  pose proof (sort_results_inv _ _ _ _ Hsort) as (l' & Hperm & Hann).
  assert (Forall (fun x => exists p, p ∈ filtered /\ annotated p x) sorted_results) as Hfrom.
  { rewrite Hperm. clear -Hann. induction Hann as [|p x l l' Hpx _ IH]; constructor.
    - exists p. split; [apply list_elem_of_here|done].
    - eapply Forall_impl; [exact IH|]. intros y (q & Hq & Hy). exists q.
      split; [by apply elem_of_cons; right|done]. }
  split.
  - apply (sublist_Forall _ _ _ (take_sublist 10 sorted_results)).
    eapply Forall_impl; [exact Hfrom|]. intros x (p & Hp & [Hs Hn]).
    destruct (passed_price p item site_pref) as (f & q & Hparse & Hq & H1 & H2 & Hnum).
    { by apply (proj1 (Forall_forall _ _) Hpass). }
    exists f, q. split; [by rewrite Hn|]. split; [|done].
    by rewrite (same_fields_get p x) by done.
  - intros -> i j x y Hij Hi%lookup_take_inv Hj%lookup_take_inv.
    assert (Forall (fun x => has_value (price_of x)) sorted_results) as Hval.
    { eapply Forall_impl; [exact Hfrom|]. intros z (p & Hp & Hz).
      apply (passed_price_valued p z item site_pref); [|done].
      by apply (proj1 (Forall_forall _ _) Hpass). }
    unfold sort_results in Hsort. rewrite bool_decide_eq_true_2 in Hsort by done.
    pose proof (sorted_perm _ _ _ _ _ Hsort) as Hp.
    destruct (sorted_in_order (fun x => Ok (price_of x)) py_lt has_value val_le false
                (map annotate_price filtered) sorted_results py_lt_val_total val_le_trans
                Hsort (Forall_valued_perm price_of _ _ Hp Hval) i j x y Hij Hi Hj)
      as (kx & ky & [= <-] & [= <-] & Hle).
    apply val_le_num_le; [| |done].
    + apply (proj1 (Forall_forall _ _) Hval). by apply list_elem_of_lookup_2 in Hi.
    + apply (proj1 (Forall_forall _ _) Hval). by apply list_elem_of_lookup_2 in Hj.
Qed.

(** X24. Under the Balanced policy, and under every policy name other than
    Cheapest and Highest Rated, the offers the Orchestrator returns are in
    the Balanced order, score descending and price ascending among equal
    scores, as soon as no offer of the provider has a NaN for rating. *)
Theorem get_shopping_results_balanced (item site_pref sort_pref : str)
    (raw : list offer) (r : str * list offer) :
  sort_pref <> lit "Cheapest" -> sort_pref <> lit "Highest Rated" ->
  perform_search serpapi_shopping item site_pref 50 = Ok raw ->
  Forall (fun p => rating_of p <> PFloat nan) raw ->
  get_shopping_results SITE_DOMAINS urlparse_netloc serpapi_shopping
    item site_pref sort_pref = Ok r ->
  forall i j x y, (i < j)%nat -> snd r !! i = Some x -> snd r !! j = Some y ->
    balanced_order x y.
Proof.
  intros H1 H2 Hraw Hrating
    (raw' & filtered & sorted_results & Hraw' & Hsub & Hpass & Hsort & ->)
    %get_shopping_results_inv.
  rewrite Hraw in Hraw'. injection Hraw' as <-. simpl.
  destruct Hsort as [[_ ->]|Hsort]; [done|].
  intros i j x y Hij Hi%lookup_take_inv Hj%lookup_take_inv.
  unfold sort_results in Hsort.
  rewrite (bool_decide_eq_false_2 _ H1), (bool_decide_eq_false_2 _ H2) in Hsort.
  simpl in Hsort.
  destruct (calculate_advanced_relevance_scores _ item) as [scored|] eqn:Hs;
    simpl in Hsort; [|done].
  apply (sorted_balanced_order scored sorted_results Hsort) with (i := i) (j := j); try done.
  rewrite (sorted_perm _ _ _ _ _ Hsort).
  pose proof (scored_annotated filtered scored item Hs) as Hann.
  apply scores_inv in Hs.
  assert (Forall (fun p => rating_of p <> PFloat nan) filtered) as Hr.
  { apply (sublist_Forall _ _ _ Hsub), (sublist_Forall _ _ raw); [|done].
    apply dedup_kept_sublist. }
  clear -Hann Hs Hr Hpass. revert scored Hann Hs.
  induction filtered as [|p l IH]; intros scored Hann Hs; simpl in Hs.
  - apply Forall2_nil_inv_l in Hs as ->. constructor.
  - apply Forall2_cons_inv_l in Hs as (z & zs & (score & Hscore & ->) & Hzs & ->).
    apply Forall2_cons in Hann as [Hpz Hann].
    apply Forall_cons in Hr as [Hrp Hr]. apply Forall_cons in Hpass as [Hpp Hpass].
    constructor; [|by apply IH]. split.
    + unfold score_of. rewrite dict_get_set_eq.
      apply (relevance_score_valued (annotate_price p) item score Hscore).
      by rewrite rating_of_annotated.
    + by apply (passed_price_valued p _ item site_pref).
Qed.

End OrchestratorOrder.

Lemma get_shopping_results_prices_witness :
  exists offers,
    get_shopping_results site_domains_example netloc_example
      (shopping_example [offer_p2; offer_p1; offer_free; offer_nan; offer_p3])
      "desk lamp" "Any" "Cheapest" = Ok (lit "desk lamp", offers)
    /\ map (fun x => dict_get_none x "product_id") offers = [PStr "p1"; PStr "p3"; PStr "p2"]
    /\ forall i j x y, (i < j)%nat -> offers !! i = Some x -> offers !! j = Some y ->
         num_le (num_of (price_of x)) (num_of (price_of y)) = true.
Proof.
  eexists. split; [vm_compute; reflexivity|]. split; [vm_compute; reflexivity|].
  refine (proj2 (get_shopping_results_prices site_domains_example netloc_example
                   (shopping_example [offer_p2; offer_p1; offer_free; offer_nan; offer_p3])
                   "desk lamp" "Any" "Cheapest" (_, _) _) eq_refl).
  vm_compute. reflexivity.
Defined.

Lemma get_shopping_results_balanced_witness :
  exists offers,
    get_shopping_results site_domains_example netloc_example
      (shopping_example [offer_p2; offer_p1; offer_free; offer_p3])
      "desk lamp" "Any" "Balanced" = Ok (lit "desk lamp", offers)
    /\ map (fun x => dict_get_none x "product_id") offers = [PStr "p3"; PStr "p1"; PStr "p2"]
    /\ forall i j x y, (i < j)%nat -> offers !! i = Some x -> offers !! j = Some y ->
         balanced_order x y.
Proof.
  eexists. split; [vm_compute; reflexivity|]. split; [vm_compute; reflexivity|].
  refine (get_shopping_results_balanced site_domains_example netloc_example
            (shopping_example [offer_p2; offer_p1; offer_free; offer_p3])
            "desk lamp" "Any" "Balanced" [offer_p2; offer_p1; offer_free; offer_p3]
            (_, _) _ _ _ _ _).
  - vm_compute; discriminate.
  - vm_compute; discriminate.
  - vm_compute; reflexivity.
  - repeat constructor; vm_compute; discriminate.
  - vm_compute; reflexivity.
Defined.

(** ** Direct-Link Resolver: what it returns *)

Section ResolverMore.

Variable SITE_DOMAINS : str -> option (list str).
Variable urlparse_netloc : str -> res str.
Variable serpapi_sellers : pyval -> res (list offer).

Lemma sellers_loop_elem target_domains site_pref_cleaned sellers link :
  sellers_loop urlparse_netloc target_domains site_pref_cleaned sellers = Ok (Some link) ->
  exists seller, seller ∈ sellers /\ link = dict_get_none seller "link".
Proof.
  induction sellers as [|seller rest IH]; simpl; [done|].
  destruct (as_str _) as [n|]; simpl; [|done].
  destruct (contains site_pref_cleaned (lower n)).
  { intros [= <-]. exists seller. split; [apply list_elem_of_here|done]. }
  match goal with |- (if ?h then _ else _) = _ -> _ => destruct h end.
  { intros [= <-]. exists seller. split; [apply list_elem_of_here|done]. }
  intros (s & Hs & ->)%IH. exists s. split; [by apply elem_of_cons; right|done].
Qed.

Lemma sellers_loop_find target_domains site_pref_cleaned sellers :
  Forall name_is_str sellers ->
  sellers_loop urlparse_netloc target_domains site_pref_cleaned sellers
  = Ok ((fun seller => dict_get_none seller "link")
          <$> List.find (seller_matches urlparse_netloc target_domains site_pref_cleaned)
                        sellers).
Proof.
  induction 1 as [|seller rest [n Hn] _ IH]; [done|].
  cbn [sellers_loop List.find]. unfold seller_matches at 1. rewrite Hn, IH.
  cbn [as_str mbind res_bind try_except].
  destruct (contains site_pref_cleaned (lower n)); [done|]. cbn [orb].
  match goal with |- (if ?h then _ else _) = _ => destruct h end; done.
Qed.

Lemma get_enhanced_direct_link_cases (product_choice : offer) (site_pref : str) (b : bool) :
  (if truthy (dict_get_none product_choice "link")
   then is_from_correct_site SITE_DOMAINS urlparse_netloc product_choice site_pref
   else Ok false) = Ok b ->
  exists v,
    get_enhanced_direct_link SITE_DOMAINS urlparse_netloc serpapi_sellers
      product_choice site_pref = Ok v
    /\ (v = dict_get_none product_choice "link"
        \/ exists sellers seller,
             serpapi_sellers (product_api_id product_choice) = Ok sellers
             /\ seller ∈ sellers /\ v = dict_get_none seller "link").
Proof.
  intros Hb. unfold get_enhanced_direct_link. rewrite Hb. cbn [mbind res_bind].
  destruct b; [eexists; split; [done|by left]|].
  fold (product_api_id product_choice).
  destruct (negb (truthy (product_api_id product_choice))); [eexists; split; [done|by left]|].
  destruct (serpapi_sellers (product_api_id product_choice)) as [sellers|] eqn:Hs;
    cbn [mbind res_bind]; [|eexists; split; [done|by left]].
  destruct sellers as [|first rest]; [eexists; split; [done|by left]|].
  destruct (negb (bool_decide (lower site_pref = lit "any"))).
  - destruct (sellers_loop _ _ _ _) as [[link|]|] eqn:Hloop; cbn [mbind res_bind].
    + eexists. split; [done|]. right.
      destruct (sellers_loop_elem _ _ _ _ Hloop) as (s & Hin & ->). by exists (first :: rest), s.
    + eexists. split; [done|]. right. exists (first :: rest), first.
      split; [done|]. split; [apply list_elem_of_here|done].
    + eexists. split; [done|by left].
  - cbn [mbind res_bind]. eexists. split; [done|]. right. exists (first :: rest), first.
    split; [done|]. split; [apply list_elem_of_here|done].
Qed.

(** X25. The Resolver returns for every offer whose source is a string or
    absent, and for every offer without link, whatever the provider does:
    an exception of the provider, and one met while the sellers are read,
    is caught. What it returns is the link of the offer or the link of one
    of the sellers the provider listed. It raises [AttributeError], before
    any lookup, when the offer has a link, the preference names a retailer
    and the source is no string. *)
Theorem get_enhanced_direct_link_returns (product_choice : offer) (site_pref : str) :
  (truthy (dict_get_none product_choice "link") = false \/ source_is_str product_choice ->
   exists v,
     get_enhanced_direct_link SITE_DOMAINS urlparse_netloc serpapi_sellers
       product_choice site_pref = Ok v
     /\ (v = dict_get_none product_choice "link"
         \/ exists sellers seller,
              serpapi_sellers (product_api_id product_choice) = Ok sellers
              /\ seller ∈ sellers /\ v = dict_get_none seller "link"))
  /\ (truthy (dict_get_none product_choice "link") = true ->
      lower site_pref <> lit "any" -> ~ source_is_str product_choice ->
      get_enhanced_direct_link SITE_DOMAINS urlparse_netloc serpapi_sellers
        product_choice site_pref = Raise AttributeError).
Proof.
  split.
  - intros H. destruct (truthy (dict_get_none product_choice "link")) eqn:Hlink.
    + destruct H as [|Hsrc]; [done|].
      destruct (is_from_correct_site_returns SITE_DOMAINS urlparse_netloc
                  product_choice site_pref Hsrc) as [b Hb].
      apply (get_enhanced_direct_link_cases product_choice site_pref b).
      by rewrite Hlink.
    + apply (get_enhanced_direct_link_cases product_choice site_pref false).
      by rewrite Hlink.
  - intros Hlink Hany Hsrc. unfold get_enhanced_direct_link.
    by rewrite Hlink, (is_from_correct_site_raise _ _ _ _ Hany Hsrc).
Qed.

(** X26. When the lookup yields no seller, because the provider raised or
    because its list is empty, the Resolver returns the link of the offer,
    [None] when it has none. *)
Theorem get_enhanced_direct_link_fallback (product_choice : offer) (site_pref : str) :
  source_is_str product_choice ->
  (forall first rest, serpapi_sellers (product_api_id product_choice) <> Ok (first :: rest)) ->
  get_enhanced_direct_link SITE_DOMAINS urlparse_netloc serpapi_sellers
    product_choice site_pref = Ok (dict_get_none product_choice "link").
Proof.
  intros Hsrc Hnone. unfold get_enhanced_direct_link.
  destruct (is_from_correct_site_returns SITE_DOMAINS urlparse_netloc
              product_choice site_pref Hsrc) as [b ->].
  fold (product_api_id product_choice).
  destruct (truthy (dict_get_none product_choice "link")); cbn [mbind res_bind].
  - destruct b; [done|]. destruct (negb _); [done|].
    destruct (serpapi_sellers _) as [[|first rest]|] eqn:Hs; try done.
    by destruct (Hnone first rest).
  - destruct (negb _); [done|].
    destruct (serpapi_sellers _) as [[|first rest]|] eqn:Hs; try done.
    by destruct (Hnone first rest).
Qed.

(** X27. When the link of the offer is not from the preferred retailer, or
    is missing, and the provider lists sellers whose names are strings:
    for a named retailer the Resolver returns the link of the first
    seller, in the order of the list, whose name contains the preference
    or whose link is on a domain of the retailer; when there is none, and
    when the preference is [any], it returns the link of the first seller
    of the list. *)
Theorem get_enhanced_direct_link_first_match (product_choice : offer) (site_pref : str)
    (first : offer) (rest : list offer) :
  (if truthy (dict_get_none product_choice "link")
   then is_from_correct_site SITE_DOMAINS urlparse_netloc product_choice site_pref
   else Ok false) = Ok false ->
  truthy (product_api_id product_choice) = true ->
  serpapi_sellers (product_api_id product_choice) = Ok (first :: rest) ->
  Forall name_is_str (first :: rest) ->
  get_enhanced_direct_link SITE_DOMAINS urlparse_netloc serpapi_sellers
    product_choice site_pref
  = Ok (dict_get_none
          (if bool_decide (lower site_pref = lit "any") then first
           else default first
                  (List.find (seller_matches urlparse_netloc
                                (get_site_domains SITE_DOMAINS site_pref)
                                (remove_char " " (lower site_pref)))
                             (first :: rest)))
          "link").
Proof.
  intros Hok Hid Hsellers Hnames. unfold get_enhanced_direct_link.
  rewrite Hok. cbn [mbind res_bind]. fold (product_api_id product_choice).
  rewrite Hid, Hsellers. cbn [negb mbind res_bind].
  destruct (bool_decide (lower site_pref = lit "any")); [done|]. cbn [negb].
  rewrite (sellers_loop_find _ _ _ Hnames). cbn [mbind res_bind].
  by destruct (List.find _ _).
Qed.

End ResolverMore.

Lemma get_enhanced_direct_link_returns_witness :
  (exists v, get_enhanced_direct_link site_domains_example netloc_fails sellers_down
               offer_elsewhere "Target" = Ok v)
  /\ get_enhanced_direct_link site_domains_example netloc_fails sellers_down
       offer_null_source "Target" = Raise AttributeError.
Proof.
  split.
  - destruct (proj1 (get_enhanced_direct_link_returns site_domains_example netloc_fails
                       sellers_down offer_elsewhere "Target")) as (v & Hv & _).
    + right. eexists. vm_compute. reflexivity.
    + by exists v.
  - apply (proj2 (get_enhanced_direct_link_returns site_domains_example netloc_fails
                    sellers_down offer_null_source "Target")).
    + vm_compute. reflexivity.
    + vm_compute. discriminate.
    + intros [s Hs]. vm_compute in Hs. discriminate.
Defined.

Lemma get_enhanced_direct_link_fallback_witness :
  get_enhanced_direct_link site_domains_example netloc_example sellers_down
    offer_elsewhere "Target" = Ok (PStr "https://www.ebay.com/itm/1")
  /\ get_enhanced_direct_link site_domains_example netloc_example (sellers_example [])
       offer_elsewhere "Target" = Ok (PStr "https://www.ebay.com/itm/1").
Proof.
  assert (source_is_str offer_elsewhere) as Hs by (eexists; vm_compute; reflexivity).
  split.
  - apply (get_enhanced_direct_link_fallback site_domains_example netloc_example
             sellers_down offer_elsewhere "Target" Hs).
    intros first rest. vm_compute. discriminate.
  - apply (get_enhanced_direct_link_fallback site_domains_example netloc_example
             (sellers_example []) offer_elsewhere "Target" Hs).
    intros first rest. vm_compute. discriminate.
Defined.

Lemma get_enhanced_direct_link_first_match_witness :
  get_enhanced_direct_link site_domains_example netloc_example
    (sellers_example [seller_walmart; seller_shop; seller_target]) offer_elsewhere "Target"
  = Ok (PStr "https://www.target.com/p/2")
  /\ get_enhanced_direct_link site_domains_example netloc_example
       (sellers_example [seller_walmart; seller_shop; seller_target]) offer_elsewhere "Any"
     = Ok (PStr "https://www.ebay.com/itm/1")
  /\ get_enhanced_direct_link site_domains_example netloc_example
       (sellers_example [seller_walmart; seller_shop; seller_target]) offer_elsewhere "Costco"
     = Ok (PStr "https://www.walmart.com/ip/1").
Proof.
  assert (Forall name_is_str [seller_walmart; seller_shop; seller_target]) as Hn
    by (repeat constructor; eexists; vm_compute; reflexivity).
  split; [|split].
  - rewrite (get_enhanced_direct_link_first_match site_domains_example netloc_example
               (sellers_example [seller_walmart; seller_shop; seller_target])
               offer_elsewhere "Target" seller_walmart [seller_shop; seller_target]);
      try done; vm_compute; reflexivity.
  - vm_compute. reflexivity.
  - rewrite (get_enhanced_direct_link_first_match site_domains_example netloc_example
               (sellers_example [seller_walmart; seller_shop; seller_target])
               offer_elsewhere "Costco" seller_walmart [seller_shop; seller_target]);
      try done; vm_compute; reflexivity.
Defined.

(** ** Relevance Scorer: what it writes *)

Lemma py_arith_number op a b v : py_arith op a b = Ok v -> is_int_or_float v = true.
Proof.
  unfold py_arith. destruct (as_num a), (as_num b); try done.
  destruct (op _ _) as [[z|f]|]; simpl; try done; by intros [= <-].
Qed.

Lemma relevance_score_number (product : offer) (item : str) (v : pyval) :
  relevance_score product item = Ok v -> is_int_or_float v = true.
Proof.
  intros H.
  destruct (dict_get product "title" (PStr "")) as [| | | |t] eqn:Ht;
    try (unfold relevance_score in H; rewrite Ht in H; done).
  rewrite (relevance_score_unfold product item t Ht) in H. cbv zeta in H.
  destruct (is_int_or_float _ && is_int _); [|by injection H as <-].
  destruct (py_mul _ _) as [bonus|]; [|done]. cbn [mbind res_bind] in H.
  destruct (py_add _ bonus) as [s1|]; [|done]. cbn [mbind res_bind] in H.
  destruct (py_truediv _ _) as [q|]; [|done]. cbn [mbind res_bind] in H.
  destruct (py_min q _) as [m|]; [|done]. cbn [mbind res_bind] in H.
  destruct (py_add s1 m) as [s2|] eqn:E; [|done]. cbn [mbind res_bind] in H.
  destruct (100 <? _)%nat.
  - by apply (py_arith_number _ _ _ _ H).
  - injection H as <-. by apply (py_arith_number _ _ _ _ E).
Qed.

(** X28. The Scorer returns the offers it was given, in the same order, each
    with the field [relevance_score] set to its score, which is an [int]
    or a [float]; it changes no other field. *)
Theorem calculate_advanced_relevance_scores_frame
    (results scored : list offer) (item : str) :
  calculate_advanced_relevance_scores results item = Ok scored ->
  Forall2 (fun p x =>
             (forall k : string, k <> "relevance_score"%string -> x !! k = p !! k)
             /\ exists score,
                  x !! "relevance_score" = Some score
                  /\ relevance_score p item = Ok score
                  /\ is_int_or_float score = true) results scored.
Proof.
  intros H%scores_inv. eapply Forall2_impl; [exact H|].
  intros p x (score & Hscore & ->). split.
  - intros k Hk. unfold dict_set. by rewrite dict_lookup_insert_ne.
  - exists score. unfold dict_set. rewrite dict_lookup_insert_eq.
    split; [done|]. split; [done|]. by apply (relevance_score_number p item).
Qed.

Lemma calculate_advanced_relevance_scores_frame_witness :
  exists scored,
    calculate_advanced_relevance_scores [offer_iphone; offer_rated] "iphone" = Ok scored
    /\ map (fun x => dict_get_none x "relevance_score") scored
       = [PFloat (float_of_decimal "1340"); PInt 1100]
    /\ Forall2 (fun p x =>
                  (forall k : string, k <> "relevance_score"%string -> x !! k = p !! k)
                  /\ exists score,
                       x !! "relevance_score" = Some score
                       /\ relevance_score p "iphone" = Ok score
                       /\ is_int_or_float score = true) [offer_iphone; offer_rated] scored.
Proof.
  eexists. split; [vm_compute; reflexivity|]. split; [vm_compute; reflexivity|].
  apply (calculate_advanced_relevance_scores_frame [offer_iphone; offer_rated]).
  vm_compute. reflexivity.
Defined.

(** ** The primary domain of a retailer *)

Lemma get_primary_domain_cases (site_preference : str) :
  get_primary_domain site_preference = []
  \/ get_primary_domain site_preference
     = remove_char " " (lower site_preference) ++ lit ".com".
Proof.
  unfold get_primary_domain, domain_map. cbn [str_map_get].
  repeat match goal with
         | |- context [bool_decide (lower site_preference = ?k)] =>
             destruct (decide (lower site_preference = k)) as [->|Hk];
             [rewrite bool_decide_eq_true_2 by done; right; vm_compute; reflexivity
             |rewrite (bool_decide_eq_false_2 _ Hk); clear Hk]
         end.
  by left.
Qed.

Section PrimaryDomain.

Variable SITE_DOMAINS : str -> option (list str).
Variable urlparse_netloc : str -> res str.

(** X29. The primary domain of a retailer of the table is its name in lower
    case, without spaces, followed by [.com], and it is found in whatever
    case the name is written; so the retailer check accepts every offer
    whose source shows the primary domain of the preferred retailer. *)
Theorem get_primary_domain_source (product : offer) (site_preference s : str) :
  (get_primary_domain site_preference = []
   \/ get_primary_domain site_preference
      = remove_char " " (lower site_preference) ++ lit ".com")
  /\ (get_primary_domain site_preference <> [] ->
      dict_get product "source" (PStr "") = PStr s ->
      contains (get_primary_domain site_preference) (remove_char " " (lower s)) = true ->
      is_from_correct_site SITE_DOMAINS urlparse_netloc product site_preference = Ok true).
Proof.
  split; [apply get_primary_domain_cases|].
  intros Hne Hs Hin. destruct (get_primary_domain_cases site_preference) as [|Hd]; [done|].
  unfold is_from_correct_site.
  destruct (bool_decide (lower site_preference = lit "any")); [done|].
  rewrite Hs. cbn [as_str mbind res_bind].
  rewrite (contains_trans _ (get_primary_domain site_preference)); [done| |done].
  rewrite Hd. apply contains_spec. by exists [], (lit ".com").
Qed.

End PrimaryDomain.

Lemma get_primary_domain_source_witness :
  get_primary_domain "Best Buy" = lit "bestbuy.com"
  /\ get_primary_domain "Any" = lit ""
  /\ is_from_correct_site site_domains_example netloc_fails offer_by_domain "BEST BUY" = Ok true.
Proof.
  split; [vm_compute; reflexivity|]. split; [vm_compute; reflexivity|].
  apply (proj2 (get_primary_domain_source site_domains_example netloc_fails
                  offer_by_domain "BEST BUY" "BestBuy.com")).
  - vm_compute. discriminate.
  - vm_compute. reflexivity.
  - vm_compute. reflexivity.
Defined.

(** ** Prices: the separators *)

Lemma remove_char_app c a b : remove_char c (a ++ b) = remove_char c a ++ remove_char c b.
Proof. unfold remove_char. apply filter_app. Qed.

Lemma remove_char_cons_eq c b : remove_char c (c :: b) = remove_char c b.
Proof. unfold remove_char. cbn [filter list_filter]. by destruct (decide (c <> c)). Qed.

Lemma remove_char_cons_ne c d b : d <> c -> remove_char c (d :: b) = d :: remove_char c b.
Proof.
  intros H. unfold remove_char. cbn [filter list_filter]. by destruct (decide (d <> c)).
Qed.

(** X30. Dollar signs and commas are ignored wherever they stand in a price
    string: the price reads as the string without them does, so that
    [12,50] reads as 1250. *)
Theorem parse_price_separators (a b : str) (c : ascii) :
  c = "$"%char \/ c = ","%char ->
  parse_price (PStr (a ++ c :: b)) = parse_price (PStr (a ++ b)).
Proof.
  intros Hc. unfold parse_price. cbn [as_str mbind res_bind]. f_equal.
  rewrite !remove_char_app. destruct Hc as [->| ->].
  - by rewrite remove_char_cons_eq.
  - rewrite (remove_char_cons_ne "$" ",") by done. by rewrite remove_char_cons_eq.
Qed.

Lemma parse_price_separators_witness :
  parse_price (PStr "12,50") = parse_price (PStr "1250")
  /\ parse_price (PStr "1250") = Ok (float_of_Z 1250)
  /\ parse_price (PStr "$1,299.00") = parse_price (PStr "1,299.00").
Proof.
  split; [exact (parse_price_separators "12" "50" "," (or_intror eq_refl))|].
  split; [vm_compute; reflexivity|].
  exact (parse_price_separators "" "1,299.00" "$" (or_introl eq_refl)).
Defined.
